(** * OpenRFM schema inference: a shallow embedding of [schemas.py]

    The development follows the module top to bottom: the keyword and
    pattern tables, the per-role scorers, the greedy role resolver of
    [infer_schema] and the standardizer [infer_and_standardize_rfm].

    Modelling conventions.
    - The ratios and scores of the module are exact rationals ([Q]) and
      [==] is equality of values.  What depends on the binary value of a
      float is not computed but specified: [round(x, 3)] and the [.1f]
      format are library functions known by their law, a nearest multiple
      of 0.001 and a nearest number of tenths, with the choice between two
      nearest ones left open.  The lifetime value of the application is
      computed in float arithmetic with its relative rounding error
      ([FloatArith]).
    - [Series.astype(str)] turns a missing value into the text [nan] in
      pandas 2 and leaves it missing in pandas 3; the repository pins no
      version, and the cast is a parameter ([astype_keeps_missing]).
    - Characters are code points below 256; whitespace, lower-casing and
      the regular expressions follow Python's [str] and [re] on that range.
    - A pandas cell is missing ([NaN]), a string, a number or a timestamp.
      [NaN] is the missing value of a loaded table; the [NaT] and [pd.NA]
      markers the standardizer writes are identified with it, since the
      source only ever inspects them through [isna]/[notna]/[dropna].
    - Data frames live in a store of objects addressed by reference, so
      that "the caller's table" is a location whose content can be compared
      before and after a call.
    - What the third-party libraries compute on values (fuzzy string ratio,
      numeric and date parsing, rendering of numbers) is a parameter of the
      development, the class [Externals]. *)

From Stdlib Require Import Ascii QArith Qround Qminmax Qabs Lqa.
From stdpp Require Import gmap strings list fin_maps pretty sorting.

(** ** Text primitives ([str] methods used by the module) *)

Definition code (a : ascii) : nat := nat_of_ascii a.

(** [str.isspace] on code points below 256. *)
Definition is_space (a : ascii) : bool :=
  let n := code a in
  (((9 <=? n) && (n <=? 13)) || ((28 <=? n) && (n <=? 32))
   || (n =? 133) || (n =? 160))%nat.

(** [str.lower] on one code point below 256. *)
Definition lower_char (a : ascii) : ascii :=
  let n := code a in
  if (((65 <=? n) && (n <=? 90))
      || ((192 <=? n) && (n <=? 222) && negb (n =? 215)))%nat
  then ascii_of_nat (n + 32) else a.

Fixpoint lower (s : string) : string :=
  match s with
  | "" => ""
  | String a r => String (lower_char a) (lower r)
  end.

(** [s.replace(old, new)] for a one-character [old]. *)
Fixpoint replace_char (old : ascii) (new : string) (s : string) : string :=
  match s with
  | "" => ""
  | String a r =>
      if Ascii.eqb a old then new +:+ replace_char old new r
      else String a (replace_char old new r)
  end.

Fixpoint lstrip (s : string) : string :=
  match s with
  | "" => ""
  | String a r => if is_space a then lstrip r else s
  end.

Fixpoint rstrip (s : string) : string :=
  match s with
  | "" => ""
  | String a r =>
      match rstrip r with
      | "" => if is_space a then "" else String a ""
      | r' => String a r'
      end
  end.

(** [s.strip()] *)
Definition strip (s : string) : string := rstrip (lstrip s).

(** [re.sub(r"\s+", " ", s)]: [in_run] tells whether the previous character
    already belonged to the run being collapsed. *)
Fixpoint collapse_spaces (in_run : bool) (s : string) : string :=
  match s with
  | "" => ""
  | String a r =>
      if is_space a
      then (if in_run then collapse_spaces true r
            else String " "%char (collapse_spaces true r))
      else String a (collapse_spaces false r)
  end.

(** [needle in hay] *)
Fixpoint contains (needle hay : string) : bool :=
  String.prefix needle hay
  || match hay with
     | "" => false
     | String _ r => contains needle r
     end.

(** [sep.join(parts)] *)
Fixpoint join (sep : string) (parts : list string) : string :=
  match parts with
  | [] => ""
  | [p] => p
  | p :: rest => p +:+ sep +:+ join sep rest
  end.

(** ** Regular expressions ([re.search] on the patterns of [REGEX_HINTS]) *)

Inductive regex : Type :=
  | Empty  (* matches nothing *)
  | Eps
  | Chr (a : ascii)
  | Dot  (* [.]: any character but a newline *)
  | Cls (set : string)  (* [[...]] *)
  | Cat (r1 r2 : regex)
  | Alt (r1 r2 : regex)
  | Opt (r : regex)
  | Star (r : regex)
  | Eos.  (* [$]: at the end, or before a final newline *)

Fixpoint Lit (s : string) : regex :=
  match s with
  | "" => Eps
  | String a r => Cat (Chr a) (Lit r)
  end.

Definition Alts (rs : list regex) : regex := foldr Alt Empty rs.

Definition newline : ascii := ascii_of_nat 10.

(** Whether [$] matches in front of the remaining input [rest]. *)
Definition at_end (rest : string) : bool :=
  match rest with
  | "" => true
  | String a "" => Ascii.eqb a newline
  | _ => false
  end.

Fixpoint in_class (a : ascii) (set : string) : bool :=
  match set with
  | "" => false
  | String b r => Ascii.eqb a b || in_class a r
  end.

(** [nullable e r]: [r] matches the empty word, [e] telling whether the
    position is one where [$] matches. *)
Fixpoint nullable (e : bool) (r : regex) : bool :=
  match r with
  | Empty => false
  | Eps => true
  | Chr _ => false
  | Dot => false
  | Cls _ => false
  | Cat r1 r2 => nullable e r1 && nullable e r2
  | Alt r1 r2 => nullable e r1 || nullable e r2
  | Opt _ => true
  | Star _ => true
  | Eos => e
  end.

(** Brzozowski derivative by the character [a] read at a position where
    [$] matches iff [e]. *)
Fixpoint deriv (e : bool) (a : ascii) (r : regex) : regex :=
  match r with
  | Empty => Empty
  | Eps => Empty
  | Chr b => if Ascii.eqb a b then Eps else Empty
  | Dot => if Ascii.eqb a newline then Empty else Eps
  | Cls set => if in_class a set then Eps else Empty
  | Cat r1 r2 =>
      Alt (Cat (deriv e a r1) r2)
          (if nullable e r1 then deriv e a r2 else Empty)
  | Alt r1 r2 => Alt (deriv e a r1) (deriv e a r2)
  | Opt r1 => deriv e a r1
  | Star r1 => Cat (deriv e a r1) (Star r1)
  | Eos => Empty
  end.

(** [pattern.match]: some prefix of [s] is matched by [r]. *)
Fixpoint match_prefix (r : regex) (s : string) : bool :=
  nullable (at_end s) r
  || match s with
     | "" => false
     | String a rest => match_prefix (deriv (at_end s) a r) rest
     end.

(** [pattern.search(s)]: a match starts at some position of [s]. *)
Fixpoint search (r : regex) (s : string) : bool :=
  match_prefix r s
  || match s with
     | "" => false
     | String _ rest => search r rest
     end.

(** ** Float helpers *)

Local Open Scope Q_scope.

Definition Qltb (a b : Q) : bool := negb (Qle_bool b a).

(** [count / total] as a float; the callers guard [total = 0]. *)
Definition ratio (count total : nat) : Q :=
  inject_Z (Z.of_nat count) / inject_Z (Z.of_nat total).

(** The text of a number of tenths: [287] reads ["28.7"]. *)
Definition tenths_text (tenths : Z) : string :=
  pretty (tenths / 10)%Z +:+ "." +:+ pretty (tenths mod 10)%Z.

(** Python's [min(a, b)] and the running maximum [if x > m: m = x]. *)
Definition Qmin2 (a b : Q) : Q := if Qltb b a then b else a.
Definition Qmax2 (m x : Q) : Q := if Qltb m x then x else m.

(** ** The module's tables *)

Inductive target : Type := CustomerID | TransactionDate | TransactionAmount.

#[global] Instance target_eq_dec : EqDecision target.
Proof. solve_decision. Defined.

Definition target_code (t : target) : nat :=
  match t with CustomerID => 0 | TransactionDate => 1 | TransactionAmount => 2 end.

Definition target_of_code (n : nat) : option target :=
  match n with
  | 0%nat => Some CustomerID
  | 1%nat => Some TransactionDate
  | 2%nat => Some TransactionAmount
  | _ => None
  end.

#[global] Instance target_countable : Countable target.
Proof.
  apply (inj_countable target_code target_of_code).
  intros []; reflexivity.
Defined.

(** The canonical column name of a role, as the source spells it. *)
Definition target_name (t : target) : string :=
  match t with
  | CustomerID => "CustomerID"
  | TransactionDate => "TransactionDate"
  | TransactionAmount => "TransactionAmount"
  end.

Definition TARGET_COLUMNS : list target :=
  [CustomerID; TransactionDate; TransactionAmount].

Definition NAME_KEYWORDS (t : target) : list string :=
  match t with
  | CustomerID =>
      ["customer id"; "customer"; "client"; "user"; "buyer"; "account";
       "member"; "subscriber"]
  | TransactionDate =>
      ["transaction date"; "date"; "order date"; "purchase"; "invoice";
       "timestamp"; "datetime"; "sale date"]
  | TransactionAmount =>
      ["amount"; "revenue"; "sales"; "total"; "spend"; "value"; "price";
       "payment"; "monetary"; "charge"]
  end.

(** [[_-]?id] *)
Definition sep_id : regex := Cat (Opt (Cls "_-")) (Lit "id").

Definition REGEX_HINTS (t : target) : list regex :=
  match t with
  | CustomerID =>
      [Cat (Lit "cust") (Cat (Opt (Lit "omer")) sep_id);
       Cat (Lit "client") sep_id;
       Cat (Lit "account") sep_id;
       Cat (Lit "user") sep_id]
  | TransactionDate =>
      [Cat (Alts [Lit "trans"; Lit "order"; Lit "sale"; Lit "purchase";
                  Lit "invoice"])
           (Cat (Star Dot) (Lit "date"));
       Cat (Lit "date") Eos;
       Lit "timestamp"]
  | TransactionAmount =>
      [Alts [Lit "sales"; Lit "revenue"; Lit "total"; Lit "amount";
             Lit "spend"; Lit "value"; Lit "charge"];
       Cat (Alts [Lit "net"; Lit "gross"]) (Cat (Star Dot) (Lit "amount"));
       Lit "payment"]
  end.

Definition MIN_INFERENCE_SCORE : Q := 55 # 100.

Definition NEGATIVE_AMOUNT_KEYWORDS : list string :=
  ["quantity"; "qty"; "count"; "units"; "unit"; "volume"].

(** ** Tables *)

Inductive cell : Type :=
  | NaN
  | Text (s : string)
  | Number (q : Q)
  | Time (ns : Z).

Abbreviation Series := (list cell).

(** A frame: the length of its index and its labelled columns, in order.
    Labels may repeat, as pandas allows. *)
Record DataFrame : Type := {
  index_size : nat;
  columns : list (string * Series);
}.

Definition labels (df : DataFrame) : list string := (columns df).*1.

(** What [df[label]] denotes: the columns carrying that label.  One column
    is a Series; several are a sub-frame; none is a [KeyError]. *)
Definition getitem (df : DataFrame) (label : string) : list Series :=
  (List.filter (fun c => String.eqb c.1 label) (columns df)).*2.

Definition isna (c : cell) : bool :=
  match c with NaN => true | _ => false end.

Definition notna (c : cell) : bool := negb (isna c).

Definition dropna (s : Series) : Series := List.filter notna s.

(** Equality of two cell values, as Python's [==] on them. *)
Definition cell_eqb (a b : cell) : bool :=
  match a, b with
  | Text s1, Text s2 => String.eqb s1 s2
  | Number q1, Number q2 => Qeq_bool q1 q2
  | Time t1, Time t2 => Z.eqb t1 t2
  | _, _ => false
  end.

(** [Series.nunique(dropna=True)] on a series without missing values. *)
Fixpoint distinct (s : Series) : Series :=
  match s with
  | [] => []
  | c :: r => if existsb (cell_eqb c) r then distinct r else c :: distinct r
  end.

Definition nunique (s : Series) : nat := length (distinct s).

(** [DataFrame.dropna().empty] for the sub-frame made of [cols]: no row has
    a value in every column. *)
Definition frame_dropna_empty (cols : list Series) : bool :=
  match cols with
  | [] => true
  | c :: rest =>
      negb (existsb id
              (fold_left (fun mask col => zip_with andb mask (map notna col))
                         rest (map notna c)))
  end.

(** ** What the libraries compute *)

Class Externals : Type := {
  (** [fuzz.partial_ratio(a, b)], an integer percentage *)
  partial_ratio : string -> string -> Z;
  (** [pd.to_numeric(·, errors="coerce")] on one cleaned string; [None] is
      the missing value it yields on failure *)
  to_numeric : string -> option Q;
  (** [pd.to_datetime(series, errors="coerce")] at one cell of [series];
      the format pandas infers may depend on the whole series *)
  to_datetime : Series -> cell -> option Z;
  (** [str(x)] of a numeric cell and of a timestamp cell *)
  str_number : Q -> string;
  str_time : Z -> string;
  (** Whether [Series.astype(str)] leaves a missing value missing, as
      pandas 3 does, or turns it into the text of [nan], as pandas 2 does *)
  astype_keeps_missing : bool;
  (** [round(x, 3)] on a float: a multiple of 0.001 nearest to [x]; which
      of two nearest ones is taken depends on the binary value of the
      float and is left open *)
  round3 : Q -> Q;
  round3_nearest :
    forall x, exists n : Z,
      round3 x == inject_Z n / 1000 /\ Qabs (x - round3 x) <= 1 # 2000;
  (** [f"{x:.1f}"] for a non-negative float: the text of a number of
      tenths nearest to [x], with the same freedom *)
  format_1f : Q -> string;
  format_1f_nearest :
    forall x, 0 <= x -> exists tenths : Z,
      Qabs (x * 10 - inject_Z tenths) <= 1 # 2
      /\ format_1f x = tenths_text tenths;
}.

Record ColumnScore : Type := {
  column : string;
  score : Q;
  components : gmap string Q;
}.

Record Suggestion : Type := {
  best_column : string;
  suggested_score : Q;
  suggested_components : gmap string Q;
}.

(** [details] of the error: [{"suggestions": ...}]. *)
Record Details : Type := {
  suggestions : gmap target (option Suggestion);
}.

Inductive exn : Type :=
  | SchemaInferenceError (message : string) (details : Details)
  | PandasError.  (* any exception raised inside pandas or on its objects *)

Inductive result (A : Type) : Type :=
  | Ok (a : A)
  | Raise (e : exn).

Arguments Ok {A} a.
Arguments Raise {A} e.

Section Model.

Context {ext : Externals}.

(** Python's [str(value)]; [str(float("nan"))] is ["nan"]. *)
Definition astype_str (c : cell) : string :=
  match c with
  | NaN => "nan"
  | Text s => s
  | Number q => str_number q
  | Time t => str_time t
  end.

(** One cell of [series.astype(str)]: [str] of the value; a missing value
    stays missing or is converted like a value, as the library has it. *)
Definition astype_str_cell (c : cell) : cell :=
  if isna c && astype_keeps_missing then NaN else Text (astype_str c).

(** One cell of [series.str.method(...)]: the method on a text, a missing
    value for whatever is no text. *)
Definition str_accessor (method : string -> string) (c : cell) : cell :=
  match c with
  | Text s => Text (method s)
  | _ => NaN
  end.

(** [pd.to_numeric(·, errors="coerce")] at one cell of a series of texts
    and missing values. *)
Definition to_numeric_cell (c : cell) : option Q :=
  match c with
  | Text s => to_numeric s
  | _ => None
  end.

Definition _normalise_column_name (name : string) : string :=
  lower (strip (collapse_spaces false
                  (replace_char "-"%char " " (replace_char "_"%char " " name)))).

Definition _name_similarity_score (column_name : string) (t : target) : Q :=
  let cleaned := _normalise_column_name column_name in
  fold_left
    (fun max_ratio keyword =>
       Qmax2 max_ratio (inject_Z (partial_ratio cleaned keyword) / 100))
    (NAME_KEYWORDS t) 0.

Definition _regex_bonus (column_name : string) (t : target) : Q :=
  let cleaned := lower column_name in
  if existsb (fun pattern => search pattern cleaned) (REGEX_HINTS t)
  then 4 # 10 else 0.

(** The cleaning of [_attempt_numeric]: drop [,] and [$], turn [(] into
    [-], drop [)]. *)
Definition clean_numeric (s : string) : string :=
  replace_char ")"%char "" (replace_char "("%char "-"
    (replace_char "$"%char "" (replace_char ","%char "" s))).

(** [notna().mean() if len(...) else 0.0] *)
Definition valid_ratio {A : Type} (parsed : list (option A)) : Q :=
  match parsed with
  | [] => 0
  | _ => ratio (length (List.filter (fun o => bool_decide (is_Some o)) parsed))
               (length parsed)
  end.

Definition _attempt_numeric (series : Series) : list (option Q) * Q :=
  let as_str := map astype_str_cell series in
  let as_str := map (str_accessor clean_numeric) as_str in
  let numeric := map to_numeric_cell as_str in
  (numeric, valid_ratio numeric).

Definition _attempt_datetime (series : Series) : list (option Z) * Q :=
  let parsed := map (to_datetime series) series in
  (parsed, valid_ratio parsed).

Definition empty_score (column_name : string) : ColumnScore :=
  {| column := column_name; score := 0;
     components := {["non_null_ratio" := 0]} |}.

(** *** The three scorers *)

Definition _score_customer_id (column_name : string) (series : Series)
  : ColumnScore :=
  let non_null := dropna series in
  match non_null with
  | [] => empty_score column_name
  | _ =>
      let sc := 0 in
      let name_score := _name_similarity_score column_name CustomerID in
      let regex_score := _regex_bonus column_name CustomerID in
      let sc := sc + Qmin2 (3 # 10) (name_score * (3 # 10)) in
      let sc := sc + regex_score in
      let comps : gmap string Q := <["name_similarity" := round3 name_score]> ∅ in
      let comps := <["regex_bonus" := round3 regex_score]> comps in
      let unique_ratio := ratio (nunique non_null) (max (length non_null) 1) in
      let uniqueness_component := Qmin2 unique_ratio 1 * (5 # 10) in
      let sc := sc + uniqueness_component in
      let comps := <["unique_ratio" := round3 unique_ratio]> comps in
      let numeric_ratio := (_attempt_numeric non_null).2 in
      let comps := <["numeric_ratio" := round3 numeric_ratio]> comps in
      let sc :=
        if Qltb (9 # 10) numeric_ratio && Qltb unique_ratio (3 # 10)
        then sc * (6 # 10) else sc in
      {| column := column_name; score := Qmin2 sc 1; components := comps |}
  end.

Definition _score_transaction_date (column_name : string) (series : Series)
  : ColumnScore :=
  let non_null := dropna series in
  match non_null with
  | [] => empty_score column_name
  | _ =>
      let sc := 0 in
      let name_score := _name_similarity_score column_name TransactionDate in
      let regex_score := _regex_bonus column_name TransactionDate in
      let sc := sc + Qmin2 (3 # 10) (name_score * (3 # 10)) in
      let sc := sc + regex_score in
      let comps : gmap string Q := <["name_similarity" := round3 name_score]> ∅ in
      let comps := <["regex_bonus" := round3 regex_score]> comps in
      let valid := (_attempt_datetime non_null).2 in
      let comps := <["valid_datetime_ratio" := round3 valid]> comps in
      let sc :=
        if Qle_bool (7 # 10) valid then sc + (6 # 10)
        else if Qle_bool (4 # 10) valid then sc + (35 # 100)
        else sc in
      let numeric_ratio := (_attempt_numeric non_null).2 in
      let sc :=
        if Qltb (8 # 10) numeric_ratio && Qltb valid (4 # 10)
        then sc * (5 # 10) else sc in
      {| column := column_name; score := Qmin2 sc 1; components := comps |}
  end.

(** [(numeric.dropna() > 0).mean() if not numeric.dropna().empty else 0.0] *)
Definition positive_ratio (numeric : list (option Q)) : Q :=
  let present := omap id numeric in
  match present with
  | [] => 0
  | _ => ratio (length (List.filter (fun v => Qltb 0 v) present))
               (length present)
  end.

Definition _score_transaction_amount (column_name : string) (series : Series)
  : ColumnScore :=
  let non_null := dropna series in
  match non_null with
  | [] => empty_score column_name
  | _ =>
      let sc := 0 in
      let name_score := _name_similarity_score column_name TransactionAmount in
      let regex_score := _regex_bonus column_name TransactionAmount in
      let sc := sc + Qmin2 (3 # 10) (name_score * (3 # 10)) in
      let sc := sc + regex_score in
      let comps : gmap string Q := <["name_similarity" := round3 name_score]> ∅ in
      let comps := <["regex_bonus" := round3 regex_score]> comps in
      let '(numeric, valid) := _attempt_numeric non_null in
      let comps := <["valid_numeric_ratio" := round3 valid]> comps in
      let sc :=
        if Qle_bool (7 # 10) valid then sc + (6 # 10)
        else if Qle_bool (5 # 10) valid then sc + (4 # 10)
        else sc in
      let '(sc, comps) :=
        if Qltb 0 valid then
          let positive := positive_ratio numeric in
          (if Qle_bool (7 # 10) positive then sc + (1 # 10) else sc,
           <["positive_ratio" := round3 positive]> comps)
        else (sc, comps) in
      let datetime_ratio := (_attempt_datetime non_null).2 in
      let sc :=
        if Qltb (4 # 10) datetime_ratio && Qltb valid (5 # 10)
        then sc * (4 # 10) else sc in
      let cleaned_name := _normalise_column_name column_name in
      let sc :=
        if existsb (fun keyword => contains keyword cleaned_name)
                   NEGATIVE_AMOUNT_KEYWORDS
        then sc * (5 # 10) else sc in
      {| column := column_name; score := Qmin2 sc 1; components := comps |}
  end.

Definition SCORERS (t : target) : string -> Series -> ColumnScore :=
  match t with
  | CustomerID => _score_customer_id
  | TransactionDate => _score_transaction_date
  | TransactionAmount => _score_transaction_amount
  end.

(** [scorer(column, df[column])].  With a unique label the argument is a
    Series.  With a repeated label it is a sub-frame: every scorer still
    returns its empty-column score when [dropna()] leaves no row, and
    otherwise fails inside pandas on the frame. *)
Definition call_scorer (t : target) (column_name : string)
    (selection : list Series) : result ColumnScore :=
  match selection with
  | [series] => Ok (SCORERS t column_name series)
  | [] => Raise PandasError
  | _ => if frame_dropna_empty selection then Ok (empty_score column_name)
         else Raise PandasError
  end.

(** ** [infer_schema] *)

(** [{target: [] for target in TARGET_COLUMNS}] *)
Definition empty_scores : gmap target (list ColumnScore) :=
  list_to_map (map (fun t => (t, [])) TARGET_COLUMNS).

(** [scores[t].append(x)]; [scores !!! t] is [scores[t]]. *)
Definition append_score (scores : gmap target (list ColumnScore)) (t : target)
    (x : ColumnScore) : gmap target (list ColumnScore) :=
  <[t := scores !!! t ++ [x]]> scores.

(** The inner loop [for target, scorer in SCORERS.items()]. *)
Fixpoint score_one_column (df : DataFrame) (column_name : string)
    (targets : list target) (scores : gmap target (list ColumnScore))
  : result (gmap target (list ColumnScore)) :=
  match targets with
  | [] => Ok scores
  | t :: rest =>
      match call_scorer t column_name (getitem df column_name) with
      | Ok x => score_one_column df column_name rest (append_score scores t x)
      | Raise e => Raise e
      end
  end.

(** The outer loop [for column in df.columns]. *)
Fixpoint score_columns (df : DataFrame) (cols : list string)
    (scores : gmap target (list ColumnScore))
  : result (gmap target (list ColumnScore)) :=
  match cols with
  | [] => Ok scores
  | column_name :: rest =>
      match score_one_column df column_name TARGET_COLUMNS scores with
      | Ok scores' => score_columns df rest scores'
      | Raise e => Raise e
      end
  end.

(** [sorted(l, key=key, reverse=True)]: stable, larger keys first. *)
Fixpoint insert_desc {A : Type} (key : A -> Q) (x : A) (l : list A) : list A :=
  match l with
  | [] => [x]
  | y :: r => if Qltb (key x) (key y) then y :: insert_desc key x r
              else x :: l
  end.

Definition sorted_desc {A : Type} (key : A -> Q) (l : list A) : list A :=
  foldr (insert_desc key) [] l.

(** [max((s.score for s in candidates), default=0.0)] *)
Definition best_score (candidates : list ColumnScore) : Q :=
  match candidates with
  | [] => 0
  | c :: r => fold_left (fun m x => Qmax2 m (score x)) r (score c)
  end.

Definition target_order (scores : gmap target (list ColumnScore))
  : list target :=
  sorted_desc (fun t => best_score (scores !!! t)) TARGET_COLUMNS.

(** The scan [for candidate in candidates]: the first candidate whose
    column is free and whose score reaches [min_score]. *)
Fixpoint first_free (candidates : list ColumnScore) (used_columns : gset string)
    (min_score : Q) : option ColumnScore :=
  match candidates with
  | [] => None
  | candidate :: rest =>
      if decide (column candidate ∈ used_columns)
      then first_free rest used_columns min_score
      else if Qle_bool min_score (score candidate) then Some candidate
      else first_free rest used_columns min_score
  end.

(** One iteration of [for target in target_order] on the pair
    [(mapping, used_columns)]. *)
Definition assign_target (scores : gmap target (list ColumnScore))
    (min_score : Q) (st : gmap target string * gset string) (t : target)
  : gmap target string * gset string :=
  let candidates := sorted_desc score (scores !!! t) in
  match first_free candidates st.2 min_score with
  | Some candidate =>
      (<[t := column candidate]> st.1, {[column candidate]} ∪ st.2)
  | None => st
  end.

(** The greedy pass. *)
Definition assign_roles (scores : gmap target (list ColumnScore))
    (min_score : Q) : gmap target string * gset string :=
  fold_left (assign_target scores min_score) (target_order scores) (∅, ∅).

Definition suggestion_for (candidates : list ColumnScore) : option Suggestion :=
  match sorted_desc score candidates with
  | top :: _ =>
      Some {| best_column := column top;
              suggested_score := round3 (score top);
              suggested_components := components top |}
  | [] => None
  end.

Definition inference_message (missing_targets : list target) : string :=
  "Unable to infer required columns: "
  +:+ join ", " (map target_name missing_targets)
  +:+ ". Please rename the relevant fields or supply mapping hints.".

Definition infer_schema (df : DataFrame) (min_score : Q)
  : result (gmap target string * gmap target (list ColumnScore)) :=
  match score_columns df (labels df) empty_scores with
  | Raise e => Raise e
  | Ok scores =>
      let mapping := (assign_roles scores min_score).1 in
      let missing_targets :=
        List.filter (fun t => bool_decide (mapping !! t = None)) TARGET_COLUMNS in
      match missing_targets with
      | [] => Ok (mapping, scores)
      | _ =>
          let suggestions :=
            fold_left (fun sugg t => <[t := suggestion_for (scores !!! t)]> sugg)
                      missing_targets ∅ in
          Raise (SchemaInferenceError (inference_message missing_targets)
                   {| suggestions := suggestions |})
      end
  end.

End Model.

(** ** The object store *)

(** Frames are objects addressed by their index in the store; [logged] is
    what was sent to the logger. *)
Record Store : Type := {
  frames : list DataFrame;
  logged : list string;
}.

Abbreviation ref := nat.

(** Computations that read and write the store and may raise. *)
Definition M (A : Type) : Type := Store -> result A * Store.

#[global] Instance M_ret : MRet M := fun A a st => (Ok a, st).

#[global] Instance M_bind : MBind M := fun A B f m st =>
  match m st with
  | (Ok a, st') => f a st'
  | (Raise e, st') => (Raise e, st')
  end.

Definition raise {A : Type} (e : exn) : M A := fun st => (Raise e, st).

Definition lift {A : Type} (r : result A) : M A := fun st => (r, st).

(** Dereference an object. *)
Definition read (r : ref) : M DataFrame := fun st =>
  match frames st !! r with
  | Some df => (Ok df, st)
  | None => (Raise PandasError, st)
  end.

(** A new object holding [df]. *)
Definition alloc (df : DataFrame) : M ref := fun st =>
  (Ok (length (frames st)),
   {| frames := frames st ++ [df]; logged := logged st |}).

(** Mutate the object [r] in place. *)
Definition write (r : ref) (df : DataFrame) : M unit := fun st =>
  (Ok tt, {| frames := <[r := df]> (frames st); logged := logged st |}).

(** [log.warning(msg)] *)
Definition log_warning (msg : string) : M unit := fun st =>
  (Ok tt, {| frames := frames st; logged := logged st ++ [msg] |}).

(** *** Frame operations *)

(** The frame [df.rename(columns=rename_map)] builds. *)
Definition frame_rename (rename_map : gmap string target) (df : DataFrame)
  : DataFrame :=
  {| index_size := index_size df;
     columns := map (fun c => (match rename_map !! c.1 with
                               | Some t => target_name t
                               | None => c.1
                               end, c.2)) (columns df) |}.

(** The frame after [df[label] = series]. *)
Definition frame_setitem (label : string) (series : Series) (df : DataFrame)
  : DataFrame :=
  {| index_size := index_size df;
     columns :=
       if bool_decide (label ∈ labels df)
       then map (fun c => if String.eqb c.1 label then (c.1, series) else c)
                (columns df)
       else columns df ++ [(label, series)] |}.

Fixpoint mask_assign (mask : list bool) (v : cell) (s : Series) : Series :=
  match mask, s with
  | m :: mask', c :: s' => (if m then v else c) :: mask_assign mask' v s'
  | _, _ => s
  end.

(** The frame after [df.loc[mask, label] = v]. *)
Definition frame_loc_assign (mask : list bool) (label : string) (v : cell)
    (df : DataFrame) : DataFrame :=
  {| index_size := index_size df;
     columns := map (fun c => if String.eqb c.1 label
                              then (c.1, mask_assign mask v c.2) else c)
                    (columns df) |}.

(** [standardized[label]] used as a Series. *)
Definition getitem_series (r : ref) (label : string) : M Series :=
  df ← read r;
  match getitem df label with
  | [series] => mret series
  | _ => raise PandasError
  end.

(** [standardized[label] = series] *)
Definition setitem (r : ref) (label : string) (series : Series) : M unit :=
  df ← read r; write r (frame_setitem label series df).

(** [standardized.loc[mask, label] = v] *)
Definition loc_assign (r : ref) (mask : list bool) (label : string) (v : cell)
  : M unit :=
  df ← read r; write r (frame_loc_assign mask label v df).

(** [df.rename(columns=rename_map)]: a new object. *)
Definition rename (r : ref) (rename_map : gmap string target) : M ref :=
  df ← read r; alloc (frame_rename rename_map df).

(** [df.copy()]: a new object with the same content. *)
Definition copy (r : ref) : M ref :=
  df ← read r; alloc df.

(** [len(df)] *)
Definition len (r : ref) : M nat :=
  df ← read r; mret (index_size df).

(** ** [infer_and_standardize_rfm] *)

Record Diagnostics : Type := {
  mapping : gmap string target;  (* source column -> canonical role *)
  source_columns : gmap target string;
  warnings : list string;
  coercion_ratios : gmap string Q;
}.

Definition _summarise_invalid {ext : Externals} (message : string)
    (count total : nat) : option string :=
  if (count <=? 0)%nat then None
  else
    let percentage :=
      match total with
      | O => 0
      | _ => ratio count total * 100
      end in
    Some (message +:+ ": " +:+ pretty count +:+ " rows ("
          +:+ format_1f percentage +:+ "%).").

(** [if msg: diagnostics["warnings"].append(msg); log.warning(msg)] *)
Definition report (msg : option string) (warns : list string)
  : M (list string) :=
  match msg with
  | Some text => _ ← log_warning text; mret (warns ++ [text])
  | None => mret warns
  end.

(** [{source: target for target, source in mapping.items()}] *)
Definition invert_mapping (m : gmap target string) : gmap string target :=
  list_to_map ((fun p => (p.2, p.1)) <$> map_to_list m).

Definition count_true (mask : list bool) : nat :=
  length (List.filter id mask).

Definition is_none {A : Type} (o : option A) : bool :=
  match o with None => true | Some _ => false end.

Definition time_cell (o : option Z) : cell :=
  match o with Some t => Time t | None => NaN end.

(** A cell of [numeric.fillna(0)]. *)
Definition fillna0_cell (o : option Q) : cell :=
  match o with Some q => Number q | None => Number 0 end.

Section Standardizer.

Context {ext : Externals}.

Definition infer_and_standardize_rfm (df : ref) (min_score : Q)
  : M (ref * Diagnostics) :=
  table ← read df;
  '(m, scores) ← lift (infer_schema table min_score);
  let rename_map := invert_mapping m in
  renamed ← rename df rename_map;
  standardized ← copy renamed;
  let warns : list string := [] in
  (* Customer IDs *)
  ids ← getitem_series standardized "CustomerID";
  _ ← setitem standardized "CustomerID"
        (map (str_accessor strip) (map astype_str_cell ids));
  ids ← getitem_series standardized "CustomerID";
  let empty_mask := map (fun c => cell_eqb c (Text "")) ids in
  let empty_ids := count_true empty_mask in
  _ ← loc_assign standardized empty_mask "CustomerID" NaN;
  total ← len standardized;
  warns ← report (_summarise_invalid "Blank CustomerID values detected"
                    empty_ids total) warns;
  (* Transaction dates *)
  dates ← getitem_series standardized "TransactionDate";
  let '(parsed_dates, valid_date_ratio) := _attempt_datetime dates in
  let invalid_dates := count_true (map is_none parsed_dates) in
  _ ← setitem standardized "TransactionDate" (map time_cell parsed_dates);
  total ← len standardized;
  warns ← report (_summarise_invalid "Rows with unparseable TransactionDate"
                    invalid_dates total) warns;
  (* Transaction amounts *)
  amounts ← getitem_series standardized "TransactionAmount";
  let '(numeric_amounts, valid_amount_ratio) := _attempt_numeric amounts in
  let invalid_amounts := count_true (map is_none numeric_amounts) in
  _ ← setitem standardized "TransactionAmount"
        (map fillna0_cell numeric_amounts);
  total ← len standardized;
  warns ← report (_summarise_invalid "Rows with non-numeric TransactionAmount"
                    invalid_amounts total) warns;
  mret (standardized,
        {| mapping := rename_map;
           source_columns := m;
           warnings := warns;
           coercion_ratios :=
             <["TransactionAmount" := round3 valid_amount_ratio]>
               (<["TransactionDate" := round3 valid_date_ratio]> ∅) |}).

End Standardizer.

(** ** A sample instance of the library functions, and sample tables

    Used to run the model on concrete tables.  Each function agrees with
    the library on the inputs stated in its comment; the examples below
    stay within them wherever their outcome depends on it. *)

(** [fuzz.partial_ratio]: 0 when a string is empty, 100 when the shorter
    string occurs in the longer one.  Elsewhere the library returns some
    percentage below 100 for which this instance puts 0. *)
Definition sample_partial_ratio (a b : string) : Z :=
  match a, b with
  | "", _ | _, "" => 0%Z
  | _, _ =>
      let '(shorter, longer) :=
        if (String.length a <=? String.length b)%nat then (a, b) else (b, a) in
      if contains shorter longer then 100%Z else 0%Z
  end.

Definition digit_value (a : ascii) : option Z :=
  let n := code a in
  if ((48 <=? n) && (n <=? 57))%nat then Some (Z.of_nat (n - 48)) else None.

(** The value of a non-empty string of decimal digits, after [acc]. *)
Fixpoint digits_value (s : string) (acc : Z) : option Z :=
  match s with
  | "" => Some acc
  | String a r =>
      match digit_value a with
      | Some d => digits_value r (acc * 10 + d)%Z
      | None => None
      end
  end.

Fixpoint split_at_dot (s : string) : string * option string :=
  match s with
  | "" => ("", None)
  | String a r =>
      if Ascii.eqb a "."%char then ("", Some r)
      else let '(i, f) := split_at_dot r in (String a i, f)
  end.

Definition unsigned_decimal (s : string) : option Q :=
  let '(int_part, frac_part) := split_at_dot s in
  match int_part with
  | "" => None
  | _ =>
      match digits_value int_part 0, frac_part with
      | Some i, None => Some (inject_Z i)
      | Some i, Some f =>
          match digits_value f 0 with
          | Some fv => Some (inject_Z i
                             + inject_Z fv / inject_Z (10 ^ Z.of_nat (String.length f)))
          | None => None
          end
      | None, _ => None
      end
  end.

(** [pd.to_numeric]: plain decimal literals, optionally signed and
    surrounded by blanks; every other string is taken as unparseable. *)
Definition sample_to_numeric (s : string) : option Q :=
  match strip s with
  | String "-" r => Qopp <$> unsigned_decimal r
  | String "+" r => unsigned_decimal r
  | r => unsigned_decimal r
  end.

(** An ISO date [yyyy-mm-dd], numbered [yyyymmdd]. *)
Definition iso_date (s : string) : option Z :=
  match s with
  | String y1 (String y2 (String y3 (String y4 (String "-"
      (String m1 (String m2 (String "-" (String d1 (String d2 ""))))))))) =>
      match digits_value (String y1 (String y2 (String y3 (String y4 ""))))  0,
            digits_value (String m1 (String m2 "")) 0,
            digits_value (String d1 (String d2 "")) 0 with
      | Some y, Some m, Some d =>
          if ((1 <=? m) && (m <=? 12) && (1 <=? d) && (d <=? 31))%Z
          then Some (y * 10000 + m * 100 + d)%Z else None
      | _, _, _ => None
      end
  | _ => None
  end.

(** [pd.to_datetime]: ISO dates among strings, numbers as offsets from the
    epoch, timestamps unchanged; every other string is unparseable.  The
    development never inspects the timestamp values themselves. *)
Definition sample_to_datetime (_ : Series) (c : cell) : option Z :=
  match c with
  | NaN => None
  | Text s => iso_date s
  | Number q => Some (Qfloor q)
  | Time t => Some t
  end.

(** [str] of a number: exact on integers, the only numbers the sample
    tables hold. *)
Definition sample_str_number (q : Q) : string :=
  pretty (Qfloor q).

Definition sample_str_time (t : Z) : string := pretty t.

(** The nearest integer, the even one of two. *)
Definition round_half_even (x : Q) : Z :=
  let n := Qfloor x in
  let frac := x - inject_Z n in
  if Qltb frac (1#2) then n
  else if Qltb (1#2) frac then (n + 1)%Z
  else if Z.even n then n else (n + 1)%Z.

(** [round(x, 3)] and [f"{x:.1f}"] where the float is the number itself,
    as it is for the halves, quarters and whole numbers of the sample
    tables. *)
Definition sample_round3 (x : Q) : Q :=
  inject_Z (round_half_even (x * 1000)) / 1000.

Definition sample_format_1f (x : Q) : string :=
  tenths_text (round_half_even (x * 10)).

Lemma round_half_even_nearest (x : Q) :
  Qabs (x - inject_Z (round_half_even x)) <= 1 # 2.
Proof.
  pose proof (Qfloor_le x) as Hlo. pose proof (Qlt_floor x) as Hhi.
  rewrite inject_Z_plus in Hhi. change (inject_Z 1) with 1 in Hhi.
  apply Qabs_Qle_condition. unfold round_half_even.
  destruct (Qltb (x - inject_Z (Qfloor x)) (1 # 2)) eqn:E1.
  { unfold Qltb in E1. apply negb_true_iff in E1.
    assert (x - inject_Z (Qfloor x) < 1 # 2) as H.
    { apply Qnot_le_lt. intros H. apply Qle_bool_iff in H. congruence. }
    split; lra. }
  assert (1 # 2 <= x - inject_Z (Qfloor x)) as H1.
  { unfold Qltb in E1. apply negb_false_iff in E1. by apply Qle_bool_iff. }
  destruct (Qltb (1 # 2) (x - inject_Z (Qfloor x))) eqn:E2.
  { rewrite inject_Z_plus. change (inject_Z 1) with 1. split; lra. }
  assert (x - inject_Z (Qfloor x) <= 1 # 2) as H2.
  { unfold Qltb in E2. apply negb_false_iff in E2. by apply Qle_bool_iff. }
  destruct (Z.even (Qfloor x)).
  - split; lra.
  - rewrite inject_Z_plus. change (inject_Z 1) with 1. split; lra.
Qed.

Lemma sample_round3_nearest (x : Q) :
  exists n : Z,
    sample_round3 x == inject_Z n / 1000
    /\ Qabs (x - sample_round3 x) <= 1 # 2000.
Proof.
  exists (round_half_even (x * 1000)). split; [reflexivity|].
  unfold sample_round3.
  pose proof (round_half_even_nearest (x * 1000)) as H.
  apply Qabs_Qle_condition in H. apply Qabs_Qle_condition.
  set (n := inject_Z (round_half_even (x * 1000))) in *.
  assert (n / 1000 == n * (1 # 1000)) as -> by (field; done).
  split; lra.
Qed.

Lemma sample_format_1f_nearest (x : Q) :
  0 <= x ->
  exists tenths : Z,
    Qabs (x * 10 - inject_Z tenths) <= 1 # 2
    /\ sample_format_1f x = tenths_text tenths.
Proof.
  intros _. exists (round_half_even (x * 10)).
  split; [apply round_half_even_nearest|reflexivity].
Qed.

(** The sample instance; missing values are cast as pandas 2 does. *)
Definition sample_externals : Externals :=
  {| partial_ratio := sample_partial_ratio;
     to_numeric := sample_to_numeric;
     to_datetime := sample_to_datetime;
     str_number := sample_str_number;
     str_time := sample_str_time;
     astype_keeps_missing := false;
     round3 := sample_round3;
     round3_nearest := sample_round3_nearest;
     format_1f := sample_format_1f;
     format_1f_nearest := sample_format_1f_nearest |}.

(** The same functions with the cast of pandas 3. *)
Definition sample_externals_pandas3 : Externals :=
  {| partial_ratio := sample_partial_ratio;
     to_numeric := sample_to_numeric;
     to_datetime := sample_to_datetime;
     str_number := sample_str_number;
     str_time := sample_str_time;
     astype_keeps_missing := true;
     round3 := sample_round3;
     round3_nearest := sample_round3_nearest;
     format_1f := sample_format_1f;
     format_1f_nearest := sample_format_1f_nearest |}.

(** A well-formed export: one column per role. *)
Definition orders : DataFrame :=
  {| index_size := 4;
     columns :=
       [("customer_id", [Text "C1"; NaN; Text " "; Text "C2"]);
        ("order_date",
         [Text "2023-01-05"; Text "2023-01-06"; Text "2023-02-01"; Text "soon"]);
        ("amount", [Text "$1,250.50"; Text "20"; Text "(5)"; Text "abc"])] |}.

(** The export of the repository's first integration test: varied headers
    and two extra columns. *)
Definition varied_headers : DataFrame :=
  {| index_size := 4;
     columns :=
       [("client_identifier",
         [Text "CUST-001"; Text "CUST-001"; Text "CUST-002"; Text "CUST-002"]);
        ("sale_date",
         [Text "2023-01-11"; Text "2023-01-12"; Text "2023-01-21"; Text "2023-01-22"]);
        ("gross_amount", [Text "$ 125"; Text "$ 126"; Text "$ 140"; Text "$ 141"]);
        ("engagement_score", [Number 71; Number 71; Number 72; Number 72]);
        ("channel", [Text "email"; Text "social"; Text "email"; Text "social"])] |}.

(** The table of the repository's failure test: no amount-like column. *)
Definition missing_amount : DataFrame :=
  {| index_size := 4;
     columns :=
       [("customer_code", [Text "CC-01"; Text "CC-02"; Text "CC-03"; Text "CC-04"]);
        ("transaction_dt",
         [Text "2023-03-05"; Text "2023-03-09"; Text "2023-03-13"; Text "2023-03-17"]);
        ("units_sold", [Number 3; Number 6; Number 9; Number 12])] |}.

(** Four of five values are numbers, none is a date. *)
Definition mostly_numeric : Series :=
  [Text "$1,000"; Text "$2,000"; Text "$3,000"; Text "$4,000"; Text "unknown"].

(** Nine of ten values are numbers, two are distinct. *)
Definition repeated_code : Series :=
  [Text "5"; Text "5"; Text "5"; Text "5"; Text "5";
   Text "5"; Text "5"; Text "5"; Text "5"; Text "x"].

Definition prices : Series := [Text "9.99"; Text "19.99"; Text "4.50"].

(** * The application ([app.py]) and the regression script

    The request handlers are modelled where they compute: the file-type
    checks, the per-customer metrics behind the lifetime value, the choice
    of the number of clusters and the naming of the segments.  Flask, the
    file system and the clustering itself stay outside; the inertia of a
    fitted [KMeans] is a parameter. *)

Definition ALLOWED_EXTENSIONS : list string := ["csv"; "xlsx"].

(** What follows the last ["."] of [s], if [s] has one. *)
Fixpoint after_last_dot (s : string) : option string :=
  match s with
  | "" => None
  | String a r =>
      match after_last_dot r with
      | Some ext => Some ext
      | None => if Ascii.eqb a "."%char then Some r else None
      end
  end.

(** [s.rsplit(".", 1)[-1]] *)
Definition rsplit_last (s : string) : string :=
  match after_last_dot s with
  | Some ext => ext
  | None => s
  end.

Definition allowed_file (filename : string) : bool :=
  contains "." filename
  && bool_decide (lower (rsplit_last filename) ∈ ALLOWED_EXTENSIONS).

(** The reader [process_rfm] picks for [file_path]; [None] is its answer
    400, "Unsupported file type". *)
Inductive reader : Type := read_csv | read_excel.

Definition reader_for (file_path : string) : option reader :=
  let file_extension := lower (rsplit_last file_path) in
  if String.eqb file_extension "csv" then Some read_csv
  else if String.eqb file_extension "xlsx" then Some read_excel
  else None.

(** ** Lifetime value *)

(** Float arithmetic, in its standard model: a product and a quotient are
    the exact ones up to a relative error of at most [unit_roundoff],
    which is [2^-53] for the doubles of numpy.  Overflow and underflow
    are left out. *)
Class FloatArith : Type := {
  unit_roundoff : Q;
  unit_roundoff_small : 0 <= unit_roundoff <= 1 # 4;
  fmul : Q -> Q -> Q;
  fdiv : Q -> Q -> Q;
  fmul_error :
    forall a b, exists delta,
      Qabs delta <= unit_roundoff /\ fmul a b == a * b * (1 + delta);
  fdiv_error :
    forall a b, ~ b == 0 -> exists delta,
      Qabs delta <= unit_roundoff /\ fdiv a b == a / b * (1 + delta);
}.

(** [np.maximum(a, b)] on two numbers. *)
Definition np_maximum (a b : Q) : Q := if Qle_bool b a then a else b.

(** The metrics of one customer, from the whole days between the first
    purchase and the current date, the number of transactions and their
    sum. *)
Record Metrics : Type := {
  CustomerTenureDays : Z;
  CustomerTenureYears : Q;
  AverageOrderValue : Q;
  PurchaseFrequencyPerYear : Q;
  LTV : Q;
}.

Section Lifetime.

Context {fa : FloatArith}.

Definition calculate_ltv
    (average_order_value purchase_frequency_per_year customer_tenure_years : Q)
  : Q :=
  fmul (fmul average_order_value purchase_frequency_per_year)
       customer_tenure_years.

(** As [process_rfm] computes them. *)
Definition customer_metrics (days : Z) (Frequency : Z) (Monetary : Q) : Metrics :=
  let tenure_days := Z.max days 1 in  (* [.clip(lower=1)] *)
  let tenure_years := fdiv (inject_Z tenure_days) (36525 # 100) in
  let average_order_value :=
    if (0 <? Frequency)%Z then fdiv Monetary (inject_Z Frequency) else 0 in
  let purchase_frequency_per_year :=
    fdiv (inject_Z Frequency)
         (np_maximum tenure_years (fdiv 1 (36525 # 100))) in
  {| CustomerTenureDays := tenure_days;
     CustomerTenureYears := tenure_years;
     AverageOrderValue := average_order_value;
     PurchaseFrequencyPerYear := purchase_frequency_per_year;
     LTV := calculate_ltv average_order_value purchase_frequency_per_year
              tenure_years |}.

(** As [compute_metrics] of [scripts/ltv_regression.py] computes them: no
    guard on either division. *)
Definition compute_metrics (days : Z) (Frequency : Z) (Monetary : Q) : Metrics :=
  let tenure_days := Z.max days 1 in
  let tenure_years := fdiv (inject_Z tenure_days) (36525 # 100) in
  let average_order_value := fdiv Monetary (inject_Z Frequency) in
  let purchase_frequency_per_year := fdiv (inject_Z Frequency) tenure_years in
  {| CustomerTenureDays := tenure_days;
     CustomerTenureYears := tenure_years;
     AverageOrderValue := average_order_value;
     PurchaseFrequencyPerYear := purchase_frequency_per_year;
     LTV := calculate_ltv average_order_value purchase_frequency_per_year
              tenure_years |}.

End Lifetime.

(** Arithmetic without rounding errors, the instance the metrics are run
    with below. *)
Lemma exact_roundoff_small : 0 <= 0 <= 1 # 4.
Proof. split; discriminate. Qed.

Lemma exact_mul_error (a b : Q) :
  exists delta, Qabs delta <= 0 /\ a * b == a * b * (1 + delta).
Proof. exists 0. split; [discriminate|ring]. Qed.

Lemma exact_div_error (a b : Q) :
  ~ b == 0 -> exists delta, Qabs delta <= 0 /\ a / b == a / b * (1 + delta).
Proof. intros _. exists 0. split; [discriminate|ring]. Qed.

Definition exact_arith : FloatArith :=
  {| unit_roundoff := 0;
     unit_roundoff_small := exact_roundoff_small;
     fmul := Qmult;
     fdiv := Qdiv;
     fmul_error := exact_mul_error;
     fdiv_error := exact_div_error |}.

(** ** The number of clusters *)

(** [np.diff] *)
Fixpoint diff (l : list Q) : list Q :=
  match l with
  | a :: (b :: _) as r => (b - a) :: diff r
  | _ => []
  end.

(** The index of the first largest value of [l], after a largest value
    [best] at [best_i]; [i] is the index of the head of [l]. *)
Fixpoint argmax_from (best : Q) (best_i i : nat) (l : list Q) : nat :=
  match l with
  | [] => best_i
  | x :: r =>
      if Qltb best x then argmax_from x i (S i) r
      else argmax_from best best_i (S i) r
  end.

(** [np.argmax]; [None] is its [ValueError] on an empty sequence. *)
Definition argmax (l : list Q) : option nat :=
  match l with
  | [] => None
  | x :: r => Some (argmax_from x 0 1 r)
  end.

(** [cluster_size] of the request: ["auto"]; or a value of which
    [int(...)] makes [n]; or one on which [int(...)] raises, such as an
    absent field or a text that is no number. *)
Inductive cluster_size : Type := Auto | Requested (n : Z) | Unreadable.

Inductive outcome : Type :=
  | clusters (optimal_clusters : Z)
  | not_enough_customers  (* answer 400 *)
  | failed.  (* an exception, answered with 500 *)

Section Clusters.

(** [KMeans(n_clusters=k, random_state=42).fit(...).inertia_] *)
Variable inertia : nat -> Q.

Definition choose_clusters (unique_customers : nat) (selected_clusters : cluster_size)
  : outcome :=
  let max_clusters := Nat.min 10 unique_customers in
  if (unique_customers <? 2)%nat then not_enough_customers
  else
    match selected_clusters with
    | Auto =>
        let K_range := seq 2 (max_clusters + 1 - 2) in
        let distortions := map inertia K_range in
        match argmax (diff distortions) with
        | Some i => clusters (Z.min (Z.of_nat i + 2) (Z.of_nat unique_customers))
        | None => failed
        end
    | Requested n =>
        let optimal_clusters := if (n <? 2)%Z then 2%Z else n in
        clusters (Z.min optimal_clusters (Z.of_nat unique_customers))
    | Unreadable => failed
    end.

End Clusters.

(** ** Segments *)

(** The name of the cluster at rank [i] by average recency. *)
Definition cluster_label (i : nat) : string :=
  match i with
  | 0 => "Loyal Customers"
  | 1 => "At Risk Customers"
  | 2 => "Occasional Buyers"
  | 3 => "Lost Customers"
  | 4 => "High-Value Customers"
  | 5 => "Low-Value Customers"
  | 6 => "New & Engaged Customers"
  | 7 => "Big Spenders"
  | 8 => "Mid-Value Customers"
  | _ => "Other"
  end%nat.

(** [assign_churn_label(row)], given the two medians of the cluster
    summary. *)
Definition assign_churn_label (cluster_meaning : string) (Recency Frequency : Q)
    (median_recency median_frequency : Q) : string :=
  if bool_decide (cluster_meaning ∈ ["At Risk Customers"; "Lost Customers"])
  then "Yes"
  else if Qltb median_recency Recency && Qltb Frequency median_frequency
  then "Yes"
  else if bool_decide (cluster_meaning ∈ ["Loyal Customers";
                                          "New & Engaged Customers";
                                          "Big Spenders"])
  then "No"
  else "Maybe".

(** * Specification vocabulary

    Predicates and expressions the statements below are phrased with. *)

(** Larger keys first. *)
Definition descending {A : Type} (key : A -> Q) : list A -> Prop :=
  StronglySorted (fun x y => key y <= key x).

(** A candidate the scan passes over. *)
Definition rejected (used_columns : gset string) (min_score : Q)
    (x : ColumnScore) : Prop :=
  column x ∈ used_columns \/ score x < min_score.

(** The columns taken by the roles in front of position [i] of [order]. *)
Definition taken_before (order : list target) (m : gmap target string)
    (i : nat) (c : string) : Prop :=
  exists j t', (j < i)%nat /\ order !! j = Some t' /\ m !! t' = Some c.

(** What the mapping holds for a role processed at position [i]. *)
Definition greedy_choice (scores : gmap target (list ColumnScore))
    (min_score : Q) (order : list target) (m : gmap target string)
    (i : nat) (t : target) : Prop :=
  match m !! t with
  | Some c =>
      exists cand, cand ∈ scores !!! t /\ column cand = c
        /\ min_score <= score cand
        /\ ~ taken_before order m i c
        /\ forall c', c' ∈ scores !!! t -> ~ taken_before order m i (column c') ->
                      score c' <= score cand
  | None =>
      forall c', c' ∈ scores !!! t ->
                 taken_before order m i (column c') \/ score c' < min_score
  end.

(** [needle] occurs in [hay]. *)
Definition occurs_in (needle hay : string) : Prop :=
  exists pre post, hay = pre +:+ needle +:+ post.

(** One of the six negative keywords occurs in the cleaned name. *)
Definition has_negative_keyword (cleaned_name : string) : Prop :=
  exists keyword,
    keyword ∈ ["quantity"; "qty"; "count"; "units"; "unit"; "volume"]
    /\ occurs_in keyword cleaned_name.

(** The store still holds the objects [old] at their places. *)
Definition extends (old : list DataFrame) (st : Store) : Prop :=
  old `prefix_of` frames st.

(** [m] keeps the objects [old], and returns values satisfying [Q]. *)
Definition keeps {A : Type} (old : list DataFrame) (m : M A) (Q : A -> Prop)
  : Prop :=
  forall st, extends old st ->
    extends old (m st).2 /\ forall a, (m st).1 = Ok a -> Q a.

(** [r] is [x] rounded to three decimals: a multiple of 0.001 that is
    nearest to [x]. *)
Definition rounded3 (x r : Q) : Prop :=
  exists n : Z, r == inject_Z n / 1000 /\ Qabs (x - r) <= 1 # 2000.

(** [text] shows the non-negative [x] with one decimal: the digits of a
    number of tenths nearest to [x], the last one after the point. *)
Definition one_decimal (x : Q) (text : string) : Prop :=
  exists tenths : Z,
    Qabs (x * 10 - inject_Z tenths) <= 1 # 2
    /\ text = pretty (tenths / 10)%Z +:+ "." +:+ pretty (tenths mod 10)%Z.

(** [msg] is the warning for [count] invalid rows out of [total]: none
    without such a row, and otherwise the label, the count and the share
    of the rows in percent with one decimal, 0 for an empty index. *)
Definition invalid_rows_warning (label : string) (count total : nat)
    (msg : option string) : Prop :=
  match count with
  | O => msg = None
  | _ =>
      exists percentage,
        one_decimal (match total with
                     | O => 0
                     | _ => inject_Z (Z.of_nat count) / inject_Z (Z.of_nat total)
                            * 100
                     end) percentage
        /\ msg = Some (label +:+ ": " +:+ pretty count +:+ " rows ("
                       +:+ percentage +:+ "%).")
  end.

(** What the cleaning of an amount makes of one character: commas, dollar
    signs and closing parentheses go, an opening parenthesis becomes a
    minus sign. *)
Definition cleaned_char (a : ascii) : string :=
  if Ascii.eqb a ","%char || Ascii.eqb a "$"%char || Ascii.eqb a ")"%char
  then ""
  else if Ascii.eqb a "("%char then "-"
  else String a "".

(** A text with every character cleaned. *)
Fixpoint stripped_amount (s : string) : string :=
  match s with
  | "" => ""
  | String a r => cleaned_char a +:+ stripped_amount r
  end.

Section Vocabulary.

Context {ext : Externals}.

(** The candidate of [column_name] for the role [t]. *)
Definition scored (df : DataFrame) (t : target) (column_name : string)
    (x : ColumnScore) : Prop :=
  call_scorer t column_name (getitem df column_name) = Ok x.

(** What the name of a column adds to its score for the role [t]: the
    fuzzy ratio weighted by 0.3 and capped at 0.3, plus the regex bonus. *)
Definition name_part (column_name : string) (t : target) : Q :=
  Qmin2 (3 # 10) (_name_similarity_score column_name t * (3 # 10))
  + _regex_bonus column_name t.

(** What the amount scorer has accumulated before its two penalties: the
    name part, 0.6 or 0.4 for the share of numeric values, 0.1 for mostly
    positive ones. *)
Definition amount_gain (column_name : string) (series : Series) : Q :=
  let '(numeric, valid) := _attempt_numeric (dropna series) in
  name_part column_name TransactionAmount
  + (if Qle_bool (7 # 10) valid then 6 # 10
     else if Qle_bool (5 # 10) valid then 4 # 10 else 0)
  + (if Qltb 0 valid && Qle_bool (7 # 10) (positive_ratio numeric)
     then 1 # 10 else 0).

(** The three columns the standardizer writes, from the columns it reads. *)
Definition casted_ids (ids : Series) : Series :=
  map (str_accessor strip) (map astype_str_cell ids).

Definition blank_mask (ids : Series) : list bool :=
  map (fun c => cell_eqb c (Text "")) (casted_ids ids).

Definition standardized_ids (ids : Series) : Series :=
  mask_assign (blank_mask ids) NaN (casted_ids ids).

Definition parsed_dates (dates : Series) : list (option Z) :=
  map (to_datetime dates) dates.

Definition parsed_amounts (amounts : Series) : list (option Q) :=
  map to_numeric_cell
    (map (str_accessor clean_numeric) (map astype_str_cell amounts)).

Definition standardized_frame (renamed : DataFrame) (ids dates amounts : Series)
  : DataFrame :=
  frame_setitem "TransactionAmount" (map fillna0_cell (parsed_amounts amounts))
    (frame_setitem "TransactionDate" (map time_cell (parsed_dates dates))
       (frame_loc_assign (blank_mask ids) "CustomerID" NaN
          (frame_setitem "CustomerID" (casted_ids ids) renamed))).

Definition blank_warning (total : nat) (ids : Series) : option string :=
  _summarise_invalid "Blank CustomerID values detected"
    (count_true (blank_mask ids)) total.

Definition date_warning (total : nat) (dates : Series) : option string :=
  _summarise_invalid "Rows with unparseable TransactionDate"
    (count_true (map is_none (parsed_dates dates))) total.

Definition amount_warning (total : nat) (amounts : Series) : option string :=
  _summarise_invalid "Rows with non-numeric TransactionAmount"
    (count_true (map is_none (parsed_amounts amounts))) total.

Definition all_warnings (total : nat) (ids dates amounts : Series)
  : list string :=
  option_list (blank_warning total ids)
  ++ option_list (date_warning total dates)
  ++ option_list (amount_warning total amounts).

End Vocabulary.

(** The label of the column [c] after [df.rename(columns=rename_map)]. *)
Definition renamed_label (rename_map : gmap string target) (c : string) : string :=
  match rename_map !! c with Some t => target_name t | None => c end.

(** A name with its underscores and hyphens turned into spaces, the first
    step of [_normalise_column_name]. *)
Definition spaced (name : string) : string :=
  replace_char "-"%char " " (replace_char "_"%char " " name).

(** The sample tables, run through the model. *)

Definition sample_inference :
  result (gmap target string * gmap target (list ColumnScore)) :=
  @infer_schema sample_externals orders MIN_INFERENCE_SCORE.

Definition sample_mapping : gmap target string :=
  match sample_inference with Ok p => p.1 | Raise _ => ∅ end.

Definition sample_scores : gmap target (list ColumnScore) :=
  match sample_inference with Ok p => p.2 | Raise _ => ∅ end.

Definition failing_scores : gmap target (list ColumnScore) :=
  match @score_columns sample_externals missing_amount (labels missing_amount)
          empty_scores with
  | Ok s => s
  | Raise _ => ∅
  end.

Definition sample_store : Store := {| frames := [orders]; logged := [] |}.

(** The sample table, standardized. *)

Definition sample_run : result (ref * Diagnostics) * Store :=
  @infer_and_standardize_rfm sample_externals 0%nat MIN_INFERENCE_SCORE
    sample_store.

Definition sample_out : ref :=
  match sample_run.1 with Ok p => p.1 | Raise _ => 0%nat end.

Definition sample_diagnostics : Diagnostics :=
  match sample_run.1 with
  | Ok p => p.2
  | Raise _ => {| mapping := ∅; source_columns := ∅; warnings := [];
                  coercion_ratios := ∅ |}
  end.

Definition sample_final : Store := sample_run.2.

(** The failure test's table, and what inference raises on it. *)

Definition failing_store : Store := {| frames := [missing_amount]; logged := [] |}.

Definition sample_failure : exn :=
  match @infer_schema sample_externals missing_amount MIN_INFERENCE_SCORE with
  | Raise e => e
  | Ok _ => PandasError
  end.

Definition sample_failure_message : string :=
  match sample_failure with
  | SchemaInferenceError message _ => message
  | PandasError => ""
  end.

Definition sample_failure_details : Details :=
  match sample_failure with
  | SchemaInferenceError _ details => details
  | PandasError => {| suggestions := ∅ |}
  end.

(** A table that holds no value: a repeated label and an empty column. *)
Definition blank_table : DataFrame :=
  {| index_size := 2;
     columns := [("customer_id", [NaN; NaN]); ("customer_id", [NaN; NaN]);
                 ("amount", [])] |}.

(** An inertia that falls with the number of clusters. *)
Definition sample_inertia (k : nat) : Q := 100 / inject_Z (Z.of_nat k).

(** * Proofs *)

(** ** The model on small inputs *)

Example normalise_example :
  _normalise_column_name "  Gross_Amount--USD " = "gross amount usd".
Proof. reflexivity. Qed.

Example regex_customer_example : _regex_bonus "Customer-ID" CustomerID == 4 # 10.
Proof. reflexivity. Qed.

Example regex_date_anchor_example :
  _regex_bonus "order_date" TransactionDate == 4 # 10
  /\ _regex_bonus "date_of_birth" TransactionDate == 0.
Proof. split; reflexivity. Qed.

Example regex_amount_example :
  _regex_bonus "net_total_amount" TransactionAmount == 4 # 10
  /\ _regex_bonus "unit_price" TransactionAmount == 0.
Proof. split; reflexivity. Qed.

Example clean_numeric_example : clean_numeric "($1,250.50)" = "-1250.50".
Proof. reflexivity. Qed.

Example summarise_example :
  @_summarise_invalid sample_externals "Blank CustomerID values detected" 1 4
  = Some "Blank CustomerID values detected: 1 rows (25.0%)."
  /\ @_summarise_invalid sample_externals
       "Blank CustomerID values detected" 0 4 = None.
Proof. split; vm_compute; reflexivity. Qed.

(** The mapping the repository's integration test expects. *)
Example varied_headers_example :
  exists scores,
    @infer_schema sample_externals varied_headers MIN_INFERENCE_SCORE
    = Ok ({[CustomerID := "client_identifier";
            TransactionDate := "sale_date";
            TransactionAmount := "gross_amount"]}, scores).
Proof. eexists. vm_compute. reflexivity. Qed.

(** ** Comparisons of floats *)

Lemma Qltb_lt (a b : Q) : Qltb a b = true <-> a < b.
Proof.
  unfold Qltb. rewrite negb_true_iff, <- not_true_iff_false, Qle_bool_iff.
  split; [apply Qnot_le_lt | apply Qlt_not_le].
Qed.

Lemma Qltb_ge (a b : Q) : Qltb a b = false <-> b <= a.
Proof.
  unfold Qltb. rewrite negb_false_iff, Qle_bool_iff. reflexivity.
Qed.

Lemma Qmin2_le_l (a b : Q) : Qmin2 a b <= a.
Proof.
  unfold Qmin2. destruct (Qltb b a) eqn:E.
  - apply Qlt_le_weak, Qltb_lt, E.
  - apply Qle_refl.
Qed.

Lemma Qmax2_ge_l (m x : Q) : m <= Qmax2 m x.
Proof.
  unfold Qmax2. destruct (Qltb m x) eqn:E.
  - apply Qlt_le_weak, Qltb_lt, E.
  - apply Qle_refl.
Qed.

Lemma Qmax2_ge_r (m x : Q) : x <= Qmax2 m x.
Proof.
  unfold Qmax2. destruct (Qltb m x) eqn:E.
  - apply Qle_refl.
  - apply Qltb_ge, E.
Qed.

(** ** [sorted(..., reverse=True)] *)

Section Sorting.

Context {A : Type} (key : A -> Q).

Lemma insert_desc_perm (x : A) (l : list A) : insert_desc key x l ≡ₚ x :: l.
Proof.
  induction l as [|y r IH]; simpl; [done|].
  destruct (Qltb (key x) (key y)); [|done].
  rewrite IH. apply Permutation_swap.
Qed.

Lemma sorted_desc_perm (l : list A) : sorted_desc key l ≡ₚ l.
Proof.
  induction l as [|x r IH]; simpl; [done|].
  unfold sorted_desc in *. simpl. rewrite insert_desc_perm. by f_equiv.
Qed.

Lemma insert_desc_descending (x : A) (l : list A) :
  descending key l -> descending key (insert_desc key x l).
Proof.
  unfold descending. induction l as [|y r IH]; simpl; intros Hl.
  - repeat constructor.
  - apply StronglySorted_cons in Hl as [Hy Hr].
    destruct (Qltb (key x) (key y)) eqn:E.
    + apply StronglySorted_cons. split; [|by apply IH].
      rewrite insert_desc_perm. constructor; [|done].
      apply Qlt_le_weak, Qltb_lt, E.
    + apply Qltb_ge in E.
      apply StronglySorted_cons. split.
      * constructor; [done|].
        eapply Forall_impl; [exact Hy|]. simpl. intros z Hz.
        by apply Qle_trans with (key y).
      * apply StronglySorted_cons. done.
Qed.

Lemma sorted_desc_descending (l : list A) :
  descending key (sorted_desc key l).
Proof.
  induction l as [|x r IH]; [constructor|].
  apply insert_desc_descending, IH.
Qed.

Lemma descending_lookup (l : list A) (i j : nat) (x y : A) :
  descending key l -> (i < j)%nat -> l !! i = Some x -> l !! j = Some y ->
  key y <= key x.
Proof.
  intros Hl. revert i j. induction Hl as [|z r Hr IH Hz]; intros i j Hij Hi Hj.
  - by rewrite lookup_nil in Hi.
  - destruct j as [|j]; [lia|]. simpl in Hj.
    destruct i as [|i]; simpl in Hi.
    + injection Hi as ->. rewrite Forall_forall in Hz.
      apply Hz. eapply list_elem_of_lookup_2, Hj.
    + apply (IH i j); [lia|done..].
Qed.

End Sorting.

(** ** The candidate scan *)

Lemma first_free_Some (l : list ColumnScore) (used : gset string) (min_score : Q)
    (c : ColumnScore) :
  first_free l used min_score = Some c ->
  exists pre post, l = pre ++ c :: post /\ (column c ∉ used)
    /\ min_score <= score c /\ Forall (rejected used min_score) pre.
Proof.
  induction l as [|x r IH]; simpl; [done|].
  destruct (decide (column x ∈ used)) as [Hin|Hout].
  - intros H. destruct (IH H) as (pre & post & -> & ? & ? & ?).
    exists (x :: pre), post. repeat split; try done.
    constructor; [by left|done].
  - destruct (Qle_bool min_score (score x)) eqn:E.
    + intros [= ->]. exists [], r. repeat split; try done.
      by apply Qle_bool_iff.
    + intros H. destruct (IH H) as (pre & post & -> & ? & ? & ?).
      exists (x :: pre), post. repeat split; try done.
      constructor; [|done]. right. apply Qltb_lt. unfold Qltb. by rewrite E.
Qed.

Lemma first_free_None (l : list ColumnScore) (used : gset string) (min_score : Q) :
  first_free l used min_score = None -> Forall (rejected used min_score) l.
Proof.
  induction l as [|x r IH]; simpl; [constructor|].
  destruct (decide (column x ∈ used)) as [Hin|Hout].
  - intros H. constructor; [by left|by apply IH].
  - destruct (Qle_bool min_score (score x)) eqn:E; [done|].
    intros H. constructor; [|by apply IH].
    right. apply Qltb_lt. unfold Qltb. by rewrite E.
Qed.

(** In a list sorted by score, the candidate the scan returns is a best one
    among those whose column is free. *)
Lemma first_free_best (l : list ColumnScore) (used : gset string) (min_score : Q)
    (c : ColumnScore) :
  descending score l -> first_free l used min_score = Some c ->
  forall c', c' ∈ l -> column c' ∉ used -> score c' <= score c.
Proof.
  intros Hl Hc c' Hc' Hfree.
  destruct (first_free_Some _ _ _ _ Hc) as (pre & post & -> & _ & Hmin & Hpre).
  apply elem_of_app in Hc' as [Hin|Hin].
  - rewrite Forall_forall in Hpre. destruct (Hpre _ Hin) as [?|Hlt]; [done|].
    apply Qlt_le_weak. by apply Qlt_le_trans with min_score.
  - apply elem_of_cons in Hin as [->|Hin]; [apply Qle_refl|].
    apply StronglySorted_app_1_r in Hl.
    apply StronglySorted_cons in Hl as [Hall _].
    rewrite Forall_forall in Hall. by apply Hall.
Qed.

(** ** The greedy pass *)

Section Resolver.

Context (scores : gmap target (list ColumnScore)) (min_score : Q).

Abbreviation step := (assign_target scores min_score).

Lemma step_other (st : gmap target string * gset string) (t t' : target) :
  t' ≠ t -> (step st t).1 !! t' = st.1 !! t'.
Proof.
  intros Hne. unfold assign_target.
  destruct (first_free _ _ _); simpl; [|done].
  by rewrite lookup_insert_ne.
Qed.

Lemma fold_other (l : list target) (st : gmap target string * gset string)
    (t : target) :
  t ∉ l -> (fold_left step l st).1 !! t = st.1 !! t.
Proof.
  revert st. induction l as [|x r IH]; intros st Hnot; simpl; [done|].
  apply not_elem_of_cons in Hnot as [Hne Hnot].
  rewrite IH by done. by apply step_other.
Qed.

Lemma fold_spec (order : list target) :
  NoDup order ->
  let st := fold_left step order (∅, ∅) in
  (forall t, t ∉ order -> st.1 !! t = None)
  /\ (forall c, c ∈ st.2 <-> exists t, st.1 !! t = Some c)
  /\ (forall i t, order !! i = Some t -> greedy_choice scores min_score order st.1 i t).
Proof.
  induction order as [|t l IH] using rev_ind; intros Hnd; simpl.
  - split; [done|]. split; [|done].
    intros c. split; [set_solver|]. intros [t Ht]. done.
  - apply NoDup_app in Hnd as (Hl & Hdisj & _).
    assert (Htl : t ∉ l) by (intros Hin; apply (Hdisj t Hin); constructor).
    destruct (IH Hl) as (Hout & Hused & Hpos). clear IH.
    rewrite fold_left_app. simpl.
    set (st := fold_left step l (∅, ∅)) in *.
    assert (Hnone : st.1 !! t = None) by by apply Hout.
    assert (Hsame : forall t', t' ∈ l -> (step st t).1 !! t' = st.1 !! t').
    { intros t' Hin. apply step_other. intros ->. done. }
    assert (Htaken : forall i c, (i <= length l)%nat ->
              taken_before (l ++ [t]) (step st t).1 i c
              <-> taken_before l st.1 i c).
    { intros i c Hi. unfold taken_before. split.
      - intros (j & t' & Hj & Hlk & Hm).
        rewrite lookup_app_l in Hlk by lia.
        exists j, t'. repeat split; try done.
        rewrite <- Hsame; [done|]. by eapply list_elem_of_lookup_2.
      - intros (j & t' & Hj & Hlk & Hm).
        exists j, t'. repeat split; try done.
        + rewrite lookup_app_l; [done|]. by eapply lookup_lt_Some.
        + rewrite Hsame; [done|]. by eapply list_elem_of_lookup_2. }
    assert (Hall : forall c, c ∈ st.2 <-> taken_before l st.1 (length l) c).
    { intros c. rewrite Hused. unfold taken_before. split.
      - intros [t' Ht'].
        destruct (decide (t' ∈ l)) as [Hin|Hnin].
        + apply list_elem_of_lookup in Hin as [j Hj].
          exists j, t'. repeat split; try done. by eapply lookup_lt_Some.
        + rewrite Hout in Ht' by done. done.
      - intros (j & t' & _ & _ & Hm). by exists t'. }
    split; [|split].
    + intros t' Hnot. apply not_elem_of_app in Hnot as [Hnl Hnt].
      rewrite step_other by (intros ->; apply Hnt; constructor). by apply Hout.
    + intros c. unfold assign_target.
      destruct (first_free _ _ _) as [cand|] eqn:Hff; simpl; [|apply Hused].
      rewrite elem_of_union, elem_of_singleton, Hused. split.
      * intros [->|[t' Ht']]; [exists t; by rewrite lookup_insert_eq|].
        exists t'. rewrite lookup_insert_ne; [done|]. intros <-. congruence.
      * intros [t' Ht']. destruct (decide (t = t')) as [<-|Hne].
        -- rewrite lookup_insert_eq in Ht'. left. congruence.
        -- rewrite lookup_insert_ne in Ht' by done. right. by exists t'.
    + intros i t' Hlk.
      destruct (decide (i < length l)%nat) as [Hlt|Hge].
      * rewrite lookup_app_l in Hlk by done.
        specialize (Hpos i t' Hlk). unfold greedy_choice in *.
        rewrite Hsame by (by eapply list_elem_of_lookup_2).
        destruct (st.1 !! t') as [c|].
        -- destruct Hpos as (cand & ? & ? & ? & Hfree & Hbest).
           exists cand. repeat split; try done.
           ++ rewrite Htaken by lia. done.
           ++ intros c' Hc' Hfree'. apply Hbest; [done|].
              rewrite <- Htaken by lia. done.
        -- intros c' Hc'. rewrite Htaken by lia. by apply Hpos.
      * assert (i = length l) as ->.
        { apply lookup_lt_Some in Hlk. rewrite length_app in Hlk. simpl in Hlk. lia. }
        rewrite lookup_app_r in Hlk by lia.
        replace (length l - length l)%nat with 0%nat in Hlk by lia.
        injection Hlk as <-.
        assert (Hself : (step st t).1 !! t
                        = column <$> first_free (sorted_desc score (scores !!! t))
                                                st.2 min_score).
        { unfold assign_target. destruct (first_free _ _ _); simpl; [|done].
          by rewrite lookup_insert_eq. }
        unfold greedy_choice. rewrite Hself.
        pose proof (sorted_desc_perm score (scores !!! t)) as Hperm.
        pose proof (sorted_desc_descending score (scores !!! t)) as Hsorted.
        destruct (first_free _ _ _) as [cand|] eqn:Hff; simpl.
        -- destruct (first_free_Some _ _ _ _ Hff)
             as (pre & post & Heq & Hfree & Hmin & _).
           exists cand. repeat split; try done.
           ++ rewrite <- Hperm, Heq. apply elem_of_app. right. constructor.
           ++ rewrite Htaken, <- Hall by lia. done.
           ++ intros c' Hc'. rewrite Htaken, <- Hall by lia. intros Hfree'.
              eapply first_free_best; [exact Hsorted|exact Hff| |done].
              by rewrite Hperm.
        -- intros c' Hc'. rewrite Htaken, <- Hall by lia.
           apply first_free_None in Hff. rewrite Forall_forall in Hff.
           apply Hff. by rewrite Hperm.
Qed.

End Resolver.

(** ** Scoring every column *)

Lemma best_score_ge (candidates : list ColumnScore) (c : ColumnScore) :
  c ∈ candidates -> score c <= best_score candidates.
Proof.
  destruct candidates as [|x r]; [by intros ?%elem_of_nil|].
  unfold best_score.
  assert (Hmono : forall l m, m <= fold_left (fun m x => Qmax2 m (score x)) l m).
  { induction l as [|y l IH]; intros m; simpl; [apply Qle_refl|].
    eapply Qle_trans; [apply (Qmax2_ge_l m (score y))|apply IH]. }
  assert (Hin : forall l m, c ∈ l ->
            score c <= fold_left (fun m x => Qmax2 m (score x)) l m).
  { induction l as [|y l IH]; intros m; [by intros ?%elem_of_nil|].
    intros [->|Hl]%elem_of_cons; simpl.
    - eapply Qle_trans; [apply (Qmax2_ge_r m (score y))|apply Hmono].
    - by apply IH. }
  intros [->|Hr]%elem_of_cons; [apply Hmono|by apply Hin].
Qed.

Lemma best_score_attained (candidates : list ColumnScore) :
  candidates <> [] ->
  exists c, c ∈ candidates /\ best_score candidates = score c.
Proof.
  destruct candidates as [|x r]; [done|]. intros _. unfold best_score.
  assert (Hfold : forall l (y : ColumnScore),
            exists c, c ∈ y :: l
              /\ fold_left (fun m x => Qmax2 m (score x)) l (score y) = score c).
  { induction l as [|z l IH]; intros y; simpl.
    - exists y. split; [by left|done].
    - unfold Qmax2 at 2. destruct (Qltb (score y) (score z)).
      + destruct (IH z) as (c & Hin & Hc). exists c. split; [by right|done].
      + destruct (IH y) as (c & Hin & Hc). exists c. split; [|done].
        apply elem_of_cons in Hin as [->|Hin]; [by left|by do 2 right]. }
  apply Hfold.
Qed.

Lemma target_order_perm (scores : gmap target (list ColumnScore)) :
  target_order scores ≡ₚ TARGET_COLUMNS.
Proof. apply sorted_desc_perm. Qed.

Lemma TARGET_COLUMNS_NoDup : NoDup TARGET_COLUMNS.
Proof.
  unfold TARGET_COLUMNS.
  repeat (constructor; [rewrite ?elem_of_cons, elem_of_nil; intuition congruence|]).
  constructor.
Qed.

Lemma target_order_NoDup (scores : gmap target (list ColumnScore)) :
  NoDup (target_order scores).
Proof. rewrite target_order_perm. apply TARGET_COLUMNS_NoDup. Qed.

Lemma target_in_order (scores : gmap target (list ColumnScore)) (t : target) :
  t ∈ target_order scores.
Proof.
  rewrite target_order_perm. unfold TARGET_COLUMNS.
  rewrite !elem_of_cons. destruct t; tauto.
Qed.

Section Inference.

Context {ext : Externals}.

Lemma scorer_column (t : target) (column_name : string) (series : Series) :
  column (SCORERS t column_name series) = column_name.
Proof.
  destruct t; simpl.
  - unfold _score_customer_id. by destruct (dropna series).
  - unfold _score_transaction_date. by destruct (dropna series).
  - unfold _score_transaction_amount. destruct (dropna series); [done|].
    destruct (_attempt_numeric _) as [numeric valid].
    by destruct (Qltb 0 valid).
Qed.

Lemma call_scorer_column (t : target) (column_name : string)
    (selection : list Series) (x : ColumnScore) :
  call_scorer t column_name selection = Ok x -> column x = column_name.
Proof.
  unfold call_scorer. destruct selection as [|s [|s' r]]; [done| |].
  - intros [= <-]. apply scorer_column.
  - destruct (frame_dropna_empty _); [|done]. by intros [= <-].
Qed.

Lemma score_one_column_spec (df : DataFrame) (column_name : string)
    (scores scores' : gmap target (list ColumnScore)) :
  score_one_column df column_name TARGET_COLUMNS scores = Ok scores' ->
  forall t, exists x, scored df t column_name x /\ scores' !!! t = scores !!! t ++ [x].
Proof.
  unfold scored. simpl.
  destruct (call_scorer CustomerID _ _) as [x1|] eqn:E1; [|done].
  destruct (call_scorer TransactionDate _ _) as [x2|] eqn:E2; [|done].
  destruct (call_scorer TransactionAmount _ _) as [x3|] eqn:E3; [|done].
  intros [= <-] t. unfold append_score.
  destruct t; eexists; (split; [eassumption|]);
    rewrite ?lookup_total_insert_eq, ?lookup_total_insert_ne by done;
    rewrite ?lookup_total_insert_eq, ?lookup_total_insert_ne by done;
    rewrite ?lookup_total_insert_eq, ?lookup_total_insert_ne by done;
    reflexivity.
Qed.

Lemma score_columns_spec (df : DataFrame) (cols : list string)
    (scores0 scores : gmap target (list ColumnScore)) :
  score_columns df cols scores0 = Ok scores ->
  forall t, exists new,
    scores !!! t = scores0 !!! t ++ new /\ Forall2 (scored df t) cols new.
Proof.
  revert scores0. induction cols as [|c r IH]; intros scores0; cbn [score_columns].
  - intros [= <-] t. exists []. by rewrite app_nil_r.
  - destruct (score_one_column df c TARGET_COLUMNS scores0) as [scores1|] eqn:E1; [|done].
    intros Hrest t.
    destruct (score_one_column_spec _ _ _ _ E1 t) as (x & Hx & Hs1).
    destruct (IH _ Hrest t) as (new & Hnew & Hall).
    exists (x :: new). split; [|by constructor].
    by rewrite Hnew, Hs1, <- app_assoc.
Qed.

Lemma all_pairs_scored (df : DataFrame) (scores : gmap target (list ColumnScore)) :
  score_columns df (labels df) empty_scores = Ok scores ->
  forall t, Forall2 (scored df t) (labels df) (scores !!! t).
Proof.
  intros H t. destruct (score_columns_spec _ _ _ _ H t) as (new & -> & Hall).
  by destruct t.
Qed.

(** What a successful return of [infer_schema] stands for. *)
Lemma infer_schema_Ok (df : DataFrame) (min_score : Q)
    (m : gmap target string) (scores : gmap target (list ColumnScore)) :
  infer_schema df min_score = Ok (m, scores) ->
  score_columns df (labels df) empty_scores = Ok scores
  /\ m = (assign_roles scores min_score).1
  /\ forall t, is_Some (m !! t).
Proof.
  unfold infer_schema.
  destruct (score_columns _ _ _) as [sc|] eqn:E; [|done].
  destruct (List.filter _ TARGET_COLUMNS) as [|t0 r] eqn:Hmiss; [|done].
  intros [= <- <-]. repeat split.
  intros t. destruct (_ !! t) eqn:Hl; [done|].
  assert (Hin : In t (List.filter
            (fun t => bool_decide ((assign_roles sc min_score).1 !! t = None))
            TARGET_COLUMNS)).
  { apply filter_In. split; [destruct t; simpl; tauto|].
    by apply bool_decide_eq_true. }
  rewrite Hmiss in Hin. destruct Hin.
Qed.

End Inference.

(** ** Strings *)

Lemma append_cons (x : ascii) (a b : string) :
  String x a +:+ b = String x (a +:+ b).
Proof. reflexivity. Qed.

Lemma append_assoc (a b c : string) : (a +:+ b) +:+ c = a +:+ (b +:+ c).
Proof. induction a as [|x a IH]; [done|]. by rewrite !append_cons, IH. Qed.

Lemma append_empty_r (a : string) : a +:+ "" = a.
Proof. induction a as [|x a IH]; [done|]. by rewrite append_cons, IH. Qed.

Lemma occurs_in_append (needle a hay b : string) :
  occurs_in needle hay -> occurs_in needle (a +:+ hay +:+ b).
Proof.
  intros (pre & post & ->). exists (a +:+ pre), (post +:+ b).
  by rewrite !append_assoc.
Qed.

Lemma join_occurs (sep x : string) (parts : list string) :
  x ∈ parts -> occurs_in x (join sep parts).
Proof.
  induction parts as [|p r IH]; [by intros ?%elem_of_nil|].
  intros [->|Hin]%elem_of_cons.
  - destruct r as [|q r]; simpl.
    + exists "", "". by rewrite append_empty_r.
    + exists "", (sep +:+ join sep (q :: r)). done.
  - specialize (IH Hin). destruct r as [|q r]; [by apply elem_of_nil in Hin|].
    change (join sep (p :: q :: r)) with (p +:+ sep +:+ join sep (q :: r)).
    destruct IH as (pre & post & ->).
    exists (p +:+ sep +:+ pre), post. by rewrite !append_assoc.
Qed.

(** ** The failure report *)

Lemma suggestions_lookup (f : target -> option Suggestion) (l : list target)
    (acc : gmap target (option Suggestion)) (t : target) :
  fold_left (fun sugg t => <[t := f t]> sugg) l acc !! t
  = if decide (t ∈ l) then Some (f t) else acc !! t.
Proof.
  revert acc. induction l as [|x r IH]; intros acc; simpl.
  - destruct (decide (t ∈ [])) as [H|_]; [by apply elem_of_nil in H|done].
  - rewrite IH. destruct (decide (t ∈ r)) as [Hr|Hr].
    + rewrite decide_True; [done|by right].
    + destruct (decide (t = x)) as [->|Hne].
      * rewrite lookup_insert_eq, decide_True; [done|by left].
      * rewrite lookup_insert_ne by done.
        rewrite decide_False; [done|].
        intros [?|?]%elem_of_cons; done.
Qed.

Lemma sorted_desc_head {A : Type} (key : A -> Q) (l : list A) :
  match sorted_desc key l with
  | [] => l = []
  | top :: _ => top ∈ l /\ forall x, x ∈ l -> key x <= key top
  end.
Proof.
  pose proof (sorted_desc_perm key l) as Hperm.
  pose proof (sorted_desc_descending key l) as Hsorted.
  destruct (sorted_desc key l) as [|top r].
  - by apply Permutation_nil_l in Hperm.
  - split; [rewrite <- Hperm; by left|].
    intros x Hx. rewrite <- Hperm in Hx.
    apply StronglySorted_cons in Hsorted as [Hall _].
    apply elem_of_cons in Hx as [->|Hx]; [apply Qle_refl|].
    rewrite Forall_forall in Hall. by apply Hall.
Qed.

Lemma assign_roles_injective (scores : gmap target (list ColumnScore)) (min_score : Q)
    (t1 t2 : target) (c1 c2 : string) :
  t1 ≠ t2 ->
  (assign_roles scores min_score).1 !! t1 = Some c1 ->
  (assign_roles scores min_score).1 !! t2 = Some c2 ->
  c1 ≠ c2.
Proof.
  intros Hne H1 H2 <-.
  destruct (fold_spec scores min_score (target_order scores)
              (target_order_NoDup scores)) as (_ & _ & Hpos).
  fold (assign_roles scores min_score) in Hpos.
  destruct (proj1 (list_elem_of_lookup _ _) (target_in_order scores t1)) as [i Hi].
  destruct (proj1 (list_elem_of_lookup _ _) (target_in_order scores t2)) as [j Hj].
  assert (Hij : i ≠ j) by (intros ->; congruence).
  assert (Hcase : (i < j)%nat \/ (j < i)%nat) by lia.
  destruct Hcase as [Hlt|Hlt].
  - specialize (Hpos j t2 Hj). unfold greedy_choice in Hpos. rewrite H2 in Hpos.
    destruct Hpos as (_ & _ & _ & _ & Hfree & _). apply Hfree.
    by exists i, t1.
  - specialize (Hpos i t1 Hi). unfold greedy_choice in Hpos. rewrite H1 in Hpos.
    destruct Hpos as (_ & _ & _ & _ & Hfree & _). apply Hfree.
    by exists j, t2.
Qed.

Section Claims.

Context {ext : Externals}.

(** C1.  When [infer_schema] succeeds with the default threshold, every
    (column, role) pair has been scored and the mapping is the greedy one:
    the three roles are taken in descending order of their best candidate
    score, and each role holds the column of a candidate that scores at
    least 0.55, that no role taken earlier holds, and that scores highest
    among the candidates whose column no earlier role holds. *)
Theorem infer_schema_greedy (df : DataFrame) (m : gmap target string)
    (scores : gmap target (list ColumnScore)) :
  infer_schema df MIN_INFERENCE_SCORE = Ok (m, scores) ->
  (forall t, Forall2 (scored df t) (labels df) (scores !!! t))
  /\ exists order : list target,
       order ≡ₚ TARGET_COLUMNS
       /\ (forall t, exists c,
             c ∈ scores !!! t /\ best_score (scores !!! t) = score c)
       /\ (forall t c, c ∈ scores !!! t -> score c <= best_score (scores !!! t))
       /\ (forall i j t1 t2, (i < j)%nat ->
             order !! i = Some t1 -> order !! j = Some t2 ->
             best_score (scores !!! t2) <= best_score (scores !!! t1))
       /\ forall i t, order !! i = Some t ->
            exists cand,
              cand ∈ scores !!! t /\ m !! t = Some (column cand)
              /\ 55 # 100 <= score cand
              /\ ~ taken_before order m i (column cand)
              /\ forall c', c' ∈ scores !!! t ->
                   ~ taken_before order m i (column c') ->
                   score c' <= score cand.
Proof.
  intros Hok. destruct (infer_schema_Ok _ _ _ _ Hok) as (Hsc & -> & Hall).
  split; [by apply all_pairs_scored|].
  exists (target_order scores). split; [apply target_order_perm|].
  assert (Hchoice : forall i t, target_order scores !! i = Some t ->
            greedy_choice scores MIN_INFERENCE_SCORE (target_order scores)
              (assign_roles scores MIN_INFERENCE_SCORE).1 i t).
  { apply (fold_spec scores MIN_INFERENCE_SCORE (target_order scores)
             (target_order_NoDup scores)). }
  split.
  { intros t. apply best_score_attained. intros Hnil.
    destruct (proj1 (list_elem_of_lookup _ _) (target_in_order scores t))
      as [i Hi].
    specialize (Hchoice i t Hi). unfold greedy_choice in Hchoice.
    destruct (Hall t) as [c Hc]. rewrite Hc in Hchoice.
    destruct Hchoice as (cand & Hin & _). rewrite Hnil in Hin.
    by apply elem_of_nil in Hin. }
  split; [intros t c; apply best_score_ge|].
  split.
  - intros i j t1 t2 Hij Hi Hj.
    exact (descending_lookup (fun t => best_score (scores !!! t)) _ i j t1 t2
             (sorted_desc_descending _ _) Hij Hi Hj).
  - intros i t Hi.
    specialize (Hchoice i t Hi). unfold greedy_choice in Hchoice.
    destruct (Hall t) as [c Hc]. rewrite Hc in Hchoice.
    destruct Hchoice as (cand & Hin & <- & Hmin & Hfree & Hbest).
    exists cand. repeat split; done.
Qed.

(** C3.  The mapping [infer_schema] returns never holds one source column
    under two distinct roles. *)
Theorem infer_schema_injective (df : DataFrame) (min_score : Q)
    (m : gmap target string) (scores : gmap target (list ColumnScore))
    (t1 t2 : target) (c1 c2 : string) :
  infer_schema df min_score = Ok (m, scores) ->
  m !! t1 = Some c1 -> m !! t2 = Some c2 -> t1 ≠ t2 -> c1 ≠ c2.
Proof.
  intros Hok H1 H2 Hne.
  destruct (infer_schema_Ok _ _ _ _ Hok) as (_ & -> & _).
  by eapply assign_roles_injective.
Qed.

(** C2.  When the greedy pass leaves a role unmapped, [infer_schema] raises
    [SchemaInferenceError]; for every unmapped role the message contains
    the role's name and [details.suggestions] has an entry, which is null
    when the table has no column and otherwise carries the column of a
    highest-scoring candidate, its components, and its score rounded to
    three decimals: a multiple of 0.001 nearest to the score. *)
Theorem infer_schema_failure_report (df : DataFrame) (min_score : Q)
    (scores : gmap target (list ColumnScore)) :
  score_columns df (labels df) empty_scores = Ok scores ->
  (exists t, (assign_roles scores min_score).1 !! t = None) ->
  exists message details,
    infer_schema df min_score = Raise (SchemaInferenceError message details)
    /\ forall t, (assign_roles scores min_score).1 !! t = None ->
         occurs_in (target_name t) message
         /\ ((labels df = [] /\ suggestions details !! t = Some None)
             \/ exists top,
                  top ∈ scores !!! t
                  /\ (forall c, c ∈ scores !!! t -> score c <= score top)
                  /\ exists shown,
                       suggestions details !! t
                       = Some (Some {| best_column := column top;
                                       suggested_score := shown;
                                       suggested_components := components top |})
                       /\ rounded3 (score top) shown).
Proof.
  intros Hsc [t0 Ht0]. unfold infer_schema. rewrite Hsc.
  set (m := (assign_roles scores min_score).1) in *.
  set (missing := List.filter (fun t => bool_decide (m !! t = None)) TARGET_COLUMNS).
  assert (Hmiss : forall t, t ∈ missing <-> m !! t = None).
  { intros t. unfold missing. rewrite list_elem_of_In, filter_In, bool_decide_eq_true.
    split; [tauto|]. intros H. split; [|done]. destruct t; simpl; tauto. }
  destruct missing as [|t1 r] eqn:Hm.
  { apply Hmiss in Ht0. by apply elem_of_nil in Ht0. }
  rewrite <- Hm in *. clear Hm t1 r.
  eexists _, _. split; [reflexivity|].
  intros t Ht. apply Hmiss in Ht. split.
  - unfold inference_message. apply (occurs_in_append _ _ _ _).
    apply join_occurs. apply list_elem_of_fmap. by exists t.
  - simpl. rewrite suggestions_lookup, decide_True by done.
    unfold suggestion_for.
    pose proof (sorted_desc_head score (scores !!! t)) as Hhead.
    pose proof (all_pairs_scored _ _ Hsc t) as Hall.
    destruct (sorted_desc score (scores !!! t)) as [|top rest].
    + left. split; [|done]. rewrite Hhead in Hall.
      by apply Forall2_nil_inv_r in Hall.
    + right. exists top. destruct Hhead as [Hin Hbest].
      split; [done|]. split; [done|].
      exists (round3 (score top)). split; [done|apply round3_nearest].
Qed.

End Claims.

(** ** The scorers *)

Lemma Qmin2_proper (a a' b : Q) : a == a' -> Qmin2 a b == Qmin2 a' b.
Proof.
  intros Heq. unfold Qmin2.
  destruct (Qltb b a) eqn:E1, (Qltb b a') eqn:E2; try reflexivity; try done.
  - apply Qltb_lt in E1. apply Qltb_ge in E2. rewrite Heq in E1.
    exfalso. by apply (Qlt_not_le _ _ E1).
  - apply Qltb_lt in E2. apply Qltb_ge in E1. rewrite Heq in E1.
    exfalso. by apply (Qlt_not_le _ _ E2).
Qed.

Lemma Qle_bool_false (a b : Q) : Qle_bool a b = false <-> b < a.
Proof.
  rewrite <- Qltb_lt. unfold Qltb. by rewrite negb_true_iff.
Qed.

Lemma valid_ratio_map {A B : Type} (f : A -> option B) (l : list A) :
  l <> [] ->
  valid_ratio (map f l)
  = ratio (length (List.filter (fun x => bool_decide (is_Some (f x))) l))
          (length l).
Proof.
  intros Hne. unfold valid_ratio.
  assert (Hlen : length (List.filter (fun o => bool_decide (is_Some o)) (map f l))
                 = length (List.filter (fun x => bool_decide (is_Some (f x))) l)).
  { clear Hne. induction l as [|y l IH]; simpl; [done|].
    destruct (bool_decide (is_Some (f y))); simpl; by rewrite IH. }
  rewrite Hlen, length_map. by destruct l.
Qed.

Lemma prefix_spec (a b : string) :
  String.prefix a b = true <-> exists post, b = a +:+ post.
Proof.
  revert b. induction a as [|x a IH]; intros [|y b]; simpl.
  - split; [intros _; exists ""; reflexivity|done].
  - split; [intros _; exists (String y b); reflexivity|done].
  - split; [done|]. by intros [post ?].
  - destruct (ascii_dec x y) as [->|Hne].
    + rewrite IH. split; intros [post Hp]; exists post.
      * by rewrite append_cons, Hp.
      * rewrite append_cons in Hp. congruence.
    + split; [done|]. intros [post Hp]. rewrite append_cons in Hp. congruence.
Qed.

Lemma contains_spec (needle hay : string) :
  contains needle hay = true <-> occurs_in needle hay.
Proof.
  unfold occurs_in. induction hay as [|y hay IH].
  - cbn [contains]. rewrite orb_false_r, prefix_spec. split.
    + intros [post ->]. exists "", post. reflexivity.
    + intros (pre & post & H). destruct pre; [by exists post|done].
  - cbn [contains]. rewrite orb_true_iff, prefix_spec, IH. split.
    + intros [[post ->]|(pre & post & ->)].
      * exists "", post. reflexivity.
      * exists (String y pre), post. reflexivity.
    + intros (pre & post & H). destruct pre as [|z pre].
      * left. by exists post.
      * right. rewrite append_cons in H. injection H as _ ->. by exists pre, post.
Qed.

Section Scorers.

Context {ext : Externals}.

(** On a value that is not missing the cast is [str], whatever the library
    does with missing values. *)
Lemma numeric_cell_value (c : cell) :
  notna c = true ->
  to_numeric_cell (str_accessor clean_numeric (astype_str_cell c))
  = to_numeric (clean_numeric (astype_str c)).
Proof. by destruct c. Qed.

Lemma dropna_notna (series : Series) :
  Forall (fun c => notna c = true) (dropna series).
Proof.
  apply Forall_forall. intros c Hc.
  apply list_elem_of_In, List.filter_In in Hc. by destruct Hc.
Qed.

Lemma attempt_numeric_values (l : Series) :
  Forall (fun c => notna c = true) l ->
  (_attempt_numeric l).1
  = map (fun c => to_numeric (clean_numeric (astype_str c))) l.
Proof.
  intros H. unfold _attempt_numeric. cbn [fst]. rewrite !map_map.
  induction H as [|c l Hc _ IH]; [done|].
  cbn [map]. by rewrite IH, numeric_cell_value.
Qed.

Lemma numeric_ratio_non_null (series : Series) :
  dropna series <> [] ->
  (_attempt_numeric (dropna series)).2
  = ratio (length (List.filter
             (fun c => bool_decide
                         (is_Some (to_numeric (clean_numeric (astype_str c)))))
             (dropna series))) (length (dropna series)).
Proof.
  intros Hne.
  change ((_attempt_numeric (dropna series)).2)
    with (valid_ratio (_attempt_numeric (dropna series)).1).
  rewrite attempt_numeric_values by apply dropna_notna.
  by apply valid_ratio_map.
Qed.

(** C4, amended.  For a column with a non-missing value the date score is
    the name part plus 0.6, 0.35 or 0 according to the share of values that
    parse as dates (at least 70%, at least 40%, less), multiplied by 0.5
    exactly when more than 80% of the values parse as numbers and fewer
    than 40% as dates, and capped at 1. *)
Theorem transaction_date_score (column_name : string) (series : Series) :
  dropna series <> [] ->
  let non_null := dropna series in
  let valid := (_attempt_datetime non_null).2 in
  let numeric_ratio := (_attempt_numeric non_null).2 in
  valid = ratio (length (List.filter
                   (fun c => bool_decide (is_Some (to_datetime non_null c)))
                   non_null)) (length non_null)
  /\ numeric_ratio
     = ratio (length (List.filter
                (fun c => bool_decide
                            (is_Some (to_numeric (clean_numeric (astype_str c)))))
                non_null)) (length non_null)
  /\ exists bonus factor,
       score (_score_transaction_date column_name series)
       == Qmin2 ((name_part column_name TransactionDate + bonus) * factor) 1
       /\ (7 # 10 <= valid -> bonus = 6 # 10)
       /\ (4 # 10 <= valid -> valid < 7 # 10 -> bonus = 35 # 100)
       /\ (valid < 4 # 10 -> bonus = 0)
       /\ (8 # 10 < numeric_ratio /\ valid < 4 # 10 -> factor = 5 # 10)
       /\ (~ (8 # 10 < numeric_ratio /\ valid < 4 # 10) -> factor = 1).
Proof.
  intros Hne. cbv zeta.
  split; [by apply valid_ratio_map|].
  split; [by apply numeric_ratio_non_null|].
  unfold _score_transaction_date.
  destruct (dropna series) as [|c0 r0]; [done|].
  set (non_null := c0 :: r0).
  set (valid := (_attempt_datetime non_null).2).
  set (numeric_ratio := (_attempt_numeric non_null).2).
  cbn [score].
  set (bonus := if Qle_bool (7 # 10) valid then 6 # 10
                else if Qle_bool (4 # 10) valid then 35 # 100 else 0).
  set (factor := if Qltb (8 # 10) numeric_ratio && Qltb valid (4 # 10)
                 then 5 # 10 else 1).
  exists bonus, factor. split; [|repeat split].
  - apply Qmin2_proper. unfold name_part, bonus, factor.
    destruct (Qle_bool (7 # 10) valid), (Qle_bool (4 # 10) valid),
      (Qltb (8 # 10) numeric_ratio && Qltb valid (4 # 10)); ring.
  - intros H. unfold bonus. apply Qle_bool_iff in H. by rewrite H.
  - intros H1 H2. unfold bonus. apply Qle_bool_iff in H1. rewrite H1.
    apply Qle_bool_false in H2. by rewrite H2.
  - intros H. unfold bonus.
    assert (H' : valid < 7 # 10) by (eapply Qlt_trans; [exact H|reflexivity]).
    apply Qle_bool_false in H, H'. by rewrite H, H'.
  - intros [H1 H2]. unfold factor. apply Qltb_lt in H1, H2. by rewrite H1, H2.
  - intros H. unfold factor.
    destruct (Qltb (8 # 10) numeric_ratio) eqn:E1, (Qltb valid (4 # 10)) eqn:E2;
      try done.
    exfalso. apply H. by rewrite <- !Qltb_lt.
Qed.

(** C5, amended.  For a column with a non-missing value the customer score
    is the name part plus 0.5 times the uniqueness ratio (distinct values
    over non-missing values, capped at 1), multiplied by 0.6 exactly when
    more than 90% of the values parse as numbers and the uniqueness ratio
    is below 0.3, and capped at 1. *)
Theorem customer_id_score (column_name : string) (series : Series) :
  dropna series <> [] ->
  let non_null := dropna series in
  let unique_ratio := ratio (nunique non_null) (length non_null) in
  let numeric_ratio := (_attempt_numeric non_null).2 in
  numeric_ratio
  = ratio (length (List.filter
             (fun c => bool_decide
                         (is_Some (to_numeric (clean_numeric (astype_str c)))))
             non_null)) (length non_null)
  /\ exists factor,
       score (_score_customer_id column_name series)
       == Qmin2 ((name_part column_name CustomerID
                  + Qmin2 unique_ratio 1 * (5 # 10)) * factor) 1
       /\ (9 # 10 < numeric_ratio /\ unique_ratio < 3 # 10 -> factor = 6 # 10)
       /\ (~ (9 # 10 < numeric_ratio /\ unique_ratio < 3 # 10) -> factor = 1).
Proof.
  intros Hne. cbv zeta.
  split; [by apply numeric_ratio_non_null|].
  unfold _score_customer_id.
  destruct (dropna series) as [|c0 r0]; [done|].
  set (non_null := c0 :: r0).
  replace (Init.Nat.max (length non_null) 1) with (length non_null)
    by (unfold non_null; simpl; lia).
  set (unique_ratio := ratio (nunique non_null) (length non_null)).
  set (numeric_ratio := (_attempt_numeric non_null).2).
  cbn [score].
  set (factor := if Qltb (9 # 10) numeric_ratio && Qltb unique_ratio (3 # 10)
                 then 6 # 10 else 1).
  exists factor. split; [|split].
  - apply Qmin2_proper. unfold name_part, factor.
    destruct (Qltb (9 # 10) numeric_ratio && Qltb unique_ratio (3 # 10)); ring.
  - intros [H1 H2]. unfold factor. apply Qltb_lt in H1, H2. by rewrite H1, H2.
  - intros H. unfold factor.
    destruct (Qltb (9 # 10) numeric_ratio) eqn:E1,
             (Qltb unique_ratio (3 # 10)) eqn:E2; try done.
    exfalso. apply H. by rewrite <- !Qltb_lt.
Qed.

Lemma negative_keyword_test (cleaned_name : string) :
  existsb (fun keyword => contains keyword cleaned_name) NEGATIVE_AMOUNT_KEYWORDS
  = true <-> has_negative_keyword cleaned_name.
Proof.
  unfold has_negative_keyword. rewrite existsb_exists. split.
  - intros (k & Hin & Hc). exists k. split; [by apply list_elem_of_In|].
    by apply contains_spec.
  - intros (k & Hin & Hc). exists k. split; [by apply list_elem_of_In|].
    by apply contains_spec.
Qed.

(** C6, amended.  For a column with a non-missing value the amount score is
    the name part plus the numeric and positivity bonuses, multiplied by
    0.4 exactly when more than 40% of the values parse as dates and fewer
    than 50% as numbers, multiplied by 0.5 exactly when the normalised name
    contains one of quantity, qty, count, units, unit, volume, and capped
    at 1. *)
Theorem transaction_amount_score (column_name : string) (series : Series) :
  dropna series <> [] ->
  let non_null := dropna series in
  let valid := (_attempt_numeric non_null).2 in
  let datetime_ratio := (_attempt_datetime non_null).2 in
  valid = ratio (length (List.filter
                   (fun c => bool_decide
                               (is_Some (to_numeric (clean_numeric (astype_str c)))))
                   non_null)) (length non_null)
  /\ datetime_ratio
     = ratio (length (List.filter
                (fun c => bool_decide (is_Some (to_datetime non_null c)))
                non_null)) (length non_null)
  /\ exists date_factor keyword_factor,
       score (_score_transaction_amount column_name series)
       == Qmin2 (amount_gain column_name series * date_factor * keyword_factor) 1
       /\ (4 # 10 < datetime_ratio /\ valid < 5 # 10 -> date_factor = 4 # 10)
       /\ (~ (4 # 10 < datetime_ratio /\ valid < 5 # 10) -> date_factor = 1)
       /\ (has_negative_keyword (_normalise_column_name column_name) ->
           keyword_factor = 5 # 10)
       /\ (~ has_negative_keyword (_normalise_column_name column_name) ->
           keyword_factor = 1).
Proof.
  intros Hne. cbv zeta.
  split; [by apply numeric_ratio_non_null|].
  split; [by apply valid_ratio_map|].
  unfold _score_transaction_amount, amount_gain.
  destruct (dropna series) as [|c0 r0]; [done|].
  set (non_null := c0 :: r0).
  destruct (_attempt_numeric non_null) as [numeric valid]. cbn [fst snd].
  set (datetime_ratio := (_attempt_datetime non_null).2).
  set (date_factor := if Qltb (4 # 10) datetime_ratio && Qltb valid (5 # 10)
                      then 4 # 10 else 1).
  set (keyword_factor :=
         if existsb (fun keyword => contains keyword
                                      (_normalise_column_name column_name))
                    NEGATIVE_AMOUNT_KEYWORDS
         then 5 # 10 else 1).
  exists date_factor, keyword_factor. split; [|repeat split].
  - destruct (Qltb 0 valid); cbn [andb score]; apply Qmin2_proper;
      unfold name_part, date_factor, keyword_factor;
      destruct (Qle_bool (7 # 10) valid), (Qle_bool (5 # 10) valid),
        (Qle_bool (7 # 10) (positive_ratio numeric)),
        (Qltb (4 # 10) datetime_ratio && Qltb valid (5 # 10)),
        (existsb _ NEGATIVE_AMOUNT_KEYWORDS); ring.
  - intros [H1 H2]. unfold date_factor. apply Qltb_lt in H1, H2.
    by rewrite H1, H2.
  - intros H. unfold date_factor.
    destruct (Qltb (4 # 10) datetime_ratio) eqn:E1,
             (Qltb valid (5 # 10)) eqn:E2; try done.
    exfalso. apply H. by rewrite <- !Qltb_lt.
  - intros H. unfold keyword_factor. apply negative_keyword_test in H.
    by rewrite H.
  - intros H. unfold keyword_factor.
    destruct (existsb _ NEGATIVE_AMOUNT_KEYWORDS) eqn:E; [|done].
    exfalso. by apply H, negative_keyword_test.
Qed.

(** Rounding to three decimals leaves a multiple of 0.001 as it is. *)
Lemma round3_exact (q : Q) (z : Z) :
  q * 1000 == inject_Z z -> round3 q == q.
Proof.
  intros Hq. destruct (round3_nearest q) as (n & Hn & Hnear).
  rewrite Hn in Hnear |- *. apply Qabs_Qle_condition in Hnear.
  assert (inject_Z n / 1000 == inject_Z n * (1 # 1000)) as Hdiv by (field; done).
  rewrite Hdiv in Hnear |- *.
  assert (z = n) as ->.
  { assert (inject_Z (z - n) < inject_Z 1) as H1.
    { rewrite <- Z.add_opp_r, inject_Z_plus, inject_Z_opp.
      change (inject_Z 1) with 1. lra. }
    assert (inject_Z (-1) < inject_Z (z - n)) as H2.
    { rewrite <- Z.add_opp_r, inject_Z_plus, inject_Z_opp.
      change (inject_Z (-1)) with (-(1)). lra. }
    rewrite <- Zlt_Qlt in H1, H2. lia. }
  lra.
Qed.

Lemma round3_rounded (x : Q) : rounded3 x (round3 x).
Proof. apply round3_nearest. Qed.

Lemma Qmin2_cases (a b : Q) :
  Qmin2 a b <= a /\ Qmin2 a b <= b /\ (Qmin2 a b == a \/ Qmin2 a b == b).
Proof.
  unfold Qmin2. destruct (Qltb b a) eqn:E.
  - apply Qltb_lt in E. repeat split; [lra|lra|by right].
  - apply Qltb_ge in E. repeat split; [lra|lra|by left].
Qed.

Lemma recorded_name_similarity (t : target) (column_name : string)
    (series : Series) :
  dropna series <> [] ->
  components (SCORERS t column_name series) !! "name_similarity"
  = Some (round3 (_name_similarity_score column_name t)).
Proof.
  intros Hne. destruct t; simpl.
  - unfold _score_customer_id. destruct (dropna series); [done|].
    cbn [components]. by simplify_map_eq.
  - unfold _score_transaction_date. destruct (dropna series); [done|].
    cbn [components]. by simplify_map_eq.
  - unfold _score_transaction_amount. destruct (dropna series); [done|].
    destruct (_attempt_numeric _) as [numeric valid].
    destruct (Qltb 0 valid); cbn [components]; by simplify_map_eq.
Qed.

Lemma recorded_regex_bonus (t : target) (column_name : string)
    (series : Series) :
  dropna series <> [] ->
  components (SCORERS t column_name series) !! "regex_bonus"
  = Some (round3 (_regex_bonus column_name t)).
Proof.
  intros Hne. destruct t; simpl.
  - unfold _score_customer_id. destruct (dropna series); [done|].
    cbn [components]. by simplify_map_eq.
  - unfold _score_transaction_date. destruct (dropna series); [done|].
    cbn [components]. by simplify_map_eq.
  - unfold _score_transaction_amount. destruct (dropna series); [done|].
    destruct (_attempt_numeric _) as [numeric valid].
    destruct (Qltb 0 valid); cbn [components]; by simplify_map_eq.
Qed.

(** C7, amended.  For a column with a non-missing value and any role, the
    component map holds, under [name_similarity], the best fuzzy ratio
    itself, rounded to three decimals and not capped.  What the score
    receives from the ratio is the smaller of 0.3 and the ratio times 0.3:
    the score is that amount plus the regex bonus plus what the values
    earn, times the penalty factors, capped at 1.  The regex bonus is 0 or
    0.4, and so is what the map holds under [regex_bonus]. *)
Theorem name_components (t : target) (column_name : string) (series : Series) :
  dropna series <> [] ->
  let recorded := components (SCORERS t column_name series) in
  let name_score := _name_similarity_score column_name t in
  let received := Qmin2 (3 # 10) (name_score * (3 # 10)) in
  let regex_score := _regex_bonus column_name t in
  (exists shown,
     recorded !! "name_similarity" = Some shown /\ rounded3 name_score shown)
  /\ (received <= 3 # 10 /\ received <= name_score * (3 # 10)
      /\ (received == 3 # 10 \/ received == name_score * (3 # 10)))
  /\ (regex_score = 0 \/ regex_score = 4 # 10)
  /\ (exists bonus,
        recorded !! "regex_bonus" = Some bonus /\ bonus == regex_score)
  /\ exists earned factor,
       score (SCORERS t column_name series)
       == Qmin2 ((received + regex_score + earned) * factor) 1
       /\ match t with
          | CustomerID =>
              earned
              = Qmin2 (ratio (nunique (dropna series)) (length (dropna series)))
                      1 * (5 # 10)
              /\ (factor = 1 \/ factor = 6 # 10)
          | TransactionDate =>
              (earned = 0 \/ earned = 35 # 100 \/ earned = 6 # 10)
              /\ (factor = 1 \/ factor = 5 # 10)
          | TransactionAmount =>
              (earned == 0 \/ earned == 1 # 10 \/ earned == 4 # 10
               \/ earned == 5 # 10 \/ earned == 6 # 10 \/ earned == 7 # 10)
              /\ (factor == 1 \/ factor == 4 # 10 \/ factor == 5 # 10
                  \/ factor == 2 # 10)
          end.
Proof.
  intros Hne. cbv zeta.
  split.
  { eexists. split; [by apply recorded_name_similarity|apply round3_rounded]. }
  split; [apply Qmin2_cases|].
  split.
  { unfold _regex_bonus. destruct (existsb _ _); [by right|by left]. }
  split.
  { eexists. split; [by apply recorded_regex_bonus|].
    unfold _regex_bonus. destruct (existsb _ _).
    - by apply (round3_exact _ 400).
    - by apply (round3_exact _ 0). }
  destruct t; unfold SCORERS.
  - unfold _score_customer_id.
    destruct (dropna series) as [|c0 r0]; [done|].
    set (non_null := c0 :: r0).
    replace (Init.Nat.max (length non_null) 1) with (length non_null)
      by (unfold non_null; simpl; lia).
    cbn [score].
    eexists _, (if Qltb (9 # 10) (_attempt_numeric non_null).2
                   && Qltb (ratio (nunique non_null) (length non_null)) (3 # 10)
                then 6 # 10 else 1).
    split; [|split; [reflexivity|]].
    + apply Qmin2_proper.
      destruct (Qltb (9 # 10) (_attempt_numeric non_null).2
                && Qltb (ratio (nunique non_null) (length non_null)) (3 # 10));
        ring.
    + destruct (_ && _); [by right|by left].
  - unfold _score_transaction_date.
    destruct (dropna series) as [|c0 r0]; [done|].
    set (non_null := c0 :: r0).
    set (valid := (_attempt_datetime non_null).2).
    cbn [score].
    exists (if Qle_bool (7 # 10) valid then 6 # 10
            else if Qle_bool (4 # 10) valid then 35 # 100 else 0),
      (if Qltb (8 # 10) (_attempt_numeric non_null).2 && Qltb valid (4 # 10)
       then 5 # 10 else 1).
    split; [|split].
    + apply Qmin2_proper.
      destruct (Qle_bool (7 # 10) valid), (Qle_bool (4 # 10) valid),
        (Qltb (8 # 10) (_attempt_numeric non_null).2 && Qltb valid (4 # 10));
        ring.
    + destruct (Qle_bool (7 # 10) valid), (Qle_bool (4 # 10) valid); tauto.
    + destruct (_ && _); [by right|by left].
  - unfold _score_transaction_amount.
    destruct (dropna series) as [|c0 r0]; [done|].
    set (non_null := c0 :: r0).
    destruct (_attempt_numeric non_null) as [numeric valid].
    set (datetime_ratio := (_attempt_datetime non_null).2).
    exists ((if Qle_bool (7 # 10) valid then 6 # 10
             else if Qle_bool (5 # 10) valid then 4 # 10 else 0)
            + (if Qltb 0 valid && Qle_bool (7 # 10) (positive_ratio numeric)
               then 1 # 10 else 0)),
      ((if Qltb (4 # 10) datetime_ratio && Qltb valid (5 # 10)
        then 4 # 10 else 1)
       * (if existsb (fun keyword => contains keyword
                                       (_normalise_column_name column_name))
                     NEGATIVE_AMOUNT_KEYWORDS
          then 5 # 10 else 1)).
    split; [|split].
    + destruct (Qltb 0 valid); cbn [andb score]; apply Qmin2_proper;
        destruct (Qle_bool (7 # 10) valid), (Qle_bool (5 # 10) valid),
          (Qle_bool (7 # 10) (positive_ratio numeric)),
          (Qltb (4 # 10) datetime_ratio && Qltb valid (5 # 10)),
          (existsb _ NEGATIVE_AMOUNT_KEYWORDS); ring.
    + destruct (Qle_bool (7 # 10) valid), (Qle_bool (5 # 10) valid),
        (Qltb 0 valid && Qle_bool (7 # 10) (positive_ratio numeric));
        first [by left
              |by right; left
              |by right; right; left
              |by right; right; right; left
              |by right; right; right; right; left
              |by right; right; right; right; right].
    + destruct (Qltb (4 # 10) datetime_ratio && Qltb valid (5 # 10)),
        (existsb _ NEGATIVE_AMOUNT_KEYWORDS);
        first [by left
              |by right; left
              |by right; right; left
              |by right; right; right].
Qed.

End Scorers.

(** ** Frames *)

Lemma getitem_cons (label l : string) (s : Series) (cols : list (string * Series))
    (n : nat) :
  getitem {| index_size := n; columns := (l, s) :: cols |} label
  = (if String.eqb l label then [s] else [])
    ++ getitem {| index_size := n; columns := cols |} label.
Proof. unfold getitem. simpl. by destruct (String.eqb l label). Qed.

Lemma filter_label_none (label : string) (cols : list (string * Series)) :
  label ∉ cols.*1 ->
  List.filter (fun c : string * Series => String.eqb c.1 label) cols = [].
Proof.
  induction cols as [|[l s] r IH]; [done|].
  rewrite fmap_cons, not_elem_of_cons. simpl. intros [Hne Hr].
  destruct (String.eqb_spec l label) as [->|_]; [done|]. by apply IH.
Qed.

Lemma getitem_unique (df : DataFrame) (label : string) (s : Series) :
  NoDup (labels df) -> (label, s) ∈ columns df -> getitem df label = [s].
Proof.
  destruct df as [n cols]. unfold labels. simpl.
  induction cols as [|[l s'] r IH]; [by intros _ ?%elem_of_nil|].
  rewrite fmap_cons, NoDup_cons. simpl. intros [Hl Hr] Hin.
  rewrite getitem_cons.
  apply elem_of_cons in Hin as [[= <- <-]|Hin].
  - rewrite String.eqb_refl. simpl. f_equal.
    unfold getitem. simpl. by rewrite filter_label_none.
  - destruct (String.eqb_spec l label) as [->|_].
    + exfalso. apply Hl. apply list_elem_of_fmap. by exists (label, s).
    + simpl. by apply IH.
Qed.

Lemma getitem_rename (rename_map : gmap string target) (df : DataFrame)
    (t : target) (c : string) (s : Series) :
  NoDup (labels (frame_rename rename_map df)) ->
  rename_map !! c = Some t -> (c, s) ∈ columns df ->
  getitem (frame_rename rename_map df) (target_name t) = [s].
Proof.
  intros Hnd Hc Hin. apply getitem_unique; [done|].
  unfold frame_rename. simpl. apply list_elem_of_fmap.
  exists (c, s). split; [|done]. simpl. by rewrite Hc.
Qed.

(** Selecting [label'] after every column labelled [label] went through
    [f]. *)
Lemma getitem_map_label (f : Series -> Series) (label label' : string)
    (cols : list (string * Series)) :
  (List.filter (fun c : string * Series => String.eqb c.1 label')
     (map (fun c => if String.eqb c.1 label then (c.1, f c.2) else c) cols)).*2
  = if String.eqb label label'
    then map f (List.filter (fun c : string * Series => String.eqb c.1 label) cols).*2
    else (List.filter (fun c : string * Series => String.eqb c.1 label') cols).*2.
Proof.
  induction cols as [|[l s] r IH]; simpl.
  - by destruct (String.eqb label label').
  - destruct (String.eqb_spec label label') as [<-|Hne'].
    + destruct (String.eqb_spec l label) as [->|Hne]; simpl.
      * rewrite String.eqb_refl. simpl. f_equal. exact IH.
      * destruct (String.eqb_spec l label) as [?|_]; [done|]. exact IH.
    + destruct (String.eqb_spec l label) as [->|Hne]; simpl.
      * destruct (String.eqb_spec label label') as [?|_]; [done|]. exact IH.
      * destruct (String.eqb l label'); simpl; [f_equal|]; exact IH.
Qed.

Lemma getitem_setitem (label label' : string) (series : Series) (df : DataFrame) :
  getitem (frame_setitem label series df) label'
  = if String.eqb label label'
    then (if bool_decide (label ∈ labels df)
          then map (fun _ => series) (getitem df label) else [series])
    else getitem df label'.
Proof.
  destruct df as [n cols]. unfold frame_setitem, getitem, labels. simpl.
  destruct (bool_decide (label ∈ cols.*1)) eqn:Hin.
  - apply (getitem_map_label (fun _ => series)).
  - apply bool_decide_eq_false in Hin.
    rewrite List.filter_app, fmap_app. simpl.
    destruct (String.eqb_spec label label') as [<-|Hne].
    + by rewrite filter_label_none.
    + by rewrite app_nil_r.
Qed.

Lemma getitem_loc_assign (mask : list bool) (label label' : string) (v : cell)
    (df : DataFrame) :
  getitem (frame_loc_assign mask label v df) label'
  = if String.eqb label label'
    then map (mask_assign mask v) (getitem df label)
    else getitem df label'.
Proof.
  destruct df as [n cols]. unfold frame_loc_assign, getitem. simpl.
  apply (getitem_map_label (mask_assign mask v)).
Qed.

Lemma setitem_keeps_label (label : string) (series old : Series) (df : DataFrame) :
  getitem df label = [old] -> bool_decide (label ∈ labels df) = true.
Proof.
  intros H. apply bool_decide_eq_true.
  destruct df as [n cols]. unfold getitem, labels in *. simpl in *.
  induction cols as [|[l s] r IH]; [done|]. simpl in *.
  destruct (String.eqb_spec l label) as [->|Hne]; [by left|].
  right. by apply IH.
Qed.

Lemma getitem_setitem_same (label : string) (series old : Series)
    (df : DataFrame) :
  getitem df label = [old] -> getitem (frame_setitem label series df) label = [series].
Proof.
  intros H. rewrite getitem_setitem, String.eqb_refl.
  rewrite (setitem_keeps_label _ series old) by done. by rewrite H.
Qed.

Lemma getitem_setitem_other (label label' : string) (series : Series)
    (df : DataFrame) :
  String.eqb label label' = false ->
  getitem (frame_setitem label series df) label' = getitem df label'.
Proof. intros H. by rewrite getitem_setitem, H. Qed.

Lemma getitem_loc_assign_same (mask : list bool) (label : string) (v : cell)
    (old : Series) (df : DataFrame) :
  getitem df label = [old] ->
  getitem (frame_loc_assign mask label v df) label = [mask_assign mask v old].
Proof. intros H. by rewrite getitem_loc_assign, String.eqb_refl, H. Qed.

Lemma getitem_loc_assign_other (mask : list bool) (label label' : string)
    (v : cell) (df : DataFrame) :
  String.eqb label label' = false ->
  getitem (frame_loc_assign mask label v df) label' = getitem df label'.
Proof. intros H. by rewrite getitem_loc_assign, H. Qed.

(** ** Running store computations *)

Lemma bind_Ok {A B : Type} (m : M A) (f : A -> M B) (st st' : Store) (a : A) :
  m st = (Ok a, st') -> (m ≫= f) st = f a st'.
Proof. intros H. unfold mbind, M_bind. by rewrite H. Qed.

Section Runs.

Context (fs : list DataFrame) (a b : DataFrame) (lg : list string).

Abbreviation here := (S (length fs)).
Abbreviation store_with x l := {| frames := fs ++ [a; x]; logged := l |}.

Lemma lookup_here : (fs ++ [a; b]) !! here = Some b.
Proof.
  rewrite lookup_app_r by lia.
  by replace (here - length fs)%nat with 1%nat by lia.
Qed.

Lemma insert_here (c : DataFrame) : <[here := c]> (fs ++ [a; b]) = fs ++ [a; c].
Proof.
  rewrite insert_app_r_alt by lia.
  by replace (here - length fs)%nat with 1%nat by lia.
Qed.

Lemma read_run : read here (store_with b lg) = (Ok b, store_with b lg).
Proof. unfold read. cbn [frames]. by rewrite lookup_here. Qed.

Lemma getitem_series_run (label : string) (s : Series) :
  getitem b label = [s] ->
  getitem_series here label (store_with b lg) = (Ok s, store_with b lg).
Proof.
  intros H. unfold getitem_series.
  rewrite (bind_Ok _ _ _ _ _ read_run). by rewrite H.
Qed.

Lemma setitem_run (label : string) (s : Series) :
  setitem here label s (store_with b lg)
  = (Ok tt, store_with (frame_setitem label s b) lg).
Proof.
  unfold setitem. rewrite (bind_Ok _ _ _ _ _ read_run).
  unfold write. cbn [frames logged]. by rewrite insert_here.
Qed.

Lemma loc_assign_run (mask : list bool) (label : string) (v : cell) :
  loc_assign here mask label v (store_with b lg)
  = (Ok tt, store_with (frame_loc_assign mask label v b) lg).
Proof.
  unfold loc_assign. rewrite (bind_Ok _ _ _ _ _ read_run).
  unfold write. cbn [frames logged]. by rewrite insert_here.
Qed.

Lemma len_run : len here (store_with b lg) = (Ok (index_size b), store_with b lg).
Proof. unfold len. by rewrite (bind_Ok _ _ _ _ _ read_run). Qed.

Lemma report_run (msg : option string) (warns : list string) :
  report msg warns (store_with b lg)
  = (Ok (warns ++ option_list msg), store_with b (lg ++ option_list msg)).
Proof.
  destruct msg as [text|]; simpl; [done|].
  unfold mret, M_ret. by rewrite !app_nil_r.
Qed.

End Runs.

Lemma rename_run (st : Store) (df : ref) (table : DataFrame)
    (rename_map : gmap string target) :
  frames st !! df = Some table ->
  rename df rename_map st
  = (Ok (length (frames st)),
     {| frames := frames st ++ [frame_rename rename_map table];
        logged := logged st |}).
Proof.
  intros Hdf. unfold rename, read, alloc, mbind, M_bind. by rewrite Hdf.
Qed.

Lemma copy_run (fs : list DataFrame) (x : DataFrame) (lg : list string) :
  copy (length fs) {| frames := fs ++ [x]; logged := lg |}
  = (Ok (S (length fs)), {| frames := fs ++ [x; x]; logged := lg |}).
Proof.
  unfold copy, read, alloc, mbind, M_bind. cbn [frames logged].
  rewrite lookup_app_r by lia.
  replace (length fs - length fs)%nat with 0%nat by lia.
  cbn [lookup list_lookup frames logged]. rewrite length_app. cbn [length].
  rewrite <- app_assoc. cbn [app].
  by replace (length fs + 1)%nat with (S (length fs)) by lia.
Qed.

Lemma mask_assign_map (p : cell -> bool) (v : cell) (s : Series) :
  mask_assign (map p s) v s = map (fun c => if p c then v else c) s.
Proof. induction s as [|c r IH]; simpl; [done|]. by rewrite IH. Qed.

Section Standardize.

Context {ext : Externals}.

Lemma standardize_run (st : Store) (df : ref) (min_score : Q)
    (table : DataFrame) (m : gmap target string)
    (scores : gmap target (list ColumnScore)) (ids dates amounts : Series) :
  frames st !! df = Some table ->
  infer_schema table min_score = Ok (m, scores) ->
  let renamed := frame_rename (invert_mapping m) table in
  getitem renamed "CustomerID" = [ids] ->
  getitem renamed "TransactionDate" = [dates] ->
  getitem renamed "TransactionAmount" = [amounts] ->
  infer_and_standardize_rfm df min_score st
  = (Ok (S (length (frames st)),
         {| mapping := invert_mapping m;
            source_columns := m;
            warnings := all_warnings (index_size table) ids dates amounts;
            coercion_ratios :=
              <["TransactionAmount" := round3 (valid_ratio (parsed_amounts amounts))]>
                (<["TransactionDate" := round3 (valid_ratio (parsed_dates dates))]> ∅) |}),
     {| frames := frames st
                  ++ [renamed; standardized_frame renamed ids dates amounts];
        logged := logged st
                  ++ all_warnings (index_size table) ids dates amounts |}).
Proof.
  intros Hdf Hok renamed Hids Hdates Hamounts.
  unfold infer_and_standardize_rfm.
  erewrite bind_Ok; [|unfold read; by rewrite Hdf].
  erewrite bind_Ok; [|unfold lift; by rewrite Hok].
  cbv beta iota.
  erewrite bind_Ok; [|by apply rename_run].
  erewrite bind_Ok; [|apply copy_run].
  fold renamed.
  erewrite bind_Ok; [|by apply getitem_series_run].
  erewrite bind_Ok; [|apply setitem_run].
  erewrite bind_Ok;
    [|apply getitem_series_run; by eapply getitem_setitem_same].
  erewrite bind_Ok; [|apply loc_assign_run].
  erewrite bind_Ok; [|apply len_run].
  erewrite bind_Ok; [|apply report_run].
  erewrite bind_Ok.
  2:{ apply getitem_series_run.
      rewrite getitem_loc_assign_other, getitem_setitem_other by done.
      exact Hdates. }
  unfold _attempt_datetime. cbv beta iota zeta.
  erewrite bind_Ok; [|apply setitem_run].
  erewrite bind_Ok; [|apply len_run].
  erewrite bind_Ok; [|apply report_run].
  erewrite bind_Ok.
  2:{ apply getitem_series_run.
      rewrite getitem_setitem_other, getitem_loc_assign_other,
        getitem_setitem_other by done.
      exact Hamounts. }
  unfold _attempt_numeric. cbv beta iota zeta.
  erewrite bind_Ok; [|apply setitem_run].
  erewrite bind_Ok; [|apply len_run].
  erewrite bind_Ok; [|apply report_run].
  unfold mret, M_ret, all_warnings, blank_warning, date_warning,
    amount_warning, standardized_frame.
  cbn [index_size frame_setitem frame_loc_assign frame_rename renamed app].
  by rewrite <- !app_assoc.
Qed.

End Standardize.

(** ** Objects that a computation leaves alone *)

Lemma keeps_bind {A B : Type} (old : list DataFrame) (m : M A) (f : A -> M B)
    (Q : A -> Prop) (R : B -> Prop) :
  keeps old m Q -> (forall a, Q a -> keeps old (f a) R) ->
  keeps old (m ≫= f) R.
Proof.
  intros Hm Hf st Hst. unfold mbind, M_bind.
  destruct (Hm st Hst) as [Hext Hres].
  destruct (m st) as [[a|e] st']; simpl in *.
  - apply Hf; [by apply Hres|done].
  - split; [done|]. intros b [=].
Qed.

Lemma keeps_weaken {A : Type} (old : list DataFrame) (m : M A)
    (Q R : A -> Prop) :
  keeps old m Q -> (forall a, Q a -> R a) -> keeps old m R.
Proof.
  intros Hm HQR st Hst. destruct (Hm st Hst) as [? Hres].
  split; [done|]. intros a Ha. by apply HQR, Hres.
Qed.

Lemma keeps_ret {A : Type} (old : list DataFrame) (a : A) (Q : A -> Prop) :
  Q a -> keeps old (mret a) Q.
Proof. intros HQ st Hst. split; [done|]. by intros ? [= <-]. Qed.

Lemma keeps_raise {A : Type} (old : list DataFrame) (e : exn) (Q : A -> Prop) :
  keeps old (raise e) Q.
Proof. intros st Hst. split; [done|]. intros ? [=]. Qed.

Lemma keeps_lift {A : Type} (old : list DataFrame) (r : result A) :
  keeps old (lift r) (fun _ => True).
Proof. intros st Hst. by split. Qed.

Lemma keeps_read (old : list DataFrame) (r : ref) :
  keeps old (read r) (fun _ => True).
Proof.
  intros st Hst. unfold read. by destruct (frames st !! r).
Qed.

(** A new object lies beyond the old ones. *)
Lemma keeps_alloc (old : list DataFrame) (df : DataFrame) :
  keeps old (alloc df) (fun r => (length old <= r)%nat).
Proof.
  intros st [k Hk]. unfold alloc, extends. simpl. split.
  - exists (k ++ [df]). by rewrite Hk, app_assoc.
  - intros a [= <-]. rewrite Hk, length_app. lia.
Qed.

(** Writing to an object beyond the old ones keeps them. *)
Lemma keeps_write (old : list DataFrame) (r : ref) (df : DataFrame) :
  (length old <= r)%nat -> keeps old (write r df) (fun _ => True).
Proof.
  intros Hr st [k Hk]. unfold write, extends. simpl. split; [|done].
  exists (<[(r - length old)%nat := df]> k).
  by rewrite Hk, insert_app_r_alt.
Qed.

Lemma keeps_log (old : list DataFrame) (msg : string) :
  keeps old (log_warning msg) (fun _ => True).
Proof. intros st Hst. by split. Qed.

Lemma keeps_getitem_series (old : list DataFrame) (r : ref) (label : string) :
  keeps old (getitem_series r label) (fun _ => True).
Proof.
  unfold getitem_series. eapply keeps_bind; [apply keeps_read|].
  intros df _. destruct (getitem df label) as [|s [|s' l]];
    [apply keeps_raise|by apply keeps_ret|apply keeps_raise].
Qed.

Lemma keeps_setitem (old : list DataFrame) (r : ref) (label : string)
    (series : Series) :
  (length old <= r)%nat -> keeps old (setitem r label series) (fun _ => True).
Proof.
  intros Hr. unfold setitem. eapply keeps_bind; [apply keeps_read|].
  intros df _. by apply keeps_write.
Qed.

Lemma keeps_loc_assign (old : list DataFrame) (r : ref) (mask : list bool)
    (label : string) (v : cell) :
  (length old <= r)%nat -> keeps old (loc_assign r mask label v) (fun _ => True).
Proof.
  intros Hr. unfold loc_assign. eapply keeps_bind; [apply keeps_read|].
  intros df _. by apply keeps_write.
Qed.

Lemma keeps_rename (old : list DataFrame) (r : ref)
    (rename_map : gmap string target) :
  keeps old (rename r rename_map) (fun r' => (length old <= r')%nat).
Proof.
  unfold rename. eapply keeps_bind; [apply keeps_read|].
  intros df _. apply keeps_alloc.
Qed.

Lemma keeps_copy (old : list DataFrame) (r : ref) :
  keeps old (copy r) (fun r' => (length old <= r')%nat).
Proof.
  unfold copy. eapply keeps_bind; [apply keeps_read|].
  intros df _. apply keeps_alloc.
Qed.

Lemma keeps_len (old : list DataFrame) (r : ref) :
  keeps old (len r) (fun _ => True).
Proof.
  unfold len. eapply keeps_bind; [apply keeps_read|].
  intros df _. by apply keeps_ret.
Qed.

Lemma keeps_report (old : list DataFrame) (msg : option string)
    (warns : list string) :
  keeps old (report msg warns) (fun _ => True).
Proof.
  destruct msg as [text|]; simpl; [|by apply keeps_ret].
  eapply keeps_bind; [apply keeps_log|]. intros _ _. by apply keeps_ret.
Qed.

Lemma keeps_standardize {ext : Externals} (old : list DataFrame) (df : ref)
    (min_score : Q) :
  keeps old (infer_and_standardize_rfm df min_score) (fun _ => True).
Proof.
  unfold infer_and_standardize_rfm.
  eapply keeps_bind; [apply keeps_read|]. intros table _.
  eapply keeps_bind; [apply keeps_lift|]. intros [m scores] _.
  eapply keeps_bind; [apply keeps_rename|]. intros renamed _.
  eapply keeps_bind; [apply keeps_copy|]. intros standardized Hnew.
  eapply keeps_bind; [apply keeps_getitem_series|]. intros ids _.
  eapply keeps_bind; [by apply keeps_setitem|]. intros _ _.
  eapply keeps_bind; [apply keeps_getitem_series|]. intros ids' _.
  eapply keeps_bind; [by apply keeps_loc_assign|]. intros _ _.
  eapply keeps_bind; [apply keeps_len|]. intros total _.
  eapply keeps_bind; [apply keeps_report|]. intros warns _.
  eapply keeps_bind; [apply keeps_getitem_series|]. intros dates _.
  destruct (_attempt_datetime dates) as [parsed valid_date_ratio].
  eapply keeps_bind; [by apply keeps_setitem|]. intros _ _.
  eapply keeps_bind; [apply keeps_len|]. intros total' _.
  eapply keeps_bind; [apply keeps_report|]. intros warns' _.
  eapply keeps_bind; [apply keeps_getitem_series|]. intros amounts _.
  destruct (_attempt_numeric amounts) as [numeric valid_amount_ratio].
  eapply keeps_bind; [by apply keeps_setitem|]. intros _ _.
  eapply keeps_bind; [apply keeps_len|]. intros total'' _.
  eapply keeps_bind; [apply keeps_report|]. intros warns'' _.
  by apply keeps_ret.
Qed.

(** ** The standardizer *)

Lemma invert_mapping_lookup (m : gmap target string) (t : target) (c : string) :
  (forall t1 t2 c', m !! t1 = Some c' -> m !! t2 = Some c' -> t1 = t2) ->
  m !! t = Some c -> invert_mapping m !! c = Some t.
Proof.
  intros Hinj Ht. unfold invert_mapping.
  set (l := (fun p : target * string => (p.2, p.1)) <$> map_to_list m).
  destruct (list_to_map l !! c) as [t'|] eqn:E.
  - apply elem_of_list_to_map_2 in E.
    apply list_elem_of_fmap in E as ([t'' c'] & [= -> ->] & Hin).
    apply elem_of_map_to_list in Hin. f_equal. by eapply Hinj.
  - apply not_elem_of_list_to_map in E. exfalso. apply E.
    apply list_elem_of_fmap. exists (c, t). split; [done|].
    apply list_elem_of_fmap. exists (t, c). split; [done|].
    by apply elem_of_map_to_list.
Qed.

Lemma count_true_map {A : Type} (p : A -> bool) (l : list A) :
  count_true (map p l) = length (List.filter p l).
Proof.
  unfold count_true. induction l as [|x r IH]; simpl; [done|].
  destruct (p x); simpl; by rewrite IH.
Qed.

Lemma lookup_map {A B : Type} (f : A -> B) (l : list A) (i : nat) :
  map f l !! i = f <$> l !! i.
Proof.
  revert i. induction l as [|x r IH]; intros [|i]; simpl; try done.
Qed.

Lemma strip_nan : strip "nan" = "nan".
Proof. reflexivity. Qed.

Section Links.

Context {ext : Externals}.

Lemma mapped_column_is_label (df : DataFrame) (min_score : Q)
    (m : gmap target string) (scores : gmap target (list ColumnScore))
    (t : target) (c : string) :
  infer_schema df min_score = Ok (m, scores) -> m !! t = Some c ->
  c ∈ labels df.
Proof.
  intros Hok Ht. destruct (infer_schema_Ok _ _ _ _ Hok) as (Hsc & -> & _).
  destruct (fold_spec scores min_score (target_order scores)
              (target_order_NoDup scores)) as (_ & _ & Hpos).
  fold (assign_roles scores min_score) in Hpos.
  destruct (proj1 (list_elem_of_lookup _ _) (target_in_order scores t)) as [i Hi].
  specialize (Hpos i t Hi). unfold greedy_choice in Hpos. rewrite Ht in Hpos.
  destruct Hpos as (cand & Hin & <- & _).
  apply list_elem_of_lookup in Hin as [j Hj].
  destruct (Forall2_lookup_r _ _ _ _ _ (all_pairs_scored _ _ Hsc t) Hj)
    as (lbl & Hlbl & Hscored).
  rewrite (call_scorer_column _ _ _ _ Hscored).
  by eapply list_elem_of_lookup_2.
Qed.

(** After renaming, a mapped role selects its source column, provided the
    renamed labels are all distinct. *)
Lemma renamed_selection (df : DataFrame) (min_score : Q)
    (m : gmap target string) (scores : gmap target (list ColumnScore))
    (t : target) (c : string) (s : Series) :
  infer_schema df min_score = Ok (m, scores) ->
  NoDup (labels (frame_rename (invert_mapping m) df)) ->
  m !! t = Some c -> (c, s) ∈ columns df ->
  getitem (frame_rename (invert_mapping m) df) (target_name t) = [s].
Proof.
  intros Hok Hnd Ht Hin.
  apply (getitem_rename _ _ t c); [done| |done].
  apply invert_mapping_lookup; [|done].
  destruct (infer_schema_Ok _ _ _ _ Hok) as (_ & Hm & _).
  intros t1 t2 c' H1 H2. destruct (decide (t1 = t2)) as [|Hne]; [done|].
  exfalso. rewrite Hm in H1, H2.
  by apply (assign_roles_injective _ _ _ _ _ _ Hne H1 H2).
Qed.

Lemma renamed_selection_exists (df : DataFrame) (min_score : Q)
    (m : gmap target string) (scores : gmap target (list ColumnScore)) (t : target) :
  infer_schema df min_score = Ok (m, scores) ->
  NoDup (labels (frame_rename (invert_mapping m) df)) ->
  exists s, getitem (frame_rename (invert_mapping m) df) (target_name t) = [s].
Proof.
  intros Hok Hnd.
  destruct (infer_schema_Ok _ _ _ _ Hok) as (_ & _ & Hall).
  destruct (Hall t) as [c Hc].
  pose proof (mapped_column_is_label _ _ _ _ _ _ Hok Hc) as Hlbl.
  apply list_elem_of_fmap in Hlbl as ([c' s] & -> & Hin).
  exists s. by eapply renamed_selection.
Qed.

(** The other warnings do not start like the amount warning. *)
Lemma earlier_warnings_not_amount (total : nat) (ids dates : Series) :
  Forall (fun w => String.prefix "Rows with non-numeric TransactionAmount" w = false)
         (option_list (blank_warning total ids)
          ++ option_list (date_warning total dates)).
Proof.
  apply Forall_app. split.
  - unfold blank_warning, _summarise_invalid.
    destruct (_ <=? 0)%nat; simpl; by repeat constructor.
  - unfold date_warning, _summarise_invalid.
    destruct (_ <=? 0)%nat; simpl; by repeat constructor.
Qed.

Lemma append_char (a : ascii) (s : string) : String a "" +:+ s = String a s.
Proof. reflexivity. Qed.

(** The cleaning of amounts, character by character. *)
Lemma clean_numeric_stripped (s : string) : clean_numeric s = stripped_amount s.
Proof.
  unfold clean_numeric. induction s as [|a r IH]; [done|].
  cbn [replace_char stripped_amount]. unfold cleaned_char.
  destruct (Ascii.eqb a ","%char) eqn:E1; [exact IH|].
  cbn [replace_char orb].
  destruct (Ascii.eqb a "$"%char) eqn:E2; [exact IH|].
  cbn [replace_char orb].
  destruct (Ascii.eqb a "("%char) eqn:E3.
  - apply Ascii.eqb_eq in E3. subst a.
    change (Ascii.eqb "(" ")") with false. cbv iota.
    rewrite !append_char. cbn [replace_char].
    change (Ascii.eqb "-" ")") with false. cbv iota. by rewrite IH.
  - cbn [replace_char].
    destruct (Ascii.eqb a ")"%char) eqn:E4; [exact IH|].
    rewrite append_char. by rewrite IH.
Qed.

Lemma parsed_amount_cell (x : cell) :
  to_numeric_cell (str_accessor clean_numeric (astype_str_cell x))
  = if isna x && astype_keeps_missing then None
    else to_numeric (stripped_amount (astype_str x)).
Proof.
  unfold astype_str_cell. destruct (isna x && astype_keeps_missing); [done|].
  cbn. by rewrite clean_numeric_stripped.
Qed.

Lemma percentage_nonneg (count total : nat) :
  0 <= match total with
       | O => 0
       | _ => ratio count total * 100
       end.
Proof.
  destruct total as [|k]; [done|].
  apply Qmult_le_0_compat; [|done]. unfold ratio.
  apply Qle_shift_div_l.
  - change 0 with (inject_Z 0). rewrite <- Zlt_Qlt. lia.
  - rewrite Qmult_0_l. change 0 with (inject_Z 0). rewrite <- Zle_Qle. lia.
Qed.

(** What [_summarise_invalid] returns, in words. *)
Lemma summarise_invalid_warning (label : string) (count total : nat) :
  invalid_rows_warning label count total (_summarise_invalid label count total).
Proof.
  unfold invalid_rows_warning, _summarise_invalid.
  destruct count as [|n]; [done|].
  cbn [Nat.leb].
  destruct (format_1f_nearest _ (percentage_nonneg (S n) total))
    as (tenths & Hnear & Htext).
  eexists. split; [|by rewrite Htext].
  exists tenths. split; [exact Hnear|done].
Qed.

Lemma count_parsed {A B : Type} (f : A -> option B) (l : list A) :
  length (List.filter (fun x => bool_decide (is_Some (f x))) l)
  = (length l - length (List.filter (fun x => is_none (f x)) l))%nat.
Proof.
  induction l as [|x r IH]; [done|].
  pose proof (List.filter_length_le (fun x => is_none (f x)) r) as Hle.
  cbn [List.filter length]. destruct (f x); cbn [is_none length];
    [rewrite bool_decide_eq_true_2 by by eexists
    |rewrite bool_decide_eq_false_2 by by intros [? ?]];
    cbn [length]; rewrite IH; lia.
Qed.

(** C8.  When the schema is inferred and the renamed labels are distinct,
    standardization returns.  The amount column it writes has one number
    per source value: the value's text without commas, dollar signs and
    closing parentheses and with a minus sign for an opening parenthesis,
    parsed as a number, and 0 where that fails; a missing value the cast
    leaves missing counts as failing.  The failing rows are reported in
    one warning, the last one, and only when there are some: it gives
    their count and their share of the rows in percent with one decimal.
    The share of parsed values, rounded to three decimals, is recorded
    under ["TransactionAmount"]. *)
Theorem unparseable_amounts_become_zero (st : Store) (df : ref) (min_score : Q)
    (table : DataFrame) (m : gmap target string)
    (scores : gmap target (list ColumnScore)) (c : string) (amounts : Series) :
  frames st !! df = Some table ->
  infer_schema table min_score = Ok (m, scores) ->
  NoDup (labels (frame_rename (invert_mapping m) table)) ->
  m !! TransactionAmount = Some c -> (c, amounts) ∈ columns table ->
  let parse := fun x : cell =>
    if isna x && astype_keeps_missing then None
    else to_numeric (stripped_amount (astype_str x)) in
  let failing := length (List.filter (fun x => is_none (parse x)) amounts) in
  let share :=
    match amounts with
    | [] => 0
    | _ => inject_Z (Z.of_nat (length amounts - failing))
           / inject_Z (Z.of_nat (length amounts))
    end in
  exists standardized diagnostics st' out written earlier msg recorded,
    infer_and_standardize_rfm df min_score st
    = (Ok (standardized, diagnostics), st')
    /\ frames st' !! standardized = Some out
    /\ getitem out "TransactionAmount" = [written]
    /\ length written = length amounts
    /\ (forall i x, amounts !! i = Some x ->
          written !! i = Some (match parse x with
                               | Some q => Number q
                               | None => Number 0
                               end))
    /\ warnings diagnostics = earlier ++ option_list msg
    /\ invalid_rows_warning "Rows with non-numeric TransactionAmount"
         failing (index_size table) msg
    /\ Forall (fun w => String.prefix "Rows with non-numeric TransactionAmount" w
                        = false) earlier
    /\ coercion_ratios diagnostics !! "TransactionAmount" = Some recorded
    /\ rounded3 share recorded.
Proof.
  intros Hdf Hok Hnd Hc Hin parse failing share.
  destruct (renamed_selection_exists _ _ _ _ CustomerID Hok Hnd) as [ids Hids].
  destruct (renamed_selection_exists _ _ _ _ TransactionDate Hok Hnd)
    as [dates Hdates].
  pose proof (renamed_selection _ _ _ _ _ _ _ Hok Hnd Hc Hin) as Hamounts.
  pose proof (standardize_run st df min_score table m scores ids dates amounts
                Hdf Hok Hids Hdates Hamounts) as Hrun.
  assert (Hparsed : parsed_amounts amounts = map parse amounts).
  { unfold parsed_amounts. rewrite !map_map. apply map_ext. intros x.
    apply parsed_amount_cell. }
  eexists _, _, _, _, (map fillna0_cell (parsed_amounts amounts)),
    (option_list (blank_warning (index_size table) ids)
     ++ option_list (date_warning (index_size table) dates)),
    (amount_warning (index_size table) amounts), _.
  split; [exact Hrun|]. cbn [frames warnings coercion_ratios].
  split; [apply lookup_here|].
  split.
  { unfold standardized_frame. apply (getitem_setitem_same _ _ amounts).
    rewrite getitem_setitem_other, getitem_loc_assign_other,
      getitem_setitem_other by done.
    exact Hamounts. }
  split; [by rewrite Hparsed, !length_map|].
  split.
  { intros i x Hx. rewrite Hparsed, !lookup_map, Hx. cbn.
    by destruct (parse x). }
  split; [unfold all_warnings; by rewrite <- app_assoc|].
  split.
  { unfold amount_warning. rewrite Hparsed, map_map, count_true_map.
    apply summarise_invalid_warning. }
  split; [apply earlier_warnings_not_amount|].
  split; [by simplify_map_eq|].
  fold (parsed_amounts amounts). rewrite Hparsed.
  assert (valid_ratio (map parse amounts) = share) as ->; [|apply round3_nearest].
  unfold share, failing. destruct amounts as [|x r]; [done|].
  rewrite valid_ratio_map by done. by rewrite count_parsed.
Qed.

(** C9.  Whatever [infer_and_standardize_rfm] does, every object the store
    held before the call, the caller's table among them, is the same
    afterwards: labels and cells alike. *)
Theorem caller_table_unchanged (st : Store) (df : ref) (min_score : Q)
    (r : ref) (table : DataFrame) :
  frames st !! r = Some table ->
  frames (infer_and_standardize_rfm df min_score st).2 !! r = Some table.
Proof.
  intros Hr.
  destruct (keeps_standardize (frames st) df min_score st) as [[k Hk] _].
  { by exists []; rewrite app_nil_r. }
  rewrite Hk. by apply lookup_app_l_Some.
Qed.

(** The cells the blank mask marks: values that are not missing and trim
    to the empty string. *)
Lemma blank_cell (x : cell) :
  cell_eqb (str_accessor strip (astype_str_cell x)) (Text "")
  = notna x && String.eqb (strip (astype_str x)) "".
Proof.
  unfold astype_str_cell. destruct x; try done.
  cbn. by destruct astype_keeps_missing.
Qed.

(** C10, amended.  A missing value in the source column mapped to
    CustomerID is written as the string cast of the library leaves it: as
    the text ["nan"] where the cast turns a missing value into text, as a
    missing value where the cast keeps it.  Either way it is not counted
    in the blank-CustomerID warning: the standardizer sets to missing, and
    counts, the values that are not missing and trim to the empty
    string. *)
Theorem missing_customer_id_follows_the_cast (st : Store) (df : ref)
    (min_score : Q) (table : DataFrame) (m : gmap target string)
    (scores : gmap target (list ColumnScore)) (c : string) (ids : Series)
    (i : nat) :
  frames st !! df = Some table ->
  infer_schema table min_score = Ok (m, scores) ->
  NoDup (labels (frame_rename (invert_mapping m) table)) ->
  m !! CustomerID = Some c -> (c, ids) ∈ columns table ->
  ids !! i = Some NaN ->
  let trimmed := fun x : cell => strip (astype_str x) in
  let blanks :=
    length (List.filter (fun x => String.eqb (trimmed x) "") (dropna ids)) in
  exists standardized diagnostics st' out written later msg,
    infer_and_standardize_rfm df min_score st
    = (Ok (standardized, diagnostics), st')
    /\ frames st' !! standardized = Some out
    /\ getitem out "CustomerID" = [written]
    /\ written !! i = Some (if astype_keeps_missing then NaN else Text "nan")
    /\ (forall j x, ids !! j = Some x -> notna x = true ->
          written !! j = Some (if String.eqb (trimmed x) "" then NaN
                               else Text (trimmed x)))
    /\ warnings diagnostics = option_list msg ++ later
    /\ invalid_rows_warning "Blank CustomerID values detected"
         blanks (index_size table) msg.
Proof.
  intros Hdf Hok Hnd Hc Hin Hnan trimmed blanks.
  destruct (renamed_selection_exists _ _ _ _ TransactionDate Hok Hnd)
    as [dates Hdates].
  destruct (renamed_selection_exists _ _ _ _ TransactionAmount Hok Hnd)
    as [amounts Hamounts].
  pose proof (renamed_selection _ _ _ _ _ _ _ Hok Hnd Hc Hin) as Hids.
  pose proof (standardize_run st df min_score table m scores ids dates amounts
                Hdf Hok Hids Hdates Hamounts) as Hrun.
  assert (Hwritten : forall j x, ids !! j = Some x ->
            standardized_ids ids !! j
            = Some (let y := str_accessor strip (astype_str_cell x) in
                    if cell_eqb y (Text "") then NaN else y)).
  { intros j x Hx. unfold standardized_ids, blank_mask.
    rewrite mask_assign_map. unfold casted_ids.
    rewrite !lookup_map, Hx. done. }
  eexists _, _, _, _, (standardized_ids ids),
    (option_list (date_warning (index_size table) dates)
     ++ option_list (amount_warning (index_size table) amounts)),
    (blank_warning (index_size table) ids).
  split; [exact Hrun|]. cbn [frames warnings].
  split; [apply lookup_here|].
  split.
  { unfold standardized_frame.
    rewrite !getitem_setitem_other by done.
    apply getitem_loc_assign_same.
    by apply (getitem_setitem_same _ _ ids). }
  split.
  { rewrite (Hwritten i NaN Hnan). unfold astype_str_cell. cbn.
    by destruct astype_keeps_missing. }
  split.
  { intros j x Hx Hnotna. rewrite (Hwritten j x Hx).
    unfold astype_str_cell. destruct x; try done; cbn; done. }
  split; [done|].
  assert (count_true (blank_mask ids) = blanks) as Hcount.
  { subst blanks trimmed. unfold blank_mask, casted_ids, dropna.
    rewrite !map_map, count_true_map.
    clear. induction ids as [|x r IH]; [done|].
    cbn [List.filter]. rewrite blank_cell.
    destruct (notna x); cbn [andb List.filter]; [|exact IH].
    destruct (String.eqb _ ""); cbn [length]; by rewrite IH. }
  unfold blank_warning. rewrite Hcount. apply summarise_invalid_warning.
Qed.

End Links.

(** ** The theorems at the sample tables *)

Lemma sample_inference_Ok :
  @infer_schema sample_externals orders MIN_INFERENCE_SCORE
  = Ok (sample_mapping, sample_scores).
Proof. vm_compute. reflexivity. Defined.

Lemma infer_schema_greedy_witness :
  @infer_schema sample_externals orders MIN_INFERENCE_SCORE
  = Ok (sample_mapping, sample_scores)
  /\ exists order : list target,
       order ≡ₚ TARGET_COLUMNS
       /\ forall i t, order !! i = Some t ->
            exists cand,
              cand ∈ sample_scores !!! t
              /\ sample_mapping !! t = Some (column cand)
              /\ 55 # 100 <= score cand.
Proof.
  split; [exact sample_inference_Ok|].
  destruct (infer_schema_greedy (ext := sample_externals) orders
              sample_mapping sample_scores sample_inference_Ok)
    as (_ & order & Hperm & _ & _ & _ & Hpos).
  exists order. split; [exact Hperm|].
  intros i t Hi. destruct (Hpos i t Hi) as (cand & H1 & H2 & H3 & _).
  exists cand. auto.
Defined.

Lemma infer_schema_injective_witness :
  sample_mapping !! CustomerID = Some "customer_id"
  /\ sample_mapping !! TransactionDate = Some "order_date"
  /\ "customer_id" ≠ "order_date".
Proof.
  assert (H1 : sample_mapping !! CustomerID = Some "customer_id")
    by (vm_compute; reflexivity).
  assert (H2 : sample_mapping !! TransactionDate = Some "order_date")
    by (vm_compute; reflexivity).
  split; [exact H1|]. split; [exact H2|].
  apply (infer_schema_injective (ext := sample_externals) orders
           MIN_INFERENCE_SCORE sample_mapping sample_scores
           CustomerID TransactionDate _ _ sample_inference_Ok H1 H2).
  discriminate.
Defined.

Lemma infer_schema_failure_report_witness :
  exists message details,
    @infer_schema sample_externals missing_amount MIN_INFERENCE_SCORE
    = Raise (SchemaInferenceError message details)
    /\ occurs_in "TransactionAmount" message
    /\ exists top shown,
         top ∈ failing_scores !!! TransactionAmount
         /\ suggestions details !! TransactionAmount
            = Some (Some {| best_column := column top;
                            suggested_score := shown;
                            suggested_components := components top |})
         /\ rounded3 (score top) shown.
Proof.
  assert (Hsc : @score_columns sample_externals missing_amount
                  (labels missing_amount) empty_scores = Ok failing_scores)
    by (vm_compute; reflexivity).
  assert (Hnone : (assign_roles failing_scores MIN_INFERENCE_SCORE).1
                  !! TransactionAmount = None)
    by (vm_compute; reflexivity).
  destruct (infer_schema_failure_report (ext := sample_externals)
              missing_amount MIN_INFERENCE_SCORE failing_scores Hsc
              (ex_intro _ TransactionAmount Hnone))
    as (message & details & Hraise & Hall).
  exists message, details. split; [exact Hraise|].
  destruct (Hall TransactionAmount Hnone) as [Hname [[Hempty _]|Htop]].
  - discriminate Hempty.
  - split; [exact Hname|].
    destruct Htop as (top & Hin & _ & shown & Hsugg & Hshown).
    exists top, shown. auto.
Defined.

Lemma transaction_date_score_witness :
  dropna mostly_numeric <> []
  /\ exists bonus factor,
       score (@_score_transaction_date sample_externals "order_date" mostly_numeric)
       == Qmin2 ((@name_part sample_externals "order_date" TransactionDate
                  + bonus) * factor) 1
       /\ bonus = 0 /\ factor = 1.
Proof.
  assert (Hne : dropna mostly_numeric <> []) by discriminate.
  split; [exact Hne|].
  destruct (transaction_date_score (ext := sample_externals)
              "order_date" mostly_numeric Hne)
    as (_ & _ & bonus & factor & Hscore & _ & _ & Hbonus & _ & Hfactor).
  exists bonus, factor. split; [exact Hscore|]. split.
  - apply Hbonus. vm_compute. reflexivity.
  - apply Hfactor. intros [Hlt _]. vm_compute in Hlt. discriminate Hlt.
Defined.

(** C4 as stated fails: four of the five values of [mostly_numeric] parse as
    numbers (exactly 80%) and none as a date, yet the score of the column
    named ["date"] is its name part, 0.7, not half of it. *)
Lemma transaction_date_no_penalty_at_80_percent :
  8 # 10 <= (@_attempt_numeric sample_externals (dropna mostly_numeric)).2
  /\ (@_attempt_datetime sample_externals (dropna mostly_numeric)).2 < 4 # 10
  /\ @name_part sample_externals "date" TransactionDate == 7 # 10
  /\ score (@_score_transaction_date sample_externals "date" mostly_numeric)
     == 7 # 10
  /\ ~ score (@_score_transaction_date sample_externals "date" mostly_numeric)
       == Qmin2 ((@name_part sample_externals "date" TransactionDate + 0)
                 * (5 # 10)) 1.
Proof.
  repeat split; try (vm_compute; reflexivity); try (vm_compute; discriminate).
Qed.

Lemma customer_id_score_witness :
  dropna repeated_code <> []
  /\ exists factor,
       score (@_score_customer_id sample_externals "customer" repeated_code)
       == Qmin2 ((@name_part sample_externals "customer" CustomerID
                  + Qmin2 (ratio (nunique (dropna repeated_code))
                                 (length (dropna repeated_code))) 1 * (5 # 10))
                 * factor) 1
       /\ factor = 1.
Proof.
  assert (Hne : dropna repeated_code <> []) by discriminate.
  split; [exact Hne|].
  destruct (customer_id_score (ext := sample_externals)
              "customer" repeated_code Hne)
    as (_ & factor & Hscore & _ & Hfactor).
  exists factor. split; [exact Hscore|].
  apply Hfactor. intros [Hlt _]. vm_compute in Hlt. discriminate Hlt.
Defined.

(** C5 as stated fails: nine of the ten values of [repeated_code] parse as
    numbers (exactly 90%) and its uniqueness ratio is 0.2, yet the score of
    the column named ["customer"] is 0.4, not 0.6 times that. *)
Lemma customer_id_no_penalty_at_90_percent :
  9 # 10 <= (@_attempt_numeric sample_externals (dropna repeated_code)).2
  /\ ratio (nunique (dropna repeated_code)) (length (dropna repeated_code))
     < 3 # 10
  /\ score (@_score_customer_id sample_externals "customer" repeated_code)
     == 4 # 10
  /\ ~ score (@_score_customer_id sample_externals "customer" repeated_code)
       == Qmin2 ((4 # 10) * (6 # 10)) 1.
Proof.
  repeat split; try (vm_compute; reflexivity); try (vm_compute; discriminate).
Qed.

Lemma transaction_amount_score_witness :
  dropna prices <> []
  /\ exists date_factor keyword_factor,
       score (@_score_transaction_amount sample_externals "unit_price" prices)
       == Qmin2 (@amount_gain sample_externals "unit_price" prices
                 * date_factor * keyword_factor) 1
       /\ date_factor = 1 /\ keyword_factor = 5 # 10.
Proof.
  assert (Hne : dropna prices <> []) by discriminate.
  split; [exact Hne|].
  destruct (transaction_amount_score (ext := sample_externals)
              "unit_price" prices Hne)
    as (_ & _ & date_factor & keyword_factor & Hscore & _ & Hdate & Hkey & _).
  exists date_factor, keyword_factor. split; [exact Hscore|split].
  - apply Hdate. intros [Hlt _]. vm_compute in Hlt. discriminate Hlt.
  - apply Hkey. exists "unit". split.
    + apply list_elem_of_In. vm_compute. tauto.
    + apply contains_spec. vm_compute. reflexivity.
Defined.

(** C6 as stated fails: the normalised name of ["unit_price"] contains none
    of quantity, qty, count, units, volume, and every value of [prices]
    parses as a number, so that no date penalty applies; the score would
    then be the accumulated 1, yet it is 0.5: the name contains ["unit"]. *)
Lemma unit_keyword_is_penalised :
  existsb (fun keyword =>
             contains keyword (@_normalise_column_name "unit_price"))
          ["quantity"; "qty"; "count"; "units"; "volume"] = false
  /\ 5 # 10 <= (@_attempt_numeric sample_externals (dropna prices)).2
  /\ @amount_gain sample_externals "unit_price" prices == 1
  /\ score (@_score_transaction_amount sample_externals "unit_price" prices)
     == 5 # 10
  /\ ~ score (@_score_transaction_amount sample_externals "unit_price" prices)
       == Qmin2 (@amount_gain sample_externals "unit_price" prices * 1 * 1) 1.
Proof.
  repeat split; try (vm_compute; reflexivity); try (vm_compute; discriminate).
Qed.

Lemma name_components_witness :
  dropna prices <> []
  /\ exists shown,
       components (@_score_transaction_amount sample_externals "unit_price"
                     prices) !! "name_similarity" = Some shown
       /\ rounded3 (@_name_similarity_score sample_externals "unit_price"
                      TransactionAmount) shown.
Proof.
  assert (Hne : dropna prices <> []) by discriminate.
  split; [exact Hne|].
  destruct (name_components (ext := sample_externals)
              TransactionAmount "unit_price" prices Hne) as (Hname & _).
  exact Hname.
Defined.

(** C7 as stated fails: for the column ["customer"] and the role CustomerID
    the component map holds 1 under [name_similarity], above the cap 0.3. *)
Lemma name_similarity_component_exceeds_cap :
  exists v,
    components (@_score_customer_id sample_externals "customer" [Text "C1"])
    !! "name_similarity" = Some v
    /\ v == 1 /\ ~ v <= 3 # 10.
Proof.
  eexists. split; [vm_compute; reflexivity|].
  split; [vm_compute; reflexivity|]. vm_compute. intros H. apply H. reflexivity.
Qed.

Lemma orders_labels_distinct :
  NoDup (labels (frame_rename (invert_mapping sample_mapping) orders)).
Proof. apply (bool_decide_unpack _). vm_compute. exact I. Defined.

Lemma unparseable_amounts_become_zero_witness :
  exists standardized diagnostics st' out written recorded,
    @infer_and_standardize_rfm sample_externals 0%nat MIN_INFERENCE_SCORE
      sample_store = (Ok (standardized, diagnostics), st')
    /\ frames st' !! standardized = Some out
    /\ getitem out "TransactionAmount" = [written]
    /\ written !! 3%nat = Some (Number 0)
    /\ coercion_ratios diagnostics !! "TransactionAmount" = Some recorded
    /\ rounded3 (inject_Z 3 / inject_Z 4) recorded.
Proof.
  assert (Hdf : frames sample_store !! 0%nat = Some orders) by reflexivity.
  assert (Hc : sample_mapping !! TransactionAmount = Some "amount")
    by (vm_compute; reflexivity).
  assert (Hin : ("amount", [Text "$1,250.50"; Text "20"; Text "(5)"; Text "abc"])
                ∈ columns orders).
  { apply list_elem_of_In. simpl. tauto. }
  destruct (unparseable_amounts_become_zero (ext := sample_externals)
              sample_store 0%nat MIN_INFERENCE_SCORE orders sample_mapping
              sample_scores "amount" _ Hdf sample_inference_Ok
              orders_labels_distinct Hc Hin)
    as (standardized & diagnostics & st' & out & written & earlier & msg
        & recorded & Hrun & Hout & Hget & _ & Hcells & _ & _ & _ & Hratio
        & Hrounded).
  exists standardized, diagnostics, st', out, written, recorded.
  split; [exact Hrun|]. split; [exact Hout|]. split; [exact Hget|].
  split; [exact (Hcells 3%nat (Text "abc") eq_refl)|].
  split; [exact Hratio|exact Hrounded].
Defined.

Lemma caller_table_unchanged_witness :
  frames sample_store !! 0%nat = Some orders
  /\ frames (@infer_and_standardize_rfm sample_externals 0%nat
               MIN_INFERENCE_SCORE sample_store).2 !! 0%nat = Some orders.
Proof.
  assert (Hdf : frames sample_store !! 0%nat = Some orders) by reflexivity.
  split; [exact Hdf|].
  exact (caller_table_unchanged (ext := sample_externals) sample_store 0%nat
           MIN_INFERENCE_SCORE 0%nat orders Hdf).
Defined.

Lemma missing_customer_id_follows_the_cast_witness :
  exists standardized diagnostics st' out written,
    @infer_and_standardize_rfm sample_externals 0%nat MIN_INFERENCE_SCORE
      sample_store = (Ok (standardized, diagnostics), st')
    /\ frames st' !! standardized = Some out
    /\ getitem out "CustomerID" = [written]
    /\ written !! 1%nat = Some (Text "nan").
Proof.
  assert (Hdf : frames sample_store !! 0%nat = Some orders) by reflexivity.
  assert (Hc : sample_mapping !! CustomerID = Some "customer_id")
    by (vm_compute; reflexivity).
  assert (Hin : ("customer_id", [Text "C1"; NaN; Text " "; Text "C2"])
                ∈ columns orders).
  { apply list_elem_of_In. simpl. tauto. }
  destruct (missing_customer_id_follows_the_cast (ext := sample_externals)
              sample_store 0%nat MIN_INFERENCE_SCORE orders sample_mapping
              sample_scores "customer_id" _ 1%nat Hdf sample_inference_Ok
              orders_labels_distinct Hc Hin eq_refl)
    as (standardized & diagnostics & st' & out & written & later & msg
        & Hrun & Hout & Hget & Hnan & _).
  exists standardized, diagnostics, st', out, written. auto.
Defined.

(** C10 as stated fails where the string cast keeps missing values, as that
    of pandas 3 does: the second customer of [orders] is missing, and in
    the standardized table it is still missing, not the text ["nan"]. *)
Lemma missing_customer_id_stays_missing :
  exists ids, getitem orders "customer_id" = [ids] /\ ids !! 1%nat = Some NaN
  /\ exists standardized diagnostics st' out written,
       @infer_and_standardize_rfm sample_externals_pandas3 0%nat
         MIN_INFERENCE_SCORE sample_store
       = (Ok (standardized, diagnostics), st')
       /\ frames st' !! standardized = Some out
       /\ getitem out "CustomerID" = [written]
       /\ written !! 1%nat = Some NaN
       /\ written !! 1%nat <> Some (Text "nan").
Proof.
  eexists. split; [reflexivity|]. split; [reflexivity|].
  eexists _, _, _, _, _.
  split; [vm_compute; reflexivity|].
  split; [vm_compute; reflexivity|].
  split; [vm_compute; reflexivity|].
  split; [vm_compute; reflexivity|].
  vm_compute. discriminate.
Qed.

(** * Further properties of [schemas.py] *)

(** ** Bounds on scores and ratios *)

Lemma Qmin2_le_r (a b : Q) : Qmin2 a b <= b.
Proof.
  unfold Qmin2. destruct (Qltb b a) eqn:E; [apply Qle_refl|].
  by apply Qltb_ge.
Qed.

Lemma Qmin2_nonneg (a b : Q) : 0 <= a -> 0 <= b -> 0 <= Qmin2 a b.
Proof. intros Ha Hb. unfold Qmin2. by destruct (Qltb b a). Qed.

Lemma ratio_S (count n : nat) :
  ratio count (S n) == Z.of_nat count # Pos.of_succ_nat n.
Proof. unfold ratio. by rewrite Qmake_Qdiv. Qed.

Lemma ratio_0_r (count : nat) : ratio count 0 == 0.
Proof. unfold ratio, Qdiv, Qinv. simpl. apply Qmult_0_r. Qed.

Lemma ratio_nonneg (count total : nat) : 0 <= ratio count total.
Proof.
  destruct total as [|n]; [by rewrite ratio_0_r|].
  rewrite ratio_S. unfold Qle. simpl. lia.
Qed.

Lemma ratio_le_1 (count total : nat) :
  (count <= total)%nat -> ratio count total <= 1.
Proof.
  intros Hle. destruct total as [|n]; [by rewrite ratio_0_r|].
  rewrite ratio_S. unfold Qle. simpl. lia.
Qed.

Lemma ratio_eq_1 (count total : nat) :
  (0 < total)%nat -> ratio count total == 1 <-> count = total.
Proof.
  intros Hpos. destruct total as [|n]; [lia|].
  rewrite ratio_S. unfold Qeq. simpl. lia.
Qed.

Lemma ratio_eq_0 (count total : nat) :
  (0 < total)%nat -> ratio count total == 0 <-> count = 0%nat.
Proof.
  intros Hpos. destruct total as [|n]; [lia|].
  rewrite ratio_S. unfold Qeq. simpl. lia.
Qed.

Lemma filter_length_le {A : Type} (p : A -> bool) (l : list A) :
  (length (List.filter p l) <= length l)%nat.
Proof. induction l as [|x r IH]; simpl; [lia|]. destruct (p x); simpl; lia. Qed.

Lemma filter_length_all {A : Type} (p : A -> bool) (l : list A) :
  length (List.filter p l) = length l <-> Forall (fun x => p x = true) l.
Proof.
  induction l as [|x r IH]; simpl; [by split; [constructor|]|].
  pose proof (filter_length_le p r). rewrite Forall_cons.
  destruct (p x) eqn:E; simpl.
  - rewrite <- IH. split; [intros [= ?]; by split|intros [_ ->]; done].
  - split; [lia|intros [? _]; done].
Qed.

Lemma filter_length_none {A : Type} (p : A -> bool) (l : list A) :
  length (List.filter p l) = 0%nat <-> Forall (fun x => p x = false) l.
Proof.
  induction l as [|x r IH]; simpl; [by split; [constructor|]|].
  rewrite Forall_cons. destruct (p x) eqn:E; simpl.
  - split; [lia|intros [? _]; done].
  - rewrite IH. tauto.
Qed.

Lemma valid_ratio_bounds {A : Type} (parsed : list (option A)) :
  0 <= valid_ratio parsed <= 1.
Proof.
  unfold valid_ratio. destruct parsed as [|o r]; [done|].
  split; [apply ratio_nonneg|apply ratio_le_1, filter_length_le].
Qed.

Section Bounds.

Context {ext : Externals}.

Lemma name_similarity_nonneg (column_name : string) (t : target) :
  0 <= _name_similarity_score column_name t.
Proof.
  unfold _name_similarity_score.
  generalize (NAME_KEYWORDS t). intros l.
  assert (H : forall m, 0 <= m ->
            0 <= fold_left
                   (fun max_ratio keyword =>
                      Qmax2 max_ratio
                        (inject_Z (partial_ratio
                                     (_normalise_column_name column_name) keyword)
                         / 100)) l m).
  { induction l as [|k l IH]; intros m Hm; simpl; [done|].
    apply IH. eapply Qle_trans; [exact Hm|apply Qmax2_ge_l]. }
  by apply H.
Qed.

Lemma regex_bonus_nonneg (column_name : string) (t : target) :
  0 <= _regex_bonus column_name t.
Proof. unfold _regex_bonus. by destruct (existsb _ _). Qed.

Lemma Qplus_nonneg (a b : Q) : 0 <= a -> 0 <= b -> 0 <= a + b.
Proof. intros Ha Hb. by apply (Qplus_le_compat 0 _ 0). Qed.

Ltac nonneg :=
  repeat first
    [ done
    | apply ratio_nonneg
    | apply name_similarity_nonneg
    | apply regex_bonus_nonneg
    | apply Qmin2_nonneg
    | apply Qplus_nonneg
    | apply Qmult_le_0_compat ].

Lemma score_nonneg (t : target) (column_name : string) (series : Series) :
  0 <= score (SCORERS t column_name series).
Proof.
  destruct t; simpl.
  - unfold _score_customer_id. destruct (dropna series) as [|c0 r0]; [done|].
    cbn [score].
    repeat match goal with
           | |- context [if ?b then _ else _] => destruct b
           end; nonneg.
  - unfold _score_transaction_date. destruct (dropna series) as [|c0 r0]; [done|].
    cbn [score].
    repeat match goal with
           | |- context [if ?b then _ else _] => destruct b
           end; nonneg.
  - unfold _score_transaction_amount.
    destruct (dropna series) as [|c0 r0]; [done|].
    destruct (_attempt_numeric _) as [numeric valid].
    repeat match goal with
           | |- context [if ?b then _ else _] => destruct b
           end; cbn [score]; nonneg.
Qed.

Lemma score_le_1 (t : target) (column_name : string) (series : Series) :
  score (SCORERS t column_name series) <= 1.
Proof.
  destruct t; simpl.
  - unfold _score_customer_id. destruct (dropna series); [done|].
    apply Qmin2_le_r.
  - unfold _score_transaction_date. destruct (dropna series); [done|].
    apply Qmin2_le_r.
  - unfold _score_transaction_amount. destruct (dropna series); [done|].
    destruct (_attempt_numeric _) as [numeric valid].
    destruct (Qltb 0 valid); apply Qmin2_le_r.
Qed.

(** X1.  Every score a scorer returns lies between 0 and 1, whatever
    the column name, the values and the library functions. *)
Theorem score_in_unit_interval (t : target) (column_name : string)
    (series : Series) :
  0 <= score (SCORERS t column_name series) <= 1.
Proof. split; [apply score_nonneg|apply score_le_1]. Qed.

End Bounds.

Section Parsing.

Context {ext : Externals}.

(** X2.  The name similarity of a column for a role is the largest
    of the fuzzy ratios of the normalised name against the role's keywords,
    each divided by 100, and 0 when none of them is positive. *)
Theorem name_similarity_is_maximum (column_name : string) (t : target) :
  let ratio_of := fun keyword =>
    inject_Z (partial_ratio (_normalise_column_name column_name) keyword) / 100 in
  let best := _name_similarity_score column_name t in
  0 <= best
  /\ (forall keyword, keyword ∈ NAME_KEYWORDS t -> ratio_of keyword <= best)
  /\ (best = 0 \/ exists keyword, keyword ∈ NAME_KEYWORDS t /\ best = ratio_of keyword).
Proof.
  intros ratio_of best. split; [apply name_similarity_nonneg|].
  subst best. unfold _name_similarity_score. fold ratio_of.
  generalize (NAME_KEYWORDS t). intros l.
  assert (H : forall m,
            m <= fold_left (fun mx k => Qmax2 mx (ratio_of k)) l m
            /\ (forall k, k ∈ l ->
                  ratio_of k <= fold_left (fun mx k => Qmax2 mx (ratio_of k)) l m)
            /\ (fold_left (fun mx k => Qmax2 mx (ratio_of k)) l m = m
                \/ exists k, k ∈ l
                     /\ fold_left (fun mx k => Qmax2 mx (ratio_of k)) l m
                        = ratio_of k)).
  { induction l as [|k l IH]; intros m; simpl.
    - split; [apply Qle_refl|]. split; [by intros k ?%elem_of_nil|by left].
    - destruct (IH (Qmax2 m (ratio_of k))) as (Hge & Hall & Hatt).
      split; [eapply Qle_trans; [apply Qmax2_ge_l|exact Hge]|].
      split.
      + intros k' [->|Hin]%elem_of_cons; [|by apply Hall].
        eapply Qle_trans; [apply Qmax2_ge_r|exact Hge].
      + destruct Hatt as [Heq|(k' & Hin & Heq)].
        * rewrite Heq. unfold Qmax2. destruct (Qltb m (ratio_of k)).
          -- right. exists k. split; [by left|done].
          -- by left.
        * right. exists k'. split; [by right|done]. }
  destruct (H 0) as (_ & Hall & Hatt). split; [exact Hall|exact Hatt].
Qed.

(** X3.  [_attempt_numeric] returns one parse result per value and
    the share of parsed values: a number between 0 and 1, 0 on an empty
    series, 1 exactly when every value parses and 0 exactly when none
    does. *)
Theorem attempt_numeric_ratio (series : Series) :
  let parsed := (_attempt_numeric series).1 in
  let valid := (_attempt_numeric series).2 in
  length parsed = length series
  /\ 0 <= valid <= 1
  /\ (series = [] -> valid = 0)
  /\ (series <> [] ->
      (valid == 1 <-> Forall (fun o => is_Some o) parsed)
      /\ (valid == 0 <-> Forall (fun o => o = None) parsed)).
Proof.
  cbv zeta. unfold _attempt_numeric. cbn [fst snd]. rewrite !map_map.
  split; [by rewrite length_map|].
  split; [apply valid_ratio_bounds|].
  split; [by intros ->|].
  intros Hne. rewrite valid_ratio_map by done.
  assert (Hpos : (0 < length series)%nat) by (destruct series; [done|simpl; lia]).
  split.
  - rewrite ratio_eq_1 by done. rewrite filter_length_all, List.Forall_map.
    apply Forall_iff. intros x. simpl. by rewrite bool_decide_eq_true.
  - rewrite ratio_eq_0 by done. rewrite filter_length_none, List.Forall_map.
    apply Forall_iff. intros x. simpl.
    rewrite bool_decide_eq_false, <- eq_None_not_Some. done.
Qed.

(** X4.  [_attempt_datetime] returns one parse result per value and
    the share of parsed values: a number between 0 and 1, 0 on an empty
    series, 1 exactly when every value parses and 0 exactly when none
    does. *)
Theorem attempt_datetime_ratio (series : Series) :
  let parsed := (_attempt_datetime series).1 in
  let valid := (_attempt_datetime series).2 in
  length parsed = length series
  /\ 0 <= valid <= 1
  /\ (series = [] -> valid = 0)
  /\ (series <> [] ->
      (valid == 1 <-> Forall (fun o => is_Some o) parsed)
      /\ (valid == 0 <-> Forall (fun o => o = None) parsed)).
Proof.
  cbv zeta. unfold _attempt_datetime. cbn [fst snd].
  split; [by rewrite length_map|].
  split; [apply valid_ratio_bounds|].
  split; [by intros ->|].
  intros Hne. rewrite valid_ratio_map by done.
  assert (Hpos : (0 < length series)%nat) by (destruct series; [done|simpl; lia]).
  split.
  - rewrite ratio_eq_1 by done. rewrite filter_length_all, List.Forall_map.
    apply Forall_iff. intros x. simpl. by rewrite bool_decide_eq_true.
  - rewrite ratio_eq_0 by done. rewrite filter_length_none, List.Forall_map.
    apply Forall_iff. intros x. simpl.
    rewrite bool_decide_eq_false, <- eq_None_not_Some. done.
Qed.

End Parsing.

(** ** What [infer_schema] returns and raises *)

Section Inference.

Context {ext : Externals}.

Lemma scorer_all_missing (t : target) (column_name : string) (series : Series) :
  dropna series = [] -> SCORERS t column_name series = empty_score column_name.
Proof.
  intros H. destruct t; simpl.
  - unfold _score_customer_id. by rewrite H.
  - unfold _score_transaction_date. by rewrite H.
  - unfold _score_transaction_amount. by rewrite H.
Qed.

(** The candidate behind a mapped role. *)
Lemma mapped_candidate (df : DataFrame) (min_score : Q)
    (m : gmap target string) (scores : gmap target (list ColumnScore))
    (t : target) (c : string) :
  infer_schema df min_score = Ok (m, scores) -> m !! t = Some c ->
  exists cand, scored df t c cand /\ column cand = c /\ min_score <= score cand.
Proof.
  intros Hok Ht. destruct (infer_schema_Ok _ _ _ _ Hok) as (Hsc & -> & _).
  destruct (fold_spec scores min_score (target_order scores)
              (target_order_NoDup scores)) as (_ & _ & Hpos).
  fold (assign_roles scores min_score) in Hpos.
  destruct (proj1 (list_elem_of_lookup _ _) (target_in_order scores t)) as [i Hi].
  specialize (Hpos i t Hi). unfold greedy_choice in Hpos. rewrite Ht in Hpos.
  destruct Hpos as (cand & Hin & <- & Hmin & _).
  apply list_elem_of_lookup in Hin as [j Hj].
  destruct (Forall2_lookup_r _ _ _ _ _ (all_pairs_scored _ _ Hsc t) Hj)
    as (lbl & Hlbl & Hscored).
  exists cand. rewrite (call_scorer_column _ _ _ _ Hscored) in *. done.
Qed.

(** X5.  With a positive threshold, a column that [infer_schema]
    maps to a role carries a label no other column has and holds at least
    one value that is not missing. *)
Theorem mapped_column_has_a_value (df : DataFrame) (min_score : Q)
    (m : gmap target string) (scores : gmap target (list ColumnScore))
    (t : target) (c : string) :
  infer_schema df min_score = Ok (m, scores) -> 0 < min_score ->
  m !! t = Some c ->
  exists series, getitem df c = [series] /\ dropna series <> [].
Proof.
  intros Hok Hpos Ht.
  destruct (mapped_candidate _ _ _ _ _ _ Hok Ht) as (cand & Hsc & _ & Hmin).
  assert (Hscore : 0 < score cand) by by eapply Qlt_le_trans.
  unfold scored, call_scorer in Hsc.
  destruct (getitem df c) as [|series [|s' r]] eqn:Hget; [done| |].
  - injection Hsc as <-. exists series. split; [done|].
    intros Hnil. rewrite scorer_all_missing in Hscore by done.
    by apply Qlt_irrefl in Hscore.
  - destruct (frame_dropna_empty _); [|done]. injection Hsc as <-.
    by apply Qlt_irrefl in Hscore.
Qed.

(** X6.  When [infer_schema] returns, the mapping has exactly the
    three roles as keys, each mapped to a label of the table; the scores
    hold one candidate per column for every role; and the table has at
    least three columns. *)
Theorem success_needs_three_columns (df : DataFrame) (min_score : Q)
    (m : gmap target string) (scores : gmap target (list ColumnScore)) :
  infer_schema df min_score = Ok (m, scores) ->
  (forall t, exists c, m !! t = Some c /\ c ∈ labels df)
  /\ dom m = {[CustomerID; TransactionDate; TransactionAmount]}
  /\ (forall t, length (scores !!! t) = length (columns df))
  /\ (3 <= length (columns df))%nat.
Proof.
  intros Hok.
  destruct (infer_schema_Ok _ _ _ _ Hok) as (Hsc & Hm & Hall).
  assert (Hlabel : forall t, exists c, m !! t = Some c /\ c ∈ labels df).
  { intros t. destruct (Hall t) as [c Hc]. exists c. split; [done|].
    by eapply mapped_column_is_label. }
  split; [exact Hlabel|]. split; [|split].
  - apply set_eq. intros t. rewrite elem_of_dom. split; intros _; [|apply Hall].
    rewrite !elem_of_union, !elem_of_singleton. destruct t; tauto.
  - intros t. pose proof (all_pairs_scored _ _ Hsc t) as H2.
    apply Forall2_length in H2. unfold labels in H2.
    by rewrite length_fmap in H2.
  - destruct (Hlabel CustomerID) as (c1 & H1 & L1).
    destruct (Hlabel TransactionDate) as (c2 & H2 & L2).
    destruct (Hlabel TransactionAmount) as (c3 & H3 & L3).
    subst m.
    assert (N12 : c1 <> c2)
      by (by apply (assign_roles_injective scores min_score
                      CustomerID TransactionDate)).
    assert (N13 : c1 <> c3)
      by (by apply (assign_roles_injective scores min_score
                      CustomerID TransactionAmount)).
    assert (N23 : c2 <> c3)
      by (by apply (assign_roles_injective scores min_score
                      TransactionDate TransactionAmount)).
    assert (Hsub : [c1; c2; c3] ⊆+ labels df).
    { apply NoDup_submseteq.
      - repeat (constructor; [rewrite ?elem_of_cons, elem_of_nil; intuition congruence|]).
        constructor.
      - intros x. rewrite !elem_of_cons, elem_of_nil.
        intros [->|[->|[->|[]]]]; done. }
    apply submseteq_length in Hsub. unfold labels in Hsub.
    rewrite length_fmap in Hsub. exact Hsub.
Qed.

Lemma call_scorer_raise (t : target) (c : string) (sel : list Series) (e : exn) :
  call_scorer t c sel = Raise e -> e = PandasError.
Proof.
  unfold call_scorer. destruct sel as [|s [|s' l]]; [congruence|done|].
  destruct (frame_dropna_empty _); congruence.
Qed.

Lemma score_one_column_raise (df : DataFrame) (c : string) (ts : list target)
    (sc : gmap target (list ColumnScore)) (e : exn) :
  score_one_column df c ts sc = Raise e -> e = PandasError.
Proof.
  revert sc. induction ts as [|t r IH]; intros sc; cbn [score_one_column]; [done|].
  destruct (call_scorer t c (getitem df c)) as [x|e'] eqn:E.
  - apply IH.
  - intros [= <-]. by eapply call_scorer_raise.
Qed.

Lemma score_columns_raise (df : DataFrame) (cols : list string)
    (sc : gmap target (list ColumnScore)) (e : exn) :
  score_columns df cols sc = Raise e -> e = PandasError.
Proof.
  revert sc. induction cols as [|c r IH]; intros sc; cbn [score_columns]; [done|].
  destruct (score_one_column df c TARGET_COLUMNS sc) as [sc'|e'] eqn:E.
  - apply IH.
  - intros [= <-]. by eapply score_one_column_raise.
Qed.

(** X9.  When [infer_schema] raises [SchemaInferenceError], all
    columns have been scored, some role is unmapped, the message is built
    from the unmapped roles in the order of [TARGET_COLUMNS], and the
    suggestions have exactly the unmapped roles as keys. *)
Theorem suggestions_cover_exactly_the_unmapped (df : DataFrame) (min_score : Q)
    (message : string) (details : Details) :
  infer_schema df min_score = Raise (SchemaInferenceError message details) ->
  exists scores,
    score_columns df (labels df) empty_scores = Ok scores
    /\ (let unmapped :=
          List.filter
            (fun t => bool_decide ((assign_roles scores min_score).1 !! t = None))
            TARGET_COLUMNS in
        unmapped <> []
        /\ message = inference_message unmapped
        /\ forall t, is_Some (suggestions details !! t) <-> t ∈ unmapped).
Proof.
  unfold infer_schema.
  destruct (score_columns _ _ _) as [scores|e] eqn:Hsc.
  - destruct (List.filter _ TARGET_COLUMNS) as [|t0 r] eqn:Hm; [done|].
    intros [= <- <-]. exists scores. split; [done|]. cbv zeta.
    rewrite Hm. split; [done|]. split; [done|].
    intros t. cbn [suggestions]. rewrite suggestions_lookup.
    destruct (decide (t ∈ r)) as [Hin|Hout].
    + split; [by right|by eexists].
    + destruct (decide (t = t0)) as [->|Hne].
      * rewrite lookup_insert_eq. split; [by left|by eexists].
      * rewrite lookup_insert_ne, lookup_empty by done.
        split; [by intros [? ?]|].
        rewrite elem_of_cons. by intros [?|?].
  - intros [= ->]. by apply score_columns_raise in Hsc.
Qed.

End Inference.

(** ** Tables without values *)

Lemma all_missing_mask (s : Series) :
  dropna s = [] -> Forall (fun b => b = false) (map notna s).
Proof.
  unfold dropna. induction s as [|x r IH]; simpl; [constructor|].
  destruct (notna x) eqn:E; [done|]. intros H. constructor; [done|by apply IH].
Qed.

Lemma zip_and_false (mask other : list bool) :
  Forall (fun b => b = false) mask ->
  Forall (fun b => b = false) (zip_with andb mask other).
Proof.
  intros H. revert other. induction H as [|b mask -> _ IH]; intros [|o other];
    simpl; constructor; [done|apply IH].
Qed.

Lemma all_missing_no_row (first : Series) (rest : list Series) :
  dropna first = [] -> frame_dropna_empty (first :: rest) = true.
Proof.
  intros H. unfold frame_dropna_empty. apply negb_true_iff.
  pose proof (all_missing_mask _ H) as Hmask. revert Hmask.
  generalize (map notna first). induction rest as [|col rest IH]; intros mask Hmask.
  - simpl. induction Hmask as [|b mask -> _ IHm]; [done|]. exact IHm.
  - simpl. apply IH. by apply zip_and_false.
Qed.

Lemma first_free_all_low (l : list ColumnScore) (used : gset string) (min_score : Q) :
  Forall (fun x => score x < min_score) l -> first_free l used min_score = None.
Proof.
  induction 1 as [|x r Hx _ IH]; simpl; [done|].
  destruct (decide (column x ∈ used)); [done|].
  destruct (Qle_bool min_score (score x)) eqn:E; [|done].
  apply Qle_bool_iff in E. exfalso. by apply (Qlt_not_le _ _ Hx).
Qed.

Lemma assign_nothing (scores : gmap target (list ColumnScore)) (min_score : Q)
    (order : list target) (st : gmap target string * gset string) :
  (forall t, Forall (fun x => score x < min_score) (scores !!! t)) ->
  fold_left (assign_target scores min_score) order st = st.
Proof.
  intros Hlow. revert st. induction order as [|t r IH]; intros st; [done|].
  cbn [fold_left]. unfold assign_target at 2.
  rewrite first_free_all_low; [apply IH|].
  apply Forall_forall. intros x Hx. rewrite sorted_desc_perm in Hx.
  specialize (Hlow t). rewrite Forall_forall in Hlow. by apply Hlow.
Qed.

Lemma sorted_empty_scores (cols : list string) :
  sorted_desc score (map empty_score cols) = map empty_score cols.
Proof.
  induction cols as [|c r IH]; [done|].
  unfold sorted_desc in *. cbn [map foldr]. rewrite IH.
  by destruct r.
Qed.

Section Valueless.

Context {ext : Externals}.

Lemma valueless_scored (df : DataFrame) (t : target) (c : string) :
  Forall (fun col : string * Series => dropna col.2 = []) (columns df) ->
  c ∈ labels df ->
  call_scorer t c (getitem df c) = Ok (empty_score c).
Proof.
  intros Hall Hin.
  assert (Forall (fun s => dropna s = []) (getitem df c)) as Hsel.
  { unfold getitem. apply List.Forall_map, Forall_forall. intros col Hcol.
    rewrite Forall_forall in Hall. apply Hall.
    apply list_elem_of_In. apply list_elem_of_In, List.filter_In in Hcol as [Hcol _].
    done. }
  assert (getitem df c <> []) as Hne.
  { apply list_elem_of_fmap in Hin as ([c' s] & -> & Hin). unfold getitem.
    intros Hnil. apply fmap_nil_inv in Hnil.
    assert (In (c', s) (List.filter (fun col : string * Series =>
                                       String.eqb col.1 (c', s).1) (columns df))) as H.
    { apply List.filter_In. split; [by apply list_elem_of_In|apply String.eqb_refl]. }
    by rewrite Hnil in H. }
  unfold call_scorer. destruct (getitem df c) as [|s [|s' l]]; [done| |].
  - apply Forall_inv in Hsel. by rewrite scorer_all_missing.
  - apply Forall_inv in Hsel. by rewrite (all_missing_no_row _ _ Hsel).
Qed.

Lemma valueless_scores (df : DataFrame) (cols : list string)
    (scores : gmap target (list ColumnScore)) :
  Forall (fun col : string * Series => dropna col.2 = []) (columns df) ->
  (forall c, c ∈ cols -> c ∈ labels df) ->
  exists scores', score_columns df cols scores = Ok scores'.
Proof.
  intros Hall. revert scores. induction cols as [|c r IH]; intros scores Hsub.
  - by exists scores.
  - cbn [score_columns score_one_column TARGET_COLUMNS].
    rewrite !(valueless_scored df _ c Hall) by (apply Hsub; by left).
    apply IH. intros c' Hc'. apply Hsub. by right.
Qed.

(** X7.  On a table none of whose columns holds a value, a table
    without columns among them, [infer_schema] raises for every positive
    threshold: the message names all three roles, and every role is
    suggested the first column with score 0, or nothing when there is no
    column. *)
Theorem valueless_table_has_no_schema (df : DataFrame) (min_score : Q) :
  0 < min_score ->
  Forall (fun col : string * Series => dropna col.2 = []) (columns df) ->
  exists details,
    infer_schema df min_score
    = Raise (SchemaInferenceError
               "Unable to infer required columns: CustomerID, TransactionDate, TransactionAmount. Please rename the relevant fields or supply mapping hints."
               details)
    /\ forall t,
         suggestions details !! t
         = Some (match labels df with
                 | [] => None
                 | c :: _ => Some {| best_column := c;
                                     suggested_score := round3 0;
                                     suggested_components := {["non_null_ratio" := 0]} |}
                 end).
Proof.
  intros Hmin Hall.
  destruct (valueless_scores df (labels df) empty_scores Hall) as [scores Hsc];
    [done|].
  assert (forall t, scores !!! t = map empty_score (labels df)) as Hscores.
  { intros t. pose proof (all_pairs_scored _ _ Hsc t) as H2.
    assert (forall c, c ∈ labels df -> c ∈ labels df) as Hsub by done.
    revert Hsub H2. generalize (scores !!! t). generalize (labels df) at 1 3 4.
    intros cols l Hsub H2. induction H2 as [|c x cols l Hcx _ IH]; [done|].
    simpl. f_equal.
    - unfold scored in Hcx. rewrite valueless_scored in Hcx; [|done|apply Hsub; by left].
      by injection Hcx as <-.
    - apply IH. intros c' Hc'. apply Hsub. by right. }
  assert (assign_roles scores min_score = (∅, ∅)) as Hnone.
  { apply assign_nothing. intros t. rewrite Hscores.
    apply List.Forall_map, Forall_forall. by intros c _. }
  unfold infer_schema. rewrite Hsc. cbv zeta. rewrite Hnone.
  cbn [fst List.filter TARGET_COLUMNS]. rewrite !lookup_empty.
  rewrite !bool_decide_eq_true_2 by done.
  eexists. split; [reflexivity|].
  intros t. cbn [suggestions]. rewrite suggestions_lookup.
  rewrite decide_True by (destruct t; repeat constructor).
  f_equal. rewrite Hscores. unfold suggestion_for.
  rewrite sorted_empty_scores. by destruct (labels df).
Qed.

End Valueless.

(** ** What a call of [infer_and_standardize_rfm] has done *)

Lemma bind_Raise {A B : Type} (m : M A) (f : A -> M B) (st st' : Store) (e : exn) :
  m st = (Raise e, st') -> (m ≫= f) st = (Raise e, st').
Proof. intros H. unfold mbind, M_bind. by rewrite H. Qed.

Lemma getitem_series_fail (fs : list DataFrame) (a b : DataFrame)
    (lg : list string) (label : string) :
  (forall s, getitem b label <> [s]) ->
  getitem_series (S (length fs)) label {| frames := fs ++ [a; b]; logged := lg |}
  = (Raise PandasError, {| frames := fs ++ [a; b]; logged := lg |}).
Proof.
  intros H. unfold getitem_series.
  erewrite bind_Ok; [|apply read_run].
  destruct (getitem b label) as [|s [|s' l]]; [done| |done].
  by destruct (H s).
Qed.

(** One column of a selection that is a single column. *)
Lemma filter_single {A : Type} (p q : A -> bool) (l : list A) (y : A) :
  (forall x, p x = true -> q x = true) ->
  List.filter q l = [y] -> (exists x, x ∈ l /\ p x = true) ->
  List.filter p l = [y].
Proof.
  intros Hpq. induction l as [|x r IH]; simpl; [done|].
  intros Hq Hex. destruct (p x) eqn:Hp.
  - rewrite (Hpq x Hp) in Hq. injection Hq as -> Hr. f_equal.
    clear -Hpq Hr. induction r as [|z r IH]; simpl in *; [done|].
    destruct (p z) eqn:Hz.
    + by rewrite (Hpq z Hz) in Hr.
    + apply IH. by destruct (q z).
  - destruct Hex as (x' & Hin & Hx'). apply elem_of_cons in Hin as [->|Hin];
      [congruence|].
    destruct (q x) eqn:Hqx.
    + injection Hq as -> Hr. exfalso.
      assert (x' ∈ List.filter q r) as Hbad.
      { apply list_elem_of_In, List.filter_In. split; [by apply list_elem_of_In|].
        by apply Hpq. }
      rewrite Hr in Hbad. by apply elem_of_nil in Hbad.
    + apply IH; [done|]. by exists x'.
Qed.

Section Returns.

Context {ext : Externals}.

Lemma standardize_no_table (st : Store) (df : ref) (min_score : Q) :
  frames st !! df = None ->
  infer_and_standardize_rfm df min_score st = (Raise PandasError, st).
Proof.
  intros H. unfold infer_and_standardize_rfm.
  apply bind_Raise. unfold read. by rewrite H.
Qed.

Lemma standardize_no_schema (st : Store) (df : ref) (min_score : Q)
    (table : DataFrame) (e : exn) :
  frames st !! df = Some table -> infer_schema table min_score = Raise e ->
  infer_and_standardize_rfm df min_score st = (Raise e, st).
Proof.
  intros Hdf H. unfold infer_and_standardize_rfm.
  erewrite bind_Ok; [|unfold read; by rewrite Hdf].
  apply bind_Raise. unfold lift. by rewrite H.
Qed.

Lemma standardize_partial (st : Store) (df : ref) (min_score : Q)
    (table : DataFrame) (m : gmap target string)
    (scores : gmap target (list ColumnScore)) :
  frames st !! df = Some table ->
  infer_schema table min_score = Ok (m, scores) ->
  let renamed := frame_rename (invert_mapping m) table in
  (exists s, getitem renamed "CustomerID" = [s]) ->
  ((forall s, getitem renamed "TransactionDate" <> [s])
   \/ (forall s, getitem renamed "TransactionAmount" <> [s])) ->
  exists st', infer_and_standardize_rfm df min_score st = (Raise PandasError, st').
Proof.
  intros Hdf Hok renamed [ids Hids] Hbad.
  unfold infer_and_standardize_rfm.
  erewrite bind_Ok; [|unfold read; by rewrite Hdf].
  erewrite bind_Ok; [|unfold lift; by rewrite Hok].
  cbv beta iota.
  erewrite bind_Ok; [|by apply rename_run].
  erewrite bind_Ok; [|apply copy_run].
  fold renamed.
  erewrite bind_Ok; [|by apply getitem_series_run].
  erewrite bind_Ok; [|apply setitem_run].
  erewrite bind_Ok;
    [|apply getitem_series_run; by eapply getitem_setitem_same].
  erewrite bind_Ok; [|apply loc_assign_run].
  erewrite bind_Ok; [|apply len_run].
  erewrite bind_Ok; [|apply report_run].
  destruct (getitem renamed "TransactionDate") as [|dates [|d' l]] eqn:Hdates.
  1,3: eexists; apply bind_Raise, getitem_series_fail; intros s;
       rewrite getitem_loc_assign_other, getitem_setitem_other, Hdates by done;
       done.
  destruct Hbad as [Hbad|Hbad]; [by destruct (Hbad dates)|].
  erewrite bind_Ok.
  2:{ apply getitem_series_run.
      rewrite getitem_loc_assign_other, getitem_setitem_other by done.
      exact Hdates. }
  unfold _attempt_datetime. cbv beta iota zeta.
  erewrite bind_Ok; [|apply setitem_run].
  erewrite bind_Ok; [|apply len_run].
  erewrite bind_Ok; [|apply report_run].
  eexists. apply bind_Raise, getitem_series_fail. intros s.
  rewrite getitem_setitem_other, getitem_loc_assign_other,
    getitem_setitem_other by done.
  apply Hbad.
Qed.

Lemma standardize_no_ids (st : Store) (df : ref) (min_score : Q)
    (table : DataFrame) (m : gmap target string)
    (scores : gmap target (list ColumnScore)) :
  frames st !! df = Some table ->
  infer_schema table min_score = Ok (m, scores) ->
  (forall s, getitem (frame_rename (invert_mapping m) table) "CustomerID" <> [s]) ->
  exists st', infer_and_standardize_rfm df min_score st = (Raise PandasError, st').
Proof.
  intros Hdf Hok Hbad.
  unfold infer_and_standardize_rfm.
  erewrite bind_Ok; [|unfold read; by rewrite Hdf].
  erewrite bind_Ok; [|unfold lift; by rewrite Hok].
  cbv beta iota.
  erewrite bind_Ok; [|by apply rename_run].
  erewrite bind_Ok; [|apply copy_run].
  eexists. by apply bind_Raise, getitem_series_fail.
Qed.

Lemma single_or_not {A : Type} (l : list A) :
  (exists x, l = [x]) \/ (forall x, l <> [x]).
Proof. destruct l as [|x [|y r]]; [by right|left; by exists x|by right]. Qed.

(** What a call that returns has done. *)
Lemma standardize_inv (st st' : Store) (df out : ref) (min_score : Q)
    (diagnostics : Diagnostics) :
  infer_and_standardize_rfm df min_score st = (Ok (out, diagnostics), st') ->
  exists table m scores ids dates amounts,
    frames st !! df = Some table
    /\ infer_schema table min_score = Ok (m, scores)
    /\ getitem (frame_rename (invert_mapping m) table) "CustomerID" = [ids]
    /\ getitem (frame_rename (invert_mapping m) table) "TransactionDate" = [dates]
    /\ getitem (frame_rename (invert_mapping m) table) "TransactionAmount" = [amounts]
    /\ out = S (length (frames st))
    /\ diagnostics
       = {| mapping := invert_mapping m;
            source_columns := m;
            warnings := all_warnings (index_size table) ids dates amounts;
            coercion_ratios :=
              <["TransactionAmount" := round3 (valid_ratio (parsed_amounts amounts))]>
                (<["TransactionDate" := round3 (valid_ratio (parsed_dates dates))]> ∅) |}
    /\ st' = {| frames := frames st
                          ++ [frame_rename (invert_mapping m) table;
                              standardized_frame
                                (frame_rename (invert_mapping m) table)
                                ids dates amounts];
                logged := logged st
                          ++ all_warnings (index_size table) ids dates amounts |}.
Proof.
  intros Hrun.
  destruct (frames st !! df) as [table|] eqn:Hdf;
    [|by rewrite standardize_no_table in Hrun].
  destruct (infer_schema table min_score) as [[m scores]|e] eqn:Hok;
    [|by erewrite standardize_no_schema in Hrun].
  destruct (single_or_not (getitem (frame_rename (invert_mapping m) table) "CustomerID"))
    as [[ids Hids]|Hbad].
  2:{ destruct (standardize_no_ids st df min_score table m scores Hdf Hok Hbad)
        as [st'' H]. congruence. }
  destruct (single_or_not (getitem (frame_rename (invert_mapping m) table) "TransactionDate"))
    as [[dates Hdates]|Hbad].
  2:{ destruct (standardize_partial st df min_score table m scores Hdf Hok
                  (ex_intro _ ids Hids) (or_introl Hbad)) as [st'' H]. congruence. }
  destruct (single_or_not (getitem (frame_rename (invert_mapping m) table) "TransactionAmount"))
    as [[amounts Hamounts]|Hbad].
  2:{ destruct (standardize_partial st df min_score table m scores Hdf Hok
                  (ex_intro _ ids Hids) (or_intror Hbad)) as [st'' H]. congruence. }
  pose proof (standardize_run st df min_score table m scores ids dates amounts
                Hdf Hok Hids Hdates Hamounts) as H.
  rewrite H in Hrun. injection Hrun as <- <- <-.
  by exists table, m, scores, ids, dates, amounts.
Qed.

End Returns.

(** ** [str.strip] *)

Lemma lstrip_head (s : string) (a : ascii) (r : string) :
  lstrip s = String a r -> is_space a = false.
Proof.
  induction s as [|b s IH]; simpl; [done|].
  destruct (is_space b) eqn:E; [done|]. by intros [= <- _].
Qed.

Lemma rstrip_cons (a : ascii) (r : string) :
  is_space a = false -> rstrip (String a r) = String a (rstrip r).
Proof. intros H. simpl. destruct (rstrip r); by rewrite ?H. Qed.

Lemma rstrip_idempotent (s : string) : rstrip (rstrip s) = rstrip s.
Proof.
  induction s as [|a r IH]; [done|].
  cbn [rstrip]. destruct (rstrip r) as [|b r'] eqn:E.
  - destruct (is_space a) eqn:Ha; [done|]. simpl. by rewrite Ha.
  - cbn [rstrip]. cbn [rstrip] in IH. by rewrite IH.
Qed.

Lemma strip_idempotent (s : string) : strip (strip s) = strip s.
Proof.
  unfold strip. destruct (lstrip s) as [|a r] eqn:E; [done|].
  pose proof (lstrip_head _ _ _ E) as Ha.
  rewrite (rstrip_cons _ _ Ha). simpl lstrip. rewrite Ha.
  rewrite <- (rstrip_cons _ _ Ha). apply rstrip_idempotent.
Qed.

(** ** The inverted mapping *)

Lemma invert_mapping_source (m : gmap target string) (t : target) (c : string) :
  invert_mapping m !! c = Some t -> m !! t = Some c.
Proof.
  unfold invert_mapping. intros H.
  apply elem_of_list_to_map_2 in H.
  apply list_elem_of_fmap in H as ([t' c'] & [= -> ->] & Hin).
  by apply elem_of_map_to_list in Hin.
Qed.

Lemma filter_map_comm {A B : Type} (q : B -> bool) (g : A -> B) (l : list A) :
  List.filter q (map g l) = map g (List.filter (fun x => q (g x)) l).
Proof.
  induction l as [|x r IH]; simpl; [done|].
  destruct (q (g x)); simpl; by rewrite IH.
Qed.

Lemma filter_agree {A : Type} (p q : A -> bool) (l : list A) :
  (forall x, x ∈ l -> p x = q x) -> List.filter p l = List.filter q l.
Proof.
  intros H. apply List.filter_ext_in. intros x Hx. apply H.
  by apply list_elem_of_In.
Qed.

Lemma getitem_frame_rename (rename_map : gmap string target) (df : DataFrame)
    (label : string) :
  getitem (frame_rename rename_map df) label
  = (List.filter (fun c : string * Series =>
                    String.eqb (renamed_label rename_map c.1) label)
                 (columns df)).*2.
Proof.
  unfold getitem, frame_rename. cbn [columns].
  rewrite filter_map_comm.
  induction (List.filter _ (columns df)) as [|x r IH]; [done|].
  cbn [map fmap list_fmap]. f_equal. exact IH.
Qed.

Lemma fmap_snd_single {A B : Type} (l : list (A * B)) (y : B) :
  l.*2 = [y] -> exists x, l = [(x, y)].
Proof.
  destruct l as [|[a b] [|? ?]]; try done. intros [= <-]. by exists a.
Qed.

Section Sources.

Context {ext : Externals}.

Lemma mapping_injective (df : DataFrame) (min_score : Q)
    (m : gmap target string) (scores : gmap target (list ColumnScore)) :
  infer_schema df min_score = Ok (m, scores) ->
  forall t1 t2 c, m !! t1 = Some c -> m !! t2 = Some c -> t1 = t2.
Proof.
  intros Hok. destruct (infer_schema_Ok _ _ _ _ Hok) as (_ & Hm & _).
  intros t1 t2 c' H1 H2. destruct (decide (t1 = t2)) as [|Hne]; [done|].
  exfalso. rewrite Hm in H1, H2.
  by apply (assign_roles_injective _ _ _ _ _ _ Hne H1 H2).
Qed.

(** The column a role selects after renaming is the source column mapped to
    the role. *)
Lemma selection_source (df : DataFrame) (min_score : Q)
    (m : gmap target string) (scores : gmap target (list ColumnScore))
    (t : target) (c : string) (s : Series) :
  infer_schema df min_score = Ok (m, scores) -> m !! t = Some c ->
  getitem (frame_rename (invert_mapping m) df) (target_name t) = [s] ->
  getitem df c = [s].
Proof.
  intros Hok Ht Hsel.
  rewrite getitem_frame_rename in Hsel.
  apply fmap_snd_single in Hsel as [c' Hsel].
  unfold getitem.
  assert (List.filter (fun p : string * Series => String.eqb p.1 c) (columns df)
          = [(c', s)]) as ->; [|done].
  eapply filter_single; [|exact Hsel|].
  - intros [c0 s0] Hp. apply String.eqb_eq in Hp. simpl in Hp. subst c0.
    unfold renamed_label. cbn [fst].
    rewrite (invert_mapping_lookup m t c (mapping_injective _ _ _ _ Hok) Ht).
    apply String.eqb_refl.
  - pose proof (mapped_column_is_label _ _ _ _ _ _ Hok Ht) as Hlbl.
    apply list_elem_of_fmap in Hlbl as ([c0 s0] & -> & Hin).
    exists (c0, s0). split; [done|]. apply String.eqb_refl.
Qed.

Lemma target_name_inj (t1 t2 : target) : target_name t1 = target_name t2 -> t1 = t2.
Proof. by destruct t1, t2. Qed.

(** A label that is neither mapped nor the name of a role selects the same
    columns before and after renaming. *)
Lemma getitem_rename_other (m : gmap target string) (df : DataFrame) (c : string) :
  invert_mapping m !! c = None -> (forall t, c <> target_name t) ->
  getitem (frame_rename (invert_mapping m) df) c = getitem df c.
Proof.
  intros Hnone Hname. rewrite getitem_frame_rename. unfold getitem.
  f_equal. apply filter_agree. intros [c0 s0] _. cbn [fst].
  unfold renamed_label. destruct (invert_mapping m !! c0) as [t|] eqn:E; [|done].
  destruct (String.eqb_spec (target_name t) c) as [Heq|_];
    [by destruct (Hname t)|].
  destruct (String.eqb_spec c0 c) as [->|_]; [congruence|done].
Qed.

End Sources.

(** ** The standardized table and the diagnostics *)

Lemma labels_setitem (label : string) (series old : Series) (df : DataFrame) :
  getitem df label = [old] ->
  labels (frame_setitem label series df) = labels df.
Proof.
  intros H. unfold frame_setitem.
  rewrite (setitem_keeps_label _ series _ _ H).
  unfold labels. cbn [columns].
  induction (columns df) as [|[c s] r IH]; [done|].
  cbn [map fmap list_fmap fst]. f_equal; [by destruct (String.eqb c label)|exact IH].
Qed.

Lemma labels_loc_assign (mask : list bool) (label : string) (v : cell)
    (df : DataFrame) :
  labels (frame_loc_assign mask label v df) = labels df.
Proof.
  unfold frame_loc_assign, labels. cbn [columns].
  induction (columns df) as [|[c s] r IH]; [done|].
  cbn [map fmap list_fmap fst]. f_equal; [by destruct (String.eqb c label)|exact IH].
Qed.

Lemma labels_rename (rename_map : gmap string target) (df : DataFrame) :
  labels (frame_rename rename_map df) = map (renamed_label rename_map) (labels df).
Proof.
  unfold frame_rename, labels. cbn [columns].
  induction (columns df) as [|[c s] r IH]; [done|].
  cbn [map fmap list_fmap fst]. f_equal. exact IH.
Qed.

Lemma missing_times_count {A : Type} (f : A -> option Z) (l : list A) :
  length (List.filter isna (map (fun x => time_cell (f x)) l))
  = length (List.filter (fun x => is_none (f x)) l).
Proof.
  induction l as [|x r IH]; [done|].
  simpl. destruct (f x); simpl; by rewrite IH.
Qed.

Section Standardized.

Context {ext : Externals}.

Lemma other_warnings_not_date (total : nat) (ids amounts : Series) :
  Forall (fun w => String.prefix "Rows with unparseable TransactionDate" w = false)
         (option_list (blank_warning total ids)
          ++ option_list (amount_warning total amounts)).
Proof.
  apply Forall_app. split.
  - unfold blank_warning, _summarise_invalid.
    destruct (_ <=? 0)%nat; simpl; by repeat constructor.
  - unfold amount_warning, _summarise_invalid.
    destruct (_ <=? 0)%nat; simpl; by repeat constructor.
Qed.

(** X10.  An exception of [infer_schema] leaves
    [infer_and_standardize_rfm] unchanged, before any object is created
    and before anything is logged. *)
Theorem inference_failure_propagates (st : Store) (df : ref) (min_score : Q)
    (table : DataFrame) (e : exn) :
  frames st !! df = Some table -> infer_schema table min_score = Raise e ->
  infer_and_standardize_rfm df min_score st = (Raise e, st).
Proof. apply standardize_no_schema. Qed.

(** X11.  [infer_and_standardize_rfm] returns exactly when the
    schema is inferred and, after renaming, each of the three role names
    labels one column and no more. *)
Theorem standardize_returns_iff (st : Store) (df : ref) (min_score : Q)
    (table : DataFrame) :
  frames st !! df = Some table ->
  (exists out diagnostics st',
     infer_and_standardize_rfm df min_score st = (Ok (out, diagnostics), st'))
  <-> (exists m scores,
         infer_schema table min_score = Ok (m, scores)
         /\ forall t, exists s,
              getitem (frame_rename (invert_mapping m) table) (target_name t) = [s]).
Proof.
  intros Hdf. split.
  - intros (out & diagnostics & st' & Hrun).
    apply standardize_inv in Hrun
      as (table' & m & scores & ids & dates & amounts & Hdf' & Hok & Hi & Hd & Ha & _).
    rewrite Hdf in Hdf'. injection Hdf' as <-.
    exists m, scores. split; [done|]. intros []; eauto.
  - intros (m & scores & Hok & Hsel).
    destruct (Hsel CustomerID) as [ids Hi].
    destruct (Hsel TransactionDate) as [dates Hd].
    destruct (Hsel TransactionAmount) as [amounts Ha].
    eexists _, _, _.
    exact (standardize_run st df min_score table m scores ids dates amounts
             Hdf Hok Hi Hd Ha).
Qed.

(** X12.  When the call returns, the date column it writes is the
    source column mapped to TransactionDate parsed value by value, with a
    missing value where parsing fails.  The failing rows are reported in
    the date warning, which no other warning resembles, and only when
    there are some: it gives their count and their share of the rows in
    percent with one decimal.  The share of parsed values, rounded to
    three decimals, that is a multiple of 0.001 nearest to it, is recorded
    under ["TransactionDate"]. *)
Theorem unparseable_dates_become_missing (st st' : Store) (df out : ref)
    (min_score : Q) (diagnostics : Diagnostics) (table : DataFrame) (c : string) :
  infer_and_standardize_rfm df min_score st = (Ok (out, diagnostics), st') ->
  frames st !! df = Some table ->
  source_columns diagnostics !! TransactionDate = Some c ->
  exists dates frame written earlier later msg recorded,
    getitem table c = [dates]
    /\ frames st' !! out = Some frame
    /\ getitem frame "TransactionDate" = [written]
    /\ written = map (fun x => match to_datetime dates x with
                               | Some t => Time t
                               | None => NaN
                               end) dates
    /\ (let failing :=
          length (List.filter (fun x => is_none (to_datetime dates x)) dates) in
        let share :=
          match dates with
          | [] => 0
          | _ => inject_Z (Z.of_nat (length dates - failing))
                 / inject_Z (Z.of_nat (length dates))
          end in
        length (List.filter isna written) = failing
        /\ warnings diagnostics = earlier ++ option_list msg ++ later
        /\ invalid_rows_warning "Rows with unparseable TransactionDate"
             failing (index_size table) msg
        /\ coercion_ratios diagnostics !! "TransactionDate" = Some recorded
        /\ rounded3 share recorded)
    /\ Forall (fun w => String.prefix "Rows with unparseable TransactionDate" w
                        = false) (earlier ++ later).
Proof.
  intros Hrun Hdf Hc.
  apply standardize_inv in Hrun
    as (table' & m & scores & ids & dates & amounts & Hdf' & Hok & Hi & Hd & Ha
        & -> & -> & ->).
  rewrite Hdf in Hdf'. injection Hdf' as <-.
  cbn [source_columns warnings coercion_ratios frames] in *.
  exists dates, (standardized_frame (frame_rename (invert_mapping m) table)
                   ids dates amounts),
    (map time_cell (parsed_dates dates)),
    (option_list (blank_warning (index_size table) ids)),
    (option_list (amount_warning (index_size table) amounts)),
    (date_warning (index_size table) dates),
    (round3 (valid_ratio (parsed_dates dates))).
  split; [by apply (selection_source table min_score m scores TransactionDate)|].
  split; [apply lookup_here|].
  split.
  { unfold standardized_frame. rewrite getitem_setitem_other by done.
    apply (getitem_setitem_same _ _ dates).
    rewrite getitem_loc_assign_other, getitem_setitem_other by done.
    exact Hd. }
  split.
  { unfold parsed_dates. rewrite map_map. apply map_ext. intros x.
    by destruct (to_datetime dates x). }
  split; [|apply other_warnings_not_date].
  cbv zeta. split.
  { unfold parsed_dates. rewrite map_map. apply missing_times_count. }
  split; [done|].
  split.
  { unfold date_warning, parsed_dates. rewrite map_map, count_true_map.
    apply summarise_invalid_warning. }
  split; [by simplify_map_eq|].
  unfold parsed_dates.
  assert (valid_ratio (map (to_datetime dates) dates)
          = match dates with
            | [] => 0
            | _ => inject_Z (Z.of_nat
                     (length dates
                      - length (List.filter
                                  (fun x => is_none (to_datetime dates x)) dates)))
                   / inject_Z (Z.of_nat (length dates))
            end) as ->; [|apply round3_nearest].
  generalize (to_datetime dates). intros parse.
  destruct dates as [|x r]; [done|].
  rewrite valid_ratio_map by done. by rewrite count_parsed.
Qed.

(** X13.  When the call returns, the standardized table has the
    index size of the caller's table and its labels in the same order,
    the mapped ones replaced by their role names; a label that is neither
    mapped nor the name of a role selects the same columns as before. *)
Theorem other_columns_carried_over (st st' : Store) (df out : ref)
    (min_score : Q) (diagnostics : Diagnostics) (table : DataFrame) :
  infer_and_standardize_rfm df min_score st = (Ok (out, diagnostics), st') ->
  frames st !! df = Some table ->
  exists frame,
    frames st' !! out = Some frame
    /\ index_size frame = index_size table
    /\ labels frame
       = map (fun c => match mapping diagnostics !! c with
                       | Some t => target_name t
                       | None => c
                       end) (labels table)
    /\ forall c, mapping diagnostics !! c = None ->
                 (forall t, c <> target_name t) ->
                 getitem frame c = getitem table c.
Proof.
  intros Hrun Hdf.
  apply standardize_inv in Hrun
    as (table' & m & scores & ids & dates & amounts & Hdf' & Hok & Hi & Hd & Ha
        & -> & -> & ->).
  rewrite Hdf in Hdf'. injection Hdf' as <-.
  cbn [mapping frames].
  eexists. split; [apply lookup_here|].
  split; [done|]. split.
  - unfold standardized_frame.
    rewrite (labels_setitem _ _ amounts).
    2:{ rewrite getitem_setitem_other, getitem_loc_assign_other,
          getitem_setitem_other by done. exact Ha. }
    rewrite (labels_setitem _ _ dates).
    2:{ rewrite getitem_loc_assign_other, getitem_setitem_other by done.
        exact Hd. }
    rewrite labels_loc_assign, (labels_setitem _ _ ids) by done.
    apply labels_rename.
  - intros c Hnone Hname. unfold standardized_frame.
    rewrite getitem_setitem_other
      by (apply String.eqb_neq; exact (not_eq_sym (Hname TransactionAmount))).
    rewrite getitem_setitem_other
      by (apply String.eqb_neq; exact (not_eq_sym (Hname TransactionDate))).
    rewrite getitem_loc_assign_other
      by (apply String.eqb_neq; exact (not_eq_sym (Hname CustomerID))).
    rewrite getitem_setitem_other
      by (apply String.eqb_neq; exact (not_eq_sym (Hname CustomerID))).
    by apply getitem_rename_other.
Qed.

(** X14.  In the diagnostics of a call that returns, ["mapping"]
    and ["source_columns"] are inverse to each other, every role has a
    source column, and the coercion ratios have exactly the keys
    ["TransactionDate"] and ["TransactionAmount"]. *)
Theorem diagnostics_maps_are_inverse (st st' : Store) (df out : ref)
    (min_score : Q) (diagnostics : Diagnostics) :
  infer_and_standardize_rfm df min_score st = (Ok (out, diagnostics), st') ->
  (forall c t, mapping diagnostics !! c = Some t
               <-> source_columns diagnostics !! t = Some c)
  /\ (forall t, is_Some (source_columns diagnostics !! t))
  /\ (forall key, is_Some (coercion_ratios diagnostics !! key)
                  <-> key = "TransactionDate" \/ key = "TransactionAmount").
Proof.
  intros Hrun.
  apply standardize_inv in Hrun
    as (table & m & scores & ids & dates & amounts & Hdf & Hok & Hi & Hd & Ha
        & -> & -> & ->).
  cbn [mapping source_columns coercion_ratios].
  split; [|split].
  - intros c t. split; [apply invert_mapping_source|].
    apply invert_mapping_lookup, (mapping_injective _ _ _ _ Hok).
  - intros t. destruct (infer_schema_Ok _ _ _ _ Hok) as (_ & _ & Hall).
    destruct (Hall t) as [c Hc]. by exists c.
  - intros key.
    destruct (decide (key = "TransactionAmount")) as [->|Hn1].
    { rewrite lookup_insert_eq. split; [by right|by eexists]. }
    rewrite lookup_insert_ne by done.
    destruct (decide (key = "TransactionDate")) as [->|Hn2].
    { rewrite lookup_insert_eq. split; [by left|by eexists]. }
    rewrite lookup_insert_ne, lookup_empty by done.
    split; [by intros [? ?]|by intros [?|?]].
Qed.

(** X15.  A call that returns has logged its warnings, at most
    three, in the order of the diagnostics and nothing else; it has
    created two objects, and the table it returns is a new one, not the
    caller's. *)
Theorem warnings_are_logged (st st' : Store) (df out : ref)
    (min_score : Q) (diagnostics : Diagnostics) :
  infer_and_standardize_rfm df min_score st = (Ok (out, diagnostics), st') ->
  logged st' = logged st ++ warnings diagnostics
  /\ (length (warnings diagnostics) <= 3)%nat
  /\ length (frames st') = (length (frames st) + 2)%nat
  /\ frames st !! out = None
  /\ out <> df.
Proof.
  intros Hrun.
  apply standardize_inv in Hrun
    as (table & m & scores & ids & dates & amounts & Hdf & Hok & Hi & Hd & Ha
        & -> & -> & ->).
  cbn [logged warnings frames].
  split; [done|]. split.
  { unfold all_warnings. rewrite !length_app.
    destruct (blank_warning _ _), (date_warning _ _), (amount_warning _ _);
      simpl; lia. }
  split; [rewrite length_app; simpl; lia|].
  split; [apply lookup_ge_None; lia|].
  apply lookup_lt_Some in Hdf. lia.
Qed.

(** X16.  In the table a call returns, every CustomerID is either
    missing or a non-empty text without blanks at either end. *)
Theorem standardized_ids_are_clean (st st' : Store) (df out : ref)
    (min_score : Q) (diagnostics : Diagnostics) :
  infer_and_standardize_rfm df min_score st = (Ok (out, diagnostics), st') ->
  exists frame written,
    frames st' !! out = Some frame
    /\ getitem frame "CustomerID" = [written]
    /\ Forall (fun x => x = NaN
                        \/ exists s, x = Text s /\ s <> "" /\ strip s = s) written.
Proof.
  intros Hrun.
  apply standardize_inv in Hrun
    as (table & m & scores & ids & dates & amounts & Hdf & Hok & Hi & Hd & Ha
        & -> & -> & ->).
  cbn [frames].
  exists (standardized_frame (frame_rename (invert_mapping m) table) ids dates amounts),
    (standardized_ids ids).
  split; [apply lookup_here|]. split.
  { unfold standardized_frame. rewrite !getitem_setitem_other by done.
    apply getitem_loc_assign_same. by apply (getitem_setitem_same _ _ ids). }
  unfold standardized_ids, blank_mask. rewrite mask_assign_map.
  unfold casted_ids. rewrite !map_map. apply List.Forall_map, Forall_forall.
  intros x _. unfold astype_str_cell.
  destruct (isna x && astype_keeps_missing); [by left|].
  cbn [str_accessor cell_eqb].
  destruct (String.eqb_spec (strip (astype_str x)) "") as [Heq|Hne]; [by left|].
  right. eexists. split; [done|]. split; [done|]. apply strip_idempotent.
Qed.

End Standardized.

(** ** Lower-casing *)

Ltac each_char a := destruct a as [[] [] [] [] [] [] [] []]; reflexivity.

Lemma lower_char_idempotent (a : ascii) : lower_char (lower_char a) = lower_char a.
Proof. each_char a. Qed.

Lemma is_space_lower (a : ascii) : is_space (lower_char a) = is_space a.
Proof. each_char a. Qed.

Lemma eqb_lower_underscore (a : ascii) :
  Ascii.eqb (lower_char a) "_"%char = Ascii.eqb a "_"%char.
Proof. each_char a. Qed.

Lemma eqb_lower_hyphen (a : ascii) :
  Ascii.eqb (lower_char a) "-"%char = Ascii.eqb a "-"%char.
Proof. each_char a. Qed.

Lemma lower_idempotent (s : string) : lower (lower s) = lower s.
Proof.
  induction s as [|a r IH]; simpl; [done|].
  by rewrite lower_char_idempotent, IH.
Qed.

Lemma replace_space_lower (old : ascii) (s : string) :
  (forall a, Ascii.eqb (lower_char a) old = Ascii.eqb a old) ->
  replace_char old " " (lower s) = lower (replace_char old " " s).
Proof.
  intros Hold. induction s as [|a r IH]; simpl; [done|].
  rewrite Hold. destruct (Ascii.eqb a old).
  - rewrite IH. reflexivity.
  - simpl. by rewrite IH.
Qed.

Lemma collapse_spaces_lower (in_run : bool) (s : string) :
  collapse_spaces in_run (lower s) = lower (collapse_spaces in_run s).
Proof.
  revert in_run. induction s as [|a r IH]; intros in_run; simpl; [done|].
  rewrite is_space_lower. destruct (is_space a).
  - destruct in_run; simpl; by rewrite IH.
  - simpl. by rewrite IH.
Qed.

Lemma lstrip_lower (s : string) : lstrip (lower s) = lower (lstrip s).
Proof.
  induction s as [|a r IH]; simpl; [done|].
  rewrite is_space_lower. by destruct (is_space a).
Qed.

Lemma rstrip_lower (s : string) : rstrip (lower s) = lower (rstrip s).
Proof.
  induction s as [|a r IH]; simpl; [done|].
  rewrite IH, is_space_lower.
  destruct (rstrip r); simpl; [by destruct (is_space a)|done].
Qed.

Lemma strip_lower (s : string) : strip (lower s) = lower (strip s).
Proof. unfold strip. by rewrite lstrip_lower, rstrip_lower. Qed.

(** ** Separators *)

Lemma spaced_cons (a : ascii) (r : string) :
  spaced (String a r)
  = String (if Ascii.eqb a "_"%char || Ascii.eqb a "-"%char then " "%char else a)
           (spaced r).
Proof.
  unfold spaced. cbn [replace_char].
  destruct (Ascii.eqb a "_"%char) eqn:E1.
  - reflexivity.
  - cbn [replace_char orb]. by destruct (Ascii.eqb a "-"%char).
Qed.

Lemma spaced_idempotent (name : string) : spaced (spaced name) = spaced name.
Proof.
  induction name as [|a r IH]; [done|].
  rewrite !spaced_cons, IH. f_equal.
  destruct (Ascii.eqb a "_"%char) eqn:E1; [done|].
  destruct (Ascii.eqb a "-"%char) eqn:E2; [done|].
  cbn [orb]. by rewrite E1, E2.
Qed.

Section Case.

Context {ext : Externals}.

Lemma normalise_lower (name : string) :
  _normalise_column_name (lower name) = _normalise_column_name name.
Proof.
  unfold _normalise_column_name.
  rewrite (replace_space_lower _ _ eqb_lower_underscore).
  rewrite (replace_space_lower _ _ eqb_lower_hyphen).
  by rewrite collapse_spaces_lower, strip_lower, lower_idempotent.
Qed.

Lemma name_similarity_lower (column_name : string) (t : target) :
  _name_similarity_score (lower column_name) t = _name_similarity_score column_name t.
Proof. unfold _name_similarity_score. by rewrite normalise_lower. Qed.

Lemma regex_bonus_lower (column_name : string) (t : target) :
  _regex_bonus (lower column_name) t = _regex_bonus column_name t.
Proof. unfold _regex_bonus. by rewrite lower_idempotent. Qed.

(** X17.  The score and the components of a column do not depend on
    the case of the letters in its name. *)
Theorem scoring_ignores_case (t : target) (column_name : string) (series : Series) :
  score (SCORERS t (lower column_name) series) = score (SCORERS t column_name series)
  /\ components (SCORERS t (lower column_name) series)
     = components (SCORERS t column_name series).
Proof.
  destruct t; unfold SCORERS.
  - unfold _score_customer_id. destruct (dropna series); [done|].
    by rewrite name_similarity_lower, regex_bonus_lower.
  - unfold _score_transaction_date. destruct (dropna series); [done|].
    by rewrite name_similarity_lower, regex_bonus_lower.
  - unfold _score_transaction_amount. destruct (dropna series); [done|].
    rewrite name_similarity_lower, regex_bonus_lower, normalise_lower.
    destruct (_attempt_numeric _) as [numeric valid].
    destruct (Qltb 0 valid); done.
Qed.

(** X18.  Underscores, hyphens and spaces in a column name are the
    same to the normalised name and so to the name similarity. *)
Theorem separators_are_alike (column_name : string) (t : target) :
  _normalise_column_name (spaced column_name) = _normalise_column_name column_name
  /\ _name_similarity_score (spaced column_name) t
     = _name_similarity_score column_name t.
Proof.
  assert (_normalise_column_name (spaced column_name)
          = _normalise_column_name column_name) as H.
  { unfold _normalise_column_name. fold (spaced (spaced column_name)).
    fold (spaced column_name). by rewrite spaced_idempotent. }
  split; [done|]. unfold _name_similarity_score. by rewrite H.
Qed.

End Case.

(** ** The threshold *)

Lemma first_free_member (l : list ColumnScore) (used : gset string) (min_score : Q)
    (c : ColumnScore) :
  first_free l used min_score = Some c -> c ∈ l /\ min_score <= score c.
Proof.
  intros H. destruct (first_free_Some _ _ _ _ H) as (pre & post & -> & _ & Hmin & _).
  split; [|done]. apply elem_of_app. right. by left.
Qed.

Lemma first_free_lower (l : list ColumnScore) (used : gset string)
    (min_score lower_score : Q) (c : ColumnScore) :
  descending score l -> lower_score <= min_score ->
  first_free l used min_score = Some c ->
  first_free l used lower_score = Some c.
Proof.
  intros Hl Hle. induction Hl as [|x r Hr IH Hx]; simpl; [done|].
  destruct (decide (column x ∈ used)) as [Hin|Hout]; [exact IH|].
  destruct (Qle_bool min_score (score x)) eqn:E.
  - intros [= <-]. apply Qle_bool_iff in E.
    by rewrite (proj2 (Qle_bool_iff lower_score (score x)) (Qle_trans _ _ _ Hle E)).
  - intros H. exfalso.
    destruct (first_free_member _ _ _ _ H) as [Hin Hmin].
    rewrite Forall_forall in Hx. specialize (Hx c Hin). cbv beta in Hx.
    assert (min_score <= score x) as Hbad by by apply Qle_trans with (score c).
    apply Qle_bool_iff in Hbad. congruence.
Qed.

Lemma assign_lower (scores : gmap target (list ColumnScore))
    (min_score lower_score : Q) (order : list target)
    (st : gmap target string * gset string) :
  lower_score <= min_score -> NoDup order ->
  (forall t, t ∈ order -> st.1 !! t = None) ->
  (forall t, t ∈ order ->
     is_Some ((fold_left (assign_target scores min_score) order st).1 !! t)) ->
  fold_left (assign_target scores lower_score) order st
  = fold_left (assign_target scores min_score) order st.
Proof.
  intros Hle. revert st. induction order as [|t r IH]; intros st Hnd Hnone Hall;
    [done|].
  apply NoDup_cons in Hnd as [Hnotin Hnd]. cbn [fold_left].
  assert (assign_target scores lower_score st t
          = assign_target scores min_score st t) as Hstep.
  { specialize (Hall t (list_elem_of_here _ _)). cbn [fold_left] in Hall.
    rewrite fold_other in Hall by done.
    unfold assign_target in *.
    destruct (first_free _ st.2 min_score) as [c|] eqn:E.
    - by rewrite (first_free_lower _ _ _ _ _ (sorted_desc_descending _ _) Hle E).
    - rewrite Hnone in Hall by constructor. by destruct Hall. }
  rewrite Hstep. apply IH; [done| |].
  - intros t' Hin. rewrite step_other by (intros ->; done).
    apply Hnone. by right.
  - intros t' Hin. apply (Hall t'). by right.
Qed.

Section Threshold.

Context {ext : Externals}.

(** X19.  A mapping [infer_schema] returns at one threshold is
    what it returns at every lower threshold. *)
Theorem lower_threshold_same_mapping (df : DataFrame) (min_score lower_score : Q)
    (m : gmap target string) (scores : gmap target (list ColumnScore)) :
  infer_schema df min_score = Ok (m, scores) -> lower_score <= min_score ->
  infer_schema df lower_score = Ok (m, scores).
Proof.
  intros Hok Hle. destruct (infer_schema_Ok _ _ _ _ Hok) as (Hsc & Hm & Hall).
  assert (assign_roles scores lower_score = assign_roles scores min_score) as Heq.
  { unfold assign_roles. apply assign_lower; [done|apply target_order_NoDup|done|].
    intros t _. fold (assign_roles scores min_score). rewrite <- Hm. apply Hall. }
  unfold infer_schema. rewrite Hsc. cbv zeta. rewrite Heq, <- Hm.
  destruct (List.filter _ TARGET_COLUMNS) as [|t0 r] eqn:Hmiss; [done|].
  exfalso.
  assert (In t0 (List.filter (fun t => bool_decide (m !! t = None)) TARGET_COLUMNS))
    as Hin by (rewrite Hmiss; by left).
  apply filter_In in Hin as [_ Hnone]. apply bool_decide_eq_true in Hnone.
  destruct (Hall t0) as [c Hc]. congruence.
Qed.

(** X20.  With a threshold above 1 [infer_schema] raises on every
    table. *)
Theorem threshold_above_one_fails (df : DataFrame) (min_score : Q) :
  1 < min_score -> exists e, infer_schema df min_score = Raise e.
Proof.
  intros Hmin.
  destruct (infer_schema df min_score) as [[m scores]|e] eqn:Hok; [|by exists e].
  exfalso.
  destruct (infer_schema_Ok _ _ _ _ Hok) as (_ & _ & Hall).
  destruct (Hall CustomerID) as [c Hc].
  destruct (mapped_candidate _ _ _ _ _ _ Hok Hc) as (cand & Hscored & _ & Hge).
  assert (score cand <= 1) as Hle.
  { unfold scored, call_scorer in Hscored.
    destruct (getitem df c) as [|s [|s' l]]; [done| |].
    - injection Hscored as <-. apply (score_le_1 CustomerID).
    - destruct (frame_dropna_empty _); [|done]. by injection Hscored as <-. }
  apply (Qlt_irrefl 1). eapply Qlt_le_trans; [exact Hmin|].
  by eapply Qle_trans.
Qed.

End Threshold.

(** * The application *)

(** ** File names *)

Lemma contains_dot_cons (a : ascii) (r : string) :
  contains "." (String a r) = Ascii.eqb a "."%char || contains "." r.
Proof.
  cbn [contains]. f_equal. apply Bool.eq_iff_eq_true.
  rewrite prefix_spec, Ascii.eqb_eq. split.
  - by intros [post [= -> _]].
  - intros ->. by exists r.
Qed.

Lemma after_last_dot_none (s : string) :
  after_last_dot s = None <-> contains "." s = false.
Proof.
  induction s as [|a r IH]; [done|].
  rewrite contains_dot_cons, orb_false_iff, <- IH. cbn [after_last_dot].
  destruct (after_last_dot r) as [ext|].
  - split; [done|]. by intros [_ ?].
  - destruct (Ascii.eqb a "."); split; try done. by intros [? _].
Qed.

Lemma after_last_dot_some (s ext : string) :
  after_last_dot s = Some ext
  <-> exists stem, s = stem +:+ "." +:+ ext /\ contains "." ext = false.
Proof.
  split.
  - revert ext. induction s as [|a r IH]; intros ext; [done|].
    cbn [after_last_dot]. destruct (after_last_dot r) as [e|] eqn:E.
    + intros [= ->]. destruct (IH ext eq_refl) as (stem & -> & Hno).
      by exists (String a stem).
    + destruct (Ascii.eqb_spec a "."%char) as [->|_]; [|done].
      intros [= ->]. exists "". split; [done|]. by apply after_last_dot_none.
  - intros (stem & -> & Hno). apply after_last_dot_none in Hno.
    induction stem as [|a stem IH].
    + change ("" +:+ "." +:+ ext) with (String "."%char ext).
      cbn [after_last_dot]. by rewrite Hno.
    + rewrite append_cons. cbn [after_last_dot]. by rewrite IH.
Qed.

Lemma in_allowed_extensions (s : string) :
  s ∈ ALLOWED_EXTENSIONS <-> s = "csv" \/ s = "xlsx".
Proof.
  unfold ALLOWED_EXTENSIONS. rewrite !elem_of_cons, elem_of_nil. tauto.
Qed.

(** X21.  [allowed_file] accepts exactly the names that end in a dot
    followed by [csv] or [xlsx] in any case. *)
Theorem allowed_file_spec (filename : string) :
  allowed_file filename = true
  <-> exists stem ext,
        filename = stem +:+ "." +:+ ext
        /\ contains "." ext = false
        /\ (lower ext = "csv" \/ lower ext = "xlsx").
Proof.
  unfold allowed_file, rsplit_last.
  rewrite andb_true_iff, bool_decide_eq_true, in_allowed_extensions. split.
  - intros [Hdot Hext].
    destruct (after_last_dot filename) as [ext|] eqn:E.
    + apply after_last_dot_some in E as (stem & -> & Hno). by exists stem, ext.
    + apply after_last_dot_none in E. congruence.
  - intros (stem & ext & Hname & Hno & Hext).
    assert (after_last_dot filename = Some ext) as E
      by (apply after_last_dot_some; by exists stem).
    rewrite E. split; [|done].
    destruct (contains "." filename) eqn:C; [done|].
    apply after_last_dot_none in C. congruence.
Qed.

Lemma reader_for_spec (file_path : string) :
  is_Some (reader_for file_path)
  <-> lower (rsplit_last file_path) ∈ ALLOWED_EXTENSIONS.
Proof.
  rewrite in_allowed_extensions. unfold reader_for.
  destruct (String.eqb_spec (lower (rsplit_last file_path)) "csv") as [->|H1].
  { split; [by left|by eexists]. }
  destruct (String.eqb_spec (lower (rsplit_last file_path)) "xlsx") as [->|H2].
  { split; [by right|by eexists]. }
  split; [by intros [? ?]|by intros [?|?]].
Qed.

(** X22.  [process_rfm] finds a reader for a path exactly when
    [allowed_file] accepts it, or when the path has no dot and is itself
    [csv] or [xlsx] in any case. *)
Theorem readable_iff_allowed_or_bare (file_path : string) :
  is_Some (reader_for file_path)
  <-> allowed_file file_path = true
      \/ (contains "." file_path = false
          /\ (lower file_path = "csv" \/ lower file_path = "xlsx")).
Proof.
  rewrite reader_for_spec. unfold allowed_file.
  rewrite andb_true_iff, bool_decide_eq_true.
  destruct (contains "." file_path) eqn:C.
  - split; [by left|]. intros [[_ H]|[? _]]; done.
  - split.
    + intros H. right. split; [done|]. apply in_allowed_extensions.
      apply after_last_dot_none in C. unfold rsplit_last in H. by rewrite C in H.
    + intros [[? _]|[_ H]]; [done|]. apply in_allowed_extensions in H.
      apply after_last_dot_none in C. unfold rsplit_last. by rewrite C.
Qed.

(** ** Lifetime value *)

Lemma np_maximum_l (a b : Q) : b <= a -> np_maximum a b = a.
Proof.
  intros H. unfold np_maximum. by rewrite (proj2 (Qle_bool_iff b a) H).
Qed.

Section LifetimeValue.

Context {fa : FloatArith}.

(** A rounded quotient lies between three and five quarters of the exact
    one. *)
Lemma fdiv_bounds (a b : Q) :
  0 < a -> 0 < b ->
  (3 # 4) * (a / b) <= fdiv a b <= (5 # 4) * (a / b).
Proof.
  intros Ha Hb.
  destruct (fdiv_error a b) as (delta & Hdelta & ->); [lra|].
  pose proof unit_roundoff_small as [_ Hu].
  apply Qabs_Qle_condition in Hdelta.
  assert (0 < a / b) as Hq.
  { apply Qlt_shift_div_l; [done|]. lra. }
  set (q := a / b) in *.
  assert (0 <= q * ((1 # 4) + delta)) as Hlo
    by (apply Qmult_le_0_compat; lra).
  assert (0 <= q * ((1 # 4) - delta)) as Hhi
    by (apply Qmult_le_0_compat; lra).
  split; lra.
Qed.

(** The tenure in years is positive and never below the guard of the yearly
    frequency. *)
Lemma tenure_years_guard (days : Z) :
  0 < fdiv (inject_Z (Z.max days 1)) (36525 # 100)
  /\ fdiv 1 (36525 # 100) <= fdiv (inject_Z (Z.max days 1)) (36525 # 100).
Proof.
  assert (1 <= inject_Z (Z.max days 1)) as Hd.
  { change 1 with (inject_Z 1). rewrite <- Zle_Qle. lia. }
  pose proof (fdiv_bounds (inject_Z (Z.max days 1)) (36525 # 100)) as [Hlo _];
    [lra|done|].
  assert (0 < inject_Z (Z.max days 1) / (36525 # 100)) as Hq.
  { apply Qlt_shift_div_l; [done|]. lra. }
  split; [lra|].
  destruct (decide (Z.max days 1 = 1%Z)) as [->|Hne]; [apply Qle_refl|].
  assert (2 <= inject_Z (Z.max days 1)) as Hd2.
  { change 2 with (inject_Z 2). rewrite <- Zle_Qle. lia. }
  pose proof (fdiv_bounds 1 (36525 # 100)) as [_ Hhi]; [done|done|].
  assert (inject_Z (Z.max days 1) / (36525 # 100)
          == inject_Z (Z.max days 1) * (100 # 36525)) as Heq by (field; done).
  assert (1 / (36525 # 100) == 100 # 36525) as Heq1 by (field; done).
  rewrite Heq in Hlo. rewrite Heq1 in Hhi. lra.
Qed.

(** X23.  For a customer with at least one transaction the lifetime
    value is the sum of the customer's amounts up to the rounding errors
    of the two divisions and the two multiplications that compute it, in
    the application and in the regression script alike: the two agree on
    the average order value, on the yearly frequency and on the lifetime
    value, the guards [np.where] and [np.maximum] never changing a value;
    and the tenure is at least one day. *)
Theorem ltv_is_monetary (days Frequency : Z) (Monetary : Q) :
  (0 < Frequency)%Z ->
  let app := customer_metrics days Frequency Monetary in
  let script := compute_metrics days Frequency Monetary in
  (exists d1 d2 d3 d4,
     Qabs d1 <= unit_roundoff /\ Qabs d2 <= unit_roundoff
     /\ Qabs d3 <= unit_roundoff /\ Qabs d4 <= unit_roundoff
     /\ LTV app == Monetary * (1 + d1) * (1 + d2) * (1 + d3) * (1 + d4))
  /\ LTV script = LTV app
  /\ AverageOrderValue app = AverageOrderValue script
  /\ PurchaseFrequencyPerYear app = PurchaseFrequencyPerYear script
  /\ (1 <= CustomerTenureDays app)%Z.
Proof.
  intros Hf app script. unfold app, script, customer_metrics, compute_metrics.
  cbn [LTV AverageOrderValue PurchaseFrequencyPerYear CustomerTenureDays].
  destruct (tenure_years_guard days) as [Hpos Hguard].
  rewrite (np_maximum_l _ _ Hguard).
  rewrite (proj2 (Z.ltb_lt 0 Frequency) Hf).
  split; [|repeat split; lia].
  set (years := fdiv (inject_Z (Z.max days 1)) (36525 # 100)) in *.
  assert (~ inject_Z Frequency == 0) as Hf0.
  { change 0 with (inject_Z 0). rewrite inject_Z_injective. lia. }
  assert (~ years == 0) as Hy0 by lra.
  unfold calculate_ltv.
  destruct (fdiv_error Monetary (inject_Z Frequency) Hf0) as (d1 & H1 & E1).
  destruct (fdiv_error (inject_Z Frequency) years Hy0) as (d2 & H2 & E2).
  destruct (fmul_error (fdiv Monetary (inject_Z Frequency))
                       (fdiv (inject_Z Frequency) years)) as (d3 & H3 & E3).
  destruct (fmul_error (fmul (fdiv Monetary (inject_Z Frequency))
                             (fdiv (inject_Z Frequency) years)) years)
    as (d4 & H4 & E4).
  exists d1, d2, d3, d4. repeat (split; [done|]).
  rewrite E4, E3, E1, E2. field. by split.
Qed.

End LifetimeValue.

(** ** The number of clusters *)

Lemma argmax_from_bound (best : Q) (best_i i : nat) (l : list Q) :
  (best_i < i)%nat -> (argmax_from best best_i i l < i + length l)%nat.
Proof.
  revert best best_i i. induction l as [|x r IH]; intros best best_i i Hlt; simpl.
  - lia.
  - destruct (Qltb best x).
    + specialize (IH x i (S i)). lia.
    + specialize (IH best best_i (S i)). lia.
Qed.

Lemma argmax_bound (l : list Q) (i : nat) :
  argmax l = Some i -> (i < length l)%nat.
Proof.
  destruct l as [|x r]; [done|]. intros [= <-]. simpl.
  pose proof (argmax_from_bound x 0 1 r). lia.
Qed.

Lemma diff_length (l : list Q) : length (diff l) = (length l - 1)%nat.
Proof.
  induction l as [|a [|b r] IH]; [done|done|].
  cbn [diff length] in *. rewrite IH. lia.
Qed.

Lemma argmax_is_Some (l : list Q) : l <> [] -> is_Some (argmax l).
Proof. destruct l; [done|]. by eexists. Qed.

Section ClusterCount.

Variable inertia : nat -> Q.

Lemma distortions_length (max_clusters : nat) :
  length (diff (map inertia (seq 2 (max_clusters + 1 - 2))))
  = (max_clusters - 2)%nat.
Proof. rewrite diff_length, length_map, length_seq. lia. Qed.

(** X24.  A number of clusters that is chosen lies between 2 and
    the number of customers.  A requested number is clamped to that range
    and to nothing else; an automatic one needs three customers and stays
    below [max_clusters], hence below 10. *)
Theorem chosen_cluster_count (unique_customers : nat)
    (selected_clusters : cluster_size) (k : Z) :
  choose_clusters inertia unique_customers selected_clusters = clusters k ->
  (2 <= k <= Z.of_nat unique_customers)%Z
  /\ match selected_clusters with
     | Auto => (3 <= unique_customers)%nat
               /\ (k < Z.of_nat (Nat.min 10 unique_customers))%Z
     | Requested n => k = Z.min (Z.max n 2) (Z.of_nat unique_customers)
     | Unreadable => False
     end.
Proof.
  unfold choose_clusters.
  destruct (unique_customers <? 2)%nat eqn:E; [done|].
  apply Nat.ltb_ge in E. destruct selected_clusters as [|n|].
  - destruct (argmax _) as [i|] eqn:Ha; [|done]. intros [= <-].
    apply argmax_bound in Ha. rewrite distortions_length in Ha. lia.
  - intros [= <-]. destruct (n <? 2)%Z eqn:En.
    + apply Z.ltb_lt in En. lia.
    + apply Z.ltb_ge in En. lia.
  - done.
Qed.

(** X25.  The choice answers "not enough customers" exactly below
    two customers.  From two customers on it fails with an exception in
    exactly two cases: [int(...)] raises on the requested size; or there
    are two customers and the choice is automatic, where [np.argmax] is
    given an empty sequence. *)
Theorem cluster_choice_outcomes (unique_customers : nat)
    (selected_clusters : cluster_size) :
  (choose_clusters inertia unique_customers selected_clusters
   = not_enough_customers <-> (unique_customers < 2)%nat)
  /\ (choose_clusters inertia unique_customers selected_clusters = failed
      <-> (2 <= unique_customers)%nat
          /\ (selected_clusters = Unreadable
              \/ (unique_customers = 2%nat /\ selected_clusters = Auto))).
Proof.
  unfold choose_clusters.
  destruct (unique_customers <? 2)%nat eqn:E.
  { apply Nat.ltb_lt in E. split; [done|]. split; [done|]. intros [? _]. lia. }
  apply Nat.ltb_ge in E. destruct selected_clusters as [|n|].
  - destruct (argmax _) as [i|] eqn:Ha.
    + apply argmax_bound in Ha. rewrite distortions_length in Ha.
      split; (split; [done|]); [lia|]. intros [_ [?|[? _]]]; [done|lia].
    + split; [split; [done|lia]|]. split; [|done]. intros _.
      split; [done|]. right. split; [|done].
      destruct (decide (unique_customers = 2%nat)) as [|Hne]; [done|exfalso].
      destruct (argmax_is_Some
                  (diff (map inertia (seq 2 (Nat.min 10 unique_customers + 1 - 2)))))
        as [i Hi]; [|congruence].
      intros Hnil. apply (f_equal length) in Hnil.
      rewrite distortions_length in Hnil. cbn [length] in Hnil. lia.
  - split; (split; [done|]); [lia|]. intros [_ [?|[_ ?]]]; done.
  - split; [split; [done|lia]|]. split; [|done]. intros _. split; [done|by left].
Qed.

End ClusterCount.

(** ** Segments *)

Lemma cluster_label_other (i : nat) : cluster_label i = "Other" <-> (9 <= i)%nat.
Proof.
  do 9 (destruct i as [|i]; [split; [done|lia]|]).
  split; [lia|done].
Qed.

(** X26.  The first ten ranks have ten different segment names,
    ["Other"] is the name of rank 9 and beyond, and no cluster of an
    automatic choice is called ["Other"]. *)
Theorem segment_names (inertia : nat -> Q) :
  (forall i j, (i < 10)%nat -> (j < 10)%nat ->
               cluster_label i = cluster_label j -> i = j)
  /\ (forall i, cluster_label i = "Other" <-> (9 <= i)%nat)
  /\ (forall unique_customers k i,
        choose_clusters inertia unique_customers Auto = clusters k ->
        (Z.of_nat i < k)%Z -> cluster_label i <> "Other").
Proof.
  split; [|split].
  - intros i j Hi Hj.
    do 10 (destruct i as [|i]; [do 10 (destruct j as [|j]; [done|]); lia|]). lia.
  - apply cluster_label_other.
  - intros u k i Hk Hi Hother. apply cluster_label_other in Hother.
    unfold choose_clusters in Hk.
    destruct (u <? 2)%nat; [done|].
    destruct (argmax _) as [a|] eqn:Ha; [|done]. injection Hk as <-.
    apply argmax_bound in Ha. rewrite distortions_length in Ha. lia.
Qed.

Ltac churn_case :=
  vm_compute bool_decide; cbv iota;
  split; [|split; [|first [by left|by right; left|by right; right]]];
  (split; [intros ?|intros ?]);
  first [done | lia | tauto | intuition (first [done | lia])].

(** X27.  The churn label of a customer by the rank of the
    cluster: "Yes" exactly for ranks 1 and 3 and for customers above the
    median recency and below the median frequency; "No" exactly for ranks
    0, 6 and 7 outside that case; "Maybe" otherwise. *)
Theorem churn_label_by_rank (i : nat)
    (Recency Frequency median_recency median_frequency : Q) :
  let label := assign_churn_label (cluster_label i) Recency Frequency
                 median_recency median_frequency in
  let slipping := median_recency < Recency /\ Frequency < median_frequency in
  (label = "Yes" <-> i = 1%nat \/ i = 3%nat \/ slipping)
  /\ (label = "No" <-> (i = 0%nat \/ i = 6%nat \/ i = 7%nat) /\ ~ slipping)
  /\ (label = "Yes" \/ label = "No" \/ label = "Maybe").
Proof.
  intros label slipping. unfold label, assign_churn_label.
  assert (Qltb median_recency Recency && Qltb Frequency median_frequency = true
          <-> slipping) as Hs.
  { unfold slipping. by rewrite andb_true_iff, !Qltb_lt. }
  destruct (Qltb median_recency Recency && Qltb Frequency median_frequency).
  - assert slipping as H by by apply Hs.
    do 9 (destruct i as [|i]; [churn_case|]). churn_case.
  - assert (~ slipping) as H by (intros H; by apply Hs in H).
    do 9 (destruct i as [|i]; [churn_case|]). churn_case.
Qed.

(** ** The properties on the sample tables *)

Lemma sample_run_Ok :
  @infer_and_standardize_rfm sample_externals 0%nat MIN_INFERENCE_SCORE
    sample_store
  = (Ok (sample_out, sample_diagnostics), sample_final).
Proof. vm_compute. reflexivity. Defined.

Lemma sample_failure_raised :
  @infer_schema sample_externals missing_amount MIN_INFERENCE_SCORE
  = Raise (SchemaInferenceError sample_failure_message sample_failure_details).
Proof. vm_compute. reflexivity. Defined.

Lemma mapped_column_has_a_value_witness :
  exists series, getitem orders "amount" = [series] /\ dropna series <> [].
Proof.
  apply (mapped_column_has_a_value (ext := sample_externals) orders
           MIN_INFERENCE_SCORE sample_mapping sample_scores TransactionAmount).
  - exact sample_inference_Ok.
  - reflexivity.
  - vm_compute. reflexivity.
Defined.

Lemma success_needs_three_columns_witness :
  (forall t, exists c, sample_mapping !! t = Some c /\ c ∈ labels orders)
  /\ dom sample_mapping = {[CustomerID; TransactionDate; TransactionAmount]}
  /\ (forall t, length (sample_scores !!! t) = length (columns orders))
  /\ (3 <= length (columns orders))%nat.
Proof.
  exact (success_needs_three_columns (ext := sample_externals) orders
           MIN_INFERENCE_SCORE sample_mapping sample_scores sample_inference_Ok).
Defined.

Lemma valueless_table_has_no_schema_witness :
  exists details,
    @infer_schema sample_externals blank_table MIN_INFERENCE_SCORE
    = Raise (SchemaInferenceError
               "Unable to infer required columns: CustomerID, TransactionDate, TransactionAmount. Please rename the relevant fields or supply mapping hints."
               details)
    /\ forall t,
         suggestions details !! t
         = Some (Some {| best_column := "customer_id";
                         suggested_score := @round3 sample_externals 0;
                         suggested_components := {["non_null_ratio" := 0]} |}).
Proof.
  apply (valueless_table_has_no_schema (ext := sample_externals) blank_table
           MIN_INFERENCE_SCORE).
  - reflexivity.
  - repeat constructor.
Defined.

Lemma suggestions_cover_exactly_the_unmapped_witness :
  exists scores,
    @score_columns sample_externals missing_amount (labels missing_amount)
      empty_scores = Ok scores
    /\ (let unmapped :=
          List.filter
            (fun t => bool_decide
                        ((assign_roles scores MIN_INFERENCE_SCORE).1 !! t = None))
            TARGET_COLUMNS in
        unmapped <> []
        /\ sample_failure_message = inference_message unmapped
        /\ forall t, is_Some (suggestions sample_failure_details !! t)
                     <-> t ∈ unmapped).
Proof.
  apply (suggestions_cover_exactly_the_unmapped (ext := sample_externals)
           missing_amount MIN_INFERENCE_SCORE).
  vm_compute. reflexivity.
Defined.

Lemma inference_failure_propagates_witness :
  @infer_and_standardize_rfm sample_externals 0%nat MIN_INFERENCE_SCORE
    failing_store
  = (Raise (SchemaInferenceError sample_failure_message sample_failure_details),
     failing_store).
Proof.
  apply (inference_failure_propagates (ext := sample_externals) failing_store
           0%nat MIN_INFERENCE_SCORE missing_amount).
  - reflexivity.
  - vm_compute. reflexivity.
Defined.

Lemma standardize_returns_iff_witness :
  (exists out diagnostics st',
     @infer_and_standardize_rfm sample_externals 0%nat MIN_INFERENCE_SCORE
       sample_store = (Ok (out, diagnostics), st'))
  <-> (exists m scores,
         @infer_schema sample_externals orders MIN_INFERENCE_SCORE = Ok (m, scores)
         /\ forall t, exists s,
              getitem (frame_rename (invert_mapping m) orders) (target_name t) = [s]).
Proof.
  apply (standardize_returns_iff (ext := sample_externals) sample_store 0%nat
           MIN_INFERENCE_SCORE orders).
  reflexivity.
Defined.

Lemma unparseable_dates_become_missing_witness :
  exists dates frame written recorded,
    getitem orders "order_date" = [dates]
    /\ frames sample_final !! sample_out = Some frame
    /\ getitem frame "TransactionDate" = [written]
    /\ written = map (fun x => match sample_to_datetime dates x with
                               | Some t => Time t
                               | None => NaN
                               end) dates
    /\ coercion_ratios sample_diagnostics !! "TransactionDate" = Some recorded
    /\ rounded3 (inject_Z 3 / inject_Z 4) recorded.
Proof.
  destruct (unparseable_dates_become_missing (ext := sample_externals)
              sample_store sample_final 0%nat sample_out MIN_INFERENCE_SCORE
              sample_diagnostics orders "order_date")
    as (dates & frame & written & earlier & later & msg & recorded
        & H1 & H2 & H3 & H4 & Hrest & _).
  - exact sample_run_Ok.
  - reflexivity.
  - vm_compute. reflexivity.
  - destruct Hrest as (_ & _ & _ & H5 & H6).
    exists dates, frame, written, recorded.
    refine (conj H1 (conj H2 (conj H3 (conj H4 (conj H5 _))))).
    assert (dates = [Text "2023-01-05"; Text "2023-01-06"; Text "2023-02-01";
                     Text "soon"]) as Hd.
    { vm_compute in H1. injection H1 as <-. reflexivity. }
    clear - H6 Hd. subst dates. exact H6.
Defined.

Lemma other_columns_carried_over_witness :
  exists frame,
    frames sample_final !! sample_out = Some frame
    /\ index_size frame = index_size orders
    /\ labels frame
       = map (fun c => match mapping sample_diagnostics !! c with
                       | Some t => target_name t
                       | None => c
                       end) (labels orders)
    /\ forall c, mapping sample_diagnostics !! c = None ->
                 (forall t, c <> target_name t) ->
                 getitem frame c = getitem orders c.
Proof.
  apply (other_columns_carried_over (ext := sample_externals) sample_store
           sample_final 0%nat sample_out MIN_INFERENCE_SCORE sample_diagnostics
           orders).
  - exact sample_run_Ok.
  - reflexivity.
Defined.

Lemma diagnostics_maps_are_inverse_witness :
  (forall c t, mapping sample_diagnostics !! c = Some t
               <-> source_columns sample_diagnostics !! t = Some c)
  /\ (forall t, is_Some (source_columns sample_diagnostics !! t))
  /\ (forall key, is_Some (coercion_ratios sample_diagnostics !! key)
                  <-> key = "TransactionDate" \/ key = "TransactionAmount").
Proof.
  exact (diagnostics_maps_are_inverse (ext := sample_externals) sample_store
           sample_final 0%nat sample_out MIN_INFERENCE_SCORE sample_diagnostics
           sample_run_Ok).
Defined.

Lemma warnings_are_logged_witness :
  logged sample_final = logged sample_store ++ warnings sample_diagnostics
  /\ (length (warnings sample_diagnostics) <= 3)%nat
  /\ length (frames sample_final) = (length (frames sample_store) + 2)%nat
  /\ frames sample_store !! sample_out = None
  /\ sample_out <> 0%nat.
Proof.
  exact (warnings_are_logged (ext := sample_externals) sample_store
           sample_final 0%nat sample_out MIN_INFERENCE_SCORE sample_diagnostics
           sample_run_Ok).
Defined.

Lemma standardized_ids_are_clean_witness :
  exists frame written,
    frames sample_final !! sample_out = Some frame
    /\ getitem frame "CustomerID" = [written]
    /\ Forall (fun x => x = NaN
                        \/ exists s, x = Text s /\ s <> "" /\ strip s = s) written.
Proof.
  exact (standardized_ids_are_clean (ext := sample_externals) sample_store
           sample_final 0%nat sample_out MIN_INFERENCE_SCORE sample_diagnostics
           sample_run_Ok).
Defined.

Lemma ltv_is_monetary_witness :
  LTV (customer_metrics (fa := exact_arith) 400 3 150) == 150
  /\ LTV (compute_metrics (fa := exact_arith) 400 3 150)
     = LTV (customer_metrics (fa := exact_arith) 400 3 150).
Proof.
  destruct (ltv_is_monetary (fa := exact_arith) 400 3 150) as (H1 & H2 & _); [lia|].
  split; [|exact H2].
  destruct H1 as (d1 & d2 & d3 & d4 & B1 & B2 & B3 & B4 & ->).
  cbn [unit_roundoff exact_arith] in B1, B2, B3, B4.
  assert (d1 == 0) as -> by (apply Qabs_Qle_condition in B1; lra).
  assert (d2 == 0) as -> by (apply Qabs_Qle_condition in B2; lra).
  assert (d3 == 0) as -> by (apply Qabs_Qle_condition in B3; lra).
  assert (d4 == 0) as -> by (apply Qabs_Qle_condition in B4; lra).
  reflexivity.
Defined.

Lemma chosen_cluster_count_witness :
  (2 <= 4 <= Z.of_nat 5)%Z
  /\ (3 <= 5)%nat /\ (4 < Z.of_nat (Nat.min 10 5))%Z.
Proof.
  apply (chosen_cluster_count sample_inertia 5 Auto 4).
  vm_compute. reflexivity.
Defined.

Lemma lower_threshold_same_mapping_witness :
  @infer_schema sample_externals orders (1 # 2) = Ok (sample_mapping, sample_scores).
Proof.
  apply (lower_threshold_same_mapping (ext := sample_externals) orders
           MIN_INFERENCE_SCORE).
  - exact sample_inference_Ok.
  - unfold Qle. simpl. lia.
Defined.

Lemma threshold_above_one_fails_witness :
  exists e, @infer_schema sample_externals orders 2 = Raise e.
Proof.
  apply (threshold_above_one_fails (ext := sample_externals) orders 2).
  reflexivity.
Defined.
